(** * The Floor is Lava: simulation core

    A shallow embedding of the game's simulation code (player, particle
    manager, lava manager, game loop and pose/keyboard input mapping) and the
    properties of its specification.

    Numbers.  JavaScript numbers are modelled as rationals ([Q]); an
    equality between computed numbers is therefore stated with [==].  Where
    the code adds up a timer tick by tick and tests it against a threshold
    (the jump timer and the lane-change cooldown of the player), the sum of
    each tick is rounded to the nearest double, as the code's arithmetic
    does ([fl64]); what the particle buffers store is rounded to the nearest
    single ([fl32]).  Elsewhere the arithmetic is exact.  The one place
    where the code can produce [undefined]/[NaN] from well-typed data is an
    out-of-range index into [LANES]; such a value is modelled as [None] in
    the type [num], and every comparison on it is false, as in JavaScript.

    Rendering.  Scene-graph membership, visibility of the player mesh,
    rotations, textures and animation mixers are written by the code but
    never read back by the simulation; they are left out.  A particle system
    is represented by its object identity, its buffers apart. *)

From Stdlib Require Import QArith Qabs Qminmax Qround Qpower.
From Stdlib Require Import ZArith List Bool Lia Lqa.
From Stdlib Require Import Permutation.
Import ListNotations.

Open Scope Q_scope.

(** ** Numbers *)

Definition Qleb (a b : Q) : bool := Qle_bool a b.
Definition Qltb (a b : Q) : bool := negb (Qle_bool b a).

(** A JavaScript number that may be [undefined]/[NaN]. *)
Definition num : Type := option Q.

Definition num_sub (a b : num) : num :=
  match a, b with
  | Some u, Some v => Some (u - v)
  | _, _ => None
  end.

(** [Math.abs(a) < c]; false on [NaN]. *)
Definition num_abs_ltb (a : num) (c : Q) : bool :=
  match a with
  | Some u => Qltb (Qabs u) c
  | None => false
  end.

(** ** Rounding

    IEEE 754 round-to-nearest, ties to even, on the rationals: [round prec
    emin] keeps [prec] significant bits, the last of them not below
    [2 ^ emin].  Overflow to infinity is not modelled: the numbers rounded
    here are timers, ages and positions far below the largest double. *)

(** The nearest integer, ties to even. *)
Definition rne (q : Q) : Z :=
  let f := Qfloor q in
  match Qcompare (q - inject_Z f) (1 # 2) with
  | Lt => f
  | Gt => (f + 1)%Z
  | Eq => if Z.even f then f else (f + 1)%Z
  end.

(** [floor (log2 q)] for a positive [q]. *)
Definition ilog2 (q : Q) : Z :=
  let k := (Z.log2 (Qnum q) - Z.log2 (Zpos (Qden q)))%Z in
  if Qleb (2 ^ k) q then k else (k - 1)%Z.

(** A positive number, rounded. *)
Definition round_pos (prec emin : Z) (q : Q) : Q :=
  let e := Z.max emin (ilog2 q - (prec - 1)) in
  inject_Z (rne (q / 2 ^ e)) * 2 ^ e.

Definition round (prec emin : Z) (q : Q) : Q :=
  if Qltb 0 q then round_pos prec emin q
  else if Qltb q 0 then - round_pos prec emin (- q)
  else 0.

(** The nearest double: 53 bits, subnormals down to [2 ^ -1074]. *)
Definition fl64 (q : Q) : Q := Qred (round 53 (-1074) q).

(** The nearest single, as stored into a [Float32Array]: 24 bits,
    subnormals down to [2 ^ -149]. *)
Definition fl32 (q : Q) : Q := Qred (round 24 (-149) q).

(** ** JavaScript arrays as lists: [push] appends, [pop] takes the last
    element. *)

Definition push {A : Type} (l : list A) (a : A) : list A := l ++ [a].

Definition pop {A : Type} (l : list A) : option (A * list A) :=
  match rev l with
  | [] => None
  | a :: r => Some (a, rev r)
  end.

(** ** constants.js *)

Definition LANE_WIDTH : Q := 2.5.
Definition LANES : list Q := [- LANE_WIDTH; 0; LANE_WIDTH].
Definition PLATFORM_DEPTH : Q := 2.0.
Definition PLAYER_START_Z : Q := 2.
Definition PLAYER_LANE_CHANGE_COOLDOWN : Q := 1.0.
Definition INITIAL_GAME_SPEED : Q := 7.0.
Definition MAX_GAME_SPEED : Q := 50.0.
Definition GAME_SPEED_INCREASE_RATE : Q := 0.35.
Definition GAME_AREA_LENGTH : Q := 75.

(** [LANES[i]]: [undefined] outside the array. *)
Definition LANES_at (i : Z) : num :=
  if (i <? 0)%Z then None else nth_error LANES (Z.to_nat i).

(** ** player.js *)

Module Player.

Definition PLAYER_HEIGHT : Q := 3.5.

(** [mesh.position]. *)
Record Vec3 : Type := {
  x : num;
  y : Q;
  z : Q
}.

Record Player : Type := {
  position : Vec3;
  targetLane : Z;
  currentLane : Z;
  isOnCooldown : bool;
  cooldownTimer : Q;
  isJumping : bool;
  jumpStartY : Q;
  jumpApexY : Q;
  jumpDuration : Q;
  jumpTimer : Q;
  bounceTimer : Q;
  bounceSpeed : Q;
  bounceHeight : Q
}.

(** Field assignments. *)

Definition set_position (v : Vec3) (p : Player) : Player :=
  {| position := v; targetLane := targetLane p; currentLane := currentLane p;
     isOnCooldown := isOnCooldown p; cooldownTimer := cooldownTimer p;
     isJumping := isJumping p; jumpStartY := jumpStartY p;
     jumpApexY := jumpApexY p; jumpDuration := jumpDuration p;
     jumpTimer := jumpTimer p; bounceTimer := bounceTimer p;
     bounceSpeed := bounceSpeed p; bounceHeight := bounceHeight p |}.

Definition set_x (v : num) (p : Player) : Player :=
  set_position {| x := v; y := y (position p); z := z (position p) |} p.

Definition set_y (v : Q) (p : Player) : Player :=
  set_position {| x := x (position p); y := v; z := z (position p) |} p.

Definition set_z (v : Q) (p : Player) : Player :=
  set_position {| x := x (position p); y := y (position p); z := v |} p.

Definition set_targetLane (v : Z) (p : Player) : Player :=
  {| position := position p; targetLane := v; currentLane := currentLane p;
     isOnCooldown := isOnCooldown p; cooldownTimer := cooldownTimer p;
     isJumping := isJumping p; jumpStartY := jumpStartY p;
     jumpApexY := jumpApexY p; jumpDuration := jumpDuration p;
     jumpTimer := jumpTimer p; bounceTimer := bounceTimer p;
     bounceSpeed := bounceSpeed p; bounceHeight := bounceHeight p |}.

Definition set_currentLane (v : Z) (p : Player) : Player :=
  {| position := position p; targetLane := targetLane p; currentLane := v;
     isOnCooldown := isOnCooldown p; cooldownTimer := cooldownTimer p;
     isJumping := isJumping p; jumpStartY := jumpStartY p;
     jumpApexY := jumpApexY p; jumpDuration := jumpDuration p;
     jumpTimer := jumpTimer p; bounceTimer := bounceTimer p;
     bounceSpeed := bounceSpeed p; bounceHeight := bounceHeight p |}.

Definition set_cooldown (b : bool) (v : Q) (p : Player) : Player :=
  {| position := position p; targetLane := targetLane p;
     currentLane := currentLane p;
     isOnCooldown := b; cooldownTimer := v;
     isJumping := isJumping p; jumpStartY := jumpStartY p;
     jumpApexY := jumpApexY p; jumpDuration := jumpDuration p;
     jumpTimer := jumpTimer p; bounceTimer := bounceTimer p;
     bounceSpeed := bounceSpeed p; bounceHeight := bounceHeight p |}.

Definition set_jump (b : bool) (v : Q) (p : Player) : Player :=
  {| position := position p; targetLane := targetLane p;
     currentLane := currentLane p;
     isOnCooldown := isOnCooldown p; cooldownTimer := cooldownTimer p;
     isJumping := b; jumpStartY := jumpStartY p;
     jumpApexY := jumpApexY p; jumpDuration := jumpDuration p;
     jumpTimer := v; bounceTimer := bounceTimer p;
     bounceSpeed := bounceSpeed p; bounceHeight := bounceHeight p |}.

Definition set_bounceTimer (v : Q) (p : Player) : Player :=
  {| position := position p; targetLane := targetLane p;
     currentLane := currentLane p;
     isOnCooldown := isOnCooldown p; cooldownTimer := cooldownTimer p;
     isJumping := isJumping p; jumpStartY := jumpStartY p;
     jumpApexY := jumpApexY p; jumpDuration := jumpDuration p;
     jumpTimer := jumpTimer p; bounceTimer := v;
     bounceSpeed := bounceSpeed p; bounceHeight := bounceHeight p |}.

(** [reset()]: back to the middle lane, on the ground, no cooldown. *)
Definition reset (p : Player) : Player :=
  {| position := {| x := LANES_at 1; y := jumpStartY p; z := PLAYER_START_Z |};
     targetLane := 1; currentLane := 1;
     isOnCooldown := false; cooldownTimer := 0;
     isJumping := false; jumpStartY := jumpStartY p;
     jumpApexY := jumpApexY p; jumpDuration := jumpDuration p;
     jumpTimer := 0; bounceTimer := 0;
     bounceSpeed := bounceSpeed p; bounceHeight := bounceHeight p |}.

(** [new Player()]: the field initialisers followed by [this.reset()].
    The jump duration, against which the jump timer is tested, is the double
    that the literal 1.2 denotes. *)
Definition new : Player :=
  reset
    {| position := {| x := Some 0; y := 0; z := 0 |};
       targetLane := 1; currentLane := 1;
       isOnCooldown := false; cooldownTimer := 0;
       isJumping := false; jumpStartY := PLAYER_HEIGHT / 2;
       jumpApexY := PLAYER_HEIGHT / 2 + 2.8; jumpDuration := fl64 1.2;
       jumpTimer := 0; bounceTimer := 0;
       bounceSpeed := 8; bounceHeight := 0.1 |}.

(** [setTargetLane(laneIndex)]. *)
Definition setTargetLane (laneIndex : Z) (p : Player) : Player :=
  let newLane := Z.max 0 (Z.min 2 laneIndex) in
  if negb (isOnCooldown p) && negb (newLane =? targetLane p)%Z then
    set_cooldown true PLAYER_LANE_CHANGE_COOLDOWN (set_targetLane newLane p)
  else p.

(** [jump()]. *)
Definition jump (p : Player) : Player :=
  if negb (isJumping p) then set_jump true 0 p else p.

(** The lane-movement block of [update]; the same text in both player
    implementations. *)
Definition lane_step (deltaTime : Q) (p : Player) : Player :=
  let targetX := LANES_at (targetLane p) in
  let moveSpeed := 25.0 in
  match num_sub targetX (x (position p)) with
  | Some difference =>
      if Qltb 0.01 (Qabs difference) then
        let moveDistance := difference * moveSpeed * deltaTime in
        if Qltb (Qabs difference) (Qabs moveDistance) then set_x targetX p
        else
          set_x (option_map (fun px => px + moveDistance) (x (position p))) p
      else set_currentLane (targetLane p) (set_x targetX p)
  | None =>
      (* the comparison on NaN is false: the snap branch *)
      set_currentLane (targetLane p) (set_x targetX p)
  end.

(** The cooldown block of [update]; [cooldownTimer -= deltaTime] is a
    subtraction of doubles. *)
Definition cooldown_step (deltaTime : Q) (p : Player) : Player :=
  if isOnCooldown p then
    let t := fl64 (cooldownTimer p - deltaTime) in
    if Qleb t 0 then set_cooldown false 0 p else set_cooldown true t p
  else p.

(** The jump block of [update]; [jumpTimer += deltaTime] is an addition of
    doubles. *)
Definition jump_step (deltaTime : Q) (p : Player) : Player :=
  if isJumping p then
    let t := fl64 (jumpTimer p + deltaTime) in
    let jumpProgress := Qmin 1 (t / jumpDuration p) in
    let apexDelta := jumpApexY p - jumpStartY p in
    let p1 :=
      set_y (jumpStartY p
             + 4 * apexDelta * (jumpProgress - jumpProgress * jumpProgress))
            (set_jump true t p) in
    if Qleb (jumpDuration p) t then
      set_bounceTimer 0 (set_y (jumpStartY p) (set_jump false t p1))
    else p1
  else p.

Section Update.

(** [Math.sin], a library function on numbers. *)
Variable Msin : Q -> Q.

(** The bounce block of [update]. *)
Definition bounce_step (deltaTime : Q) (p : Player) : Player :=
  if negb (isJumping p) then
    let t := bounceTimer p + deltaTime * bounceSpeed p in
    let bounceOffset := Msin t * bounceHeight p in
    set_y (jumpStartY p + Qabs bounceOffset) (set_bounceTimer t p)
  else p.

(** [update(deltaTime)] of player.js. *)
Definition update (deltaTime : Q) (p : Player) : Player :=
  set_z PLAYER_START_Z
    (lane_step deltaTime
       (jump_step deltaTime
          (cooldown_step deltaTime (bounce_step deltaTime p)))).

(** A run of [update] calls, first element first. *)
Definition updates (dts : list Q) (p : Player) : Player :=
  fold_left (fun q dt => update dt q) dts p.

(** The calls the game and the input handlers make on a player. *)
Inductive Call : Type :=
| CallSetTargetLane (laneIndex : Z)
| CallJump
| CallUpdate (deltaTime : Q).

Definition call (p : Player) (c : Call) : Player :=
  match c with
  | CallSetTargetLane laneIndex => setTargetLane laneIndex p
  | CallJump => jump p
  | CallUpdate deltaTime => update deltaTime p
  end.

Definition calls (cs : list Call) (p : Player) : Player :=
  fold_left call cs p.

End Update.

(** The jump block of [update] in the animated-model player: as
    [jump_step], without the bounce timer, which that class lacks. *)
Definition jump_step_model (deltaTime : Q) (p : Player) : Player :=
  if isJumping p then
    let t := fl64 (jumpTimer p + deltaTime) in
    let jumpProgress := Qmin 1 (t / jumpDuration p) in
    let apexDelta := jumpApexY p - jumpStartY p in
    let p1 :=
      set_y (jumpStartY p
             + 4 * apexDelta * (jumpProgress - jumpProgress * jumpProgress))
            (set_jump true t p) in
    if Qleb (jumpDuration p) t then
      set_y (jumpStartY p) (set_jump false t p1)
    else p1
  else p.

(** [update(deltaTime)] of the animated-model player: no bounce, and the
    height is pinned to the base when not jumping.  The bounce fields of
    the record are not used by this class. *)
Definition update_model (deltaTime : Q) (p : Player) : Player :=
  let p1 :=
    set_z PLAYER_START_Z
      (lane_step deltaTime
         (jump_step_model deltaTime (cooldown_step deltaTime p))) in
  if negb (isJumping p1) then set_y (jumpStartY p1) p1 else p1.



End Player.

(** ** ParticleManager.js

    A particle system is a [THREE.Points] object; the managers compare and
    move these objects by identity only ([indexOf], [push], [pop]).  The
    identity is the number of systems constructed before it. *)

Module ParticleManager.

Definition System : Type := nat.

Record ParticleManager : Type := {
  particleSystems : list System;   (* active systems *)
  pool : list System;              (* inactive systems for reuse *)
  created : nat                    (* systems constructed so far *)
}.

Definition new : ParticleManager :=
  {| particleSystems := []; pool := []; created := 0 |}.

(** [array.indexOf(s)] followed by [splice(index, 1)] when found. *)
Fixpoint remove_first (s : System) (l : list System) : list System :=
  match l with
  | [] => []
  | a :: r => if Nat.eqb a s then r else a :: remove_first s r
  end.

(** [getSystem(position)]. *)
Definition getSystem (pm : ParticleManager) : System * ParticleManager :=
  match pop (pool pm) with
  | Some (system, rest) =>
      (system,
       {| particleSystems := push (particleSystems pm) system;
          pool := rest; created := created pm |})
  | None =>
      let system := created pm in
      (system,
       {| particleSystems := push (particleSystems pm) system;
          pool := pool pm; created := S (created pm) |})
  end.

(** [returnSystem(system)]. *)
Definition returnSystem (system : System) (pm : ParticleManager)
  : ParticleManager :=
  {| particleSystems := remove_first system (particleSystems pm);
     pool := push (pool pm) system;
     created := created pm |}.

(** [update(deltaTime)] ages and moves the particles inside each active
    system; the lists of systems are left as they are. *)
Definition update (deltaTime : Q) (pm : ParticleManager) : ParticleManager :=
  pm.

(** The loop of [reset()]:
    [while (particleSystems.length > 0) returnSystem(particleSystems[0])],
    run for at most [fuel] iterations. *)
Fixpoint reset_loop (fuel : nat) (pm : ParticleManager) : ParticleManager :=
  match fuel with
  | O => pm
  | S n =>
      match particleSystems pm with
      | [] => pm
      | s :: _ => reset_loop n (returnSystem s pm)
      end
  end.

(** [reset()]; each iteration shortens the active list by one. *)
Definition reset (pm : ParticleManager) : ParticleManager :=
  reset_loop (length (particleSystems pm)) pm.

End ParticleManager.

(** ** lavaManager.js *)

Module LavaManager.

Definition INITIAL_SPAWN_INTERVAL : Q := 4.0.
Definition MIN_SPAWN_INTERVAL : Q := 0.9.
Definition SPAWN_INTERVAL_DECREMENT : Q := 0.25.

(** A lava mesh: [userData.lane], [position.z], [visible] and
    [userData.particleSystem] ([None] for null or undefined). *)
Record Lava : Type := {
  lane : Z;
  lava_z : Q;
  visible : bool;
  particleSystem : option ParticleManager.System
}.

Record LavaManager : Type := {
  lavaHazards : list Lava;
  pool : list Lava;
  spawnTimer : Q;
  spawnInterval : Q;
  nextSpawnZ : Q;
  particleManager : ParticleManager.ParticleManager
}.

Definition new : LavaManager :=
  {| lavaHazards := []; pool := []; spawnTimer := 0;
     spawnInterval := INITIAL_SPAWN_INTERVAL;
     nextSpawnZ := - GAME_AREA_LENGTH / 2;
     particleManager := ParticleManager.new |}.

Definition hide (lava : Lava) : Lava :=
  {| lane := lane lava; lava_z := lava_z lava; visible := false;
     particleSystem := particleSystem lava |}.

(** The body of the [forEach] in [reset()], on the hazard pool and the
    particle manager. *)
Definition reset_one
    (st : list Lava * ParticleManager.ParticleManager) (lava : Lava)
  : list Lava * ParticleManager.ParticleManager :=
  let pm :=
    match particleSystem lava with
    | Some s => ParticleManager.returnSystem s (snd st)
    | None => snd st
    end in
  (push (fst st) (hide lava), pm).

(** [reset()]. *)
Definition reset (lm : LavaManager) : LavaManager :=
  let st :=
    fold_left reset_one (lavaHazards lm) (pool lm, particleManager lm) in
  {| lavaHazards := [];
     pool := fst st;
     spawnTimer := INITIAL_SPAWN_INTERVAL * 0.75;
     spawnInterval := INITIAL_SPAWN_INTERVAL;
     nextSpawnZ := - GAME_AREA_LENGTH / 2;
     particleManager := ParticleManager.reset (snd st) |}.

(** [_createLavaMesh()]: a pooled mesh made visible, or a new one, with
    the pool that remains.  A new mesh has no lane yet; its lane is
    assigned by the caller before any use. *)
Definition _createLavaMesh (pl : list Lava) : Lava * list Lava :=
  match pop pl with
  | Some (lava, rest) =>
      ({| lane := lane lava; lava_z := lava_z lava; visible := true;
          particleSystem := particleSystem lava |}, rest)
  | None =>
      ({| lane := 0; lava_z := 0; visible := true; particleSystem := None |},
       pl)
  end.

(** [_spawnLava(targetZ)]; [random] is the value of [Math.random()]. *)
Definition _spawnLava (random : Q) (targetZ : Q) (lm : LavaManager)
  : LavaManager :=
  let (lava, rest) := _createLavaMesh (pool lm) in
  let lane := Qfloor (random * 3) in
  let (system, pm) := ParticleManager.getSystem (particleManager lm) in
  {| lavaHazards :=
       push (lavaHazards lm)
            {| lane := lane; lava_z := targetZ; visible := visible lava;
               particleSystem := Some system |};
     pool := rest;
     spawnTimer := spawnTimer lm;
     spawnInterval := spawnInterval lm;
     nextSpawnZ := nextSpawnZ lm;
     particleManager := pm |}.

(** The spawning block of [update]. *)
Definition spawn_step (random deltaTime playerZ : Q) (lm : LavaManager)
  : LavaManager :=
  let timer := spawnTimer lm + deltaTime in
  if Qleb (spawnInterval lm) timer then
    let spawnZ := playerZ - GAME_AREA_LENGTH * 0.9 in
    let lm1 := _spawnLava random spawnZ lm in
    {| lavaHazards := lavaHazards lm1; pool := pool lm1;
       spawnTimer := 0;
       spawnInterval :=
         if Qltb MIN_SPAWN_INTERVAL (spawnInterval lm1) then
           Qmax MIN_SPAWN_INTERVAL
                (spawnInterval lm1 - SPAWN_INTERVAL_DECREMENT)
         else spawnInterval lm1;
       nextSpawnZ := nextSpawnZ lm1;
       particleManager := particleManager lm1 |}
  else
    {| lavaHazards := lavaHazards lm; pool := pool lm;
       spawnTimer := timer;
       spawnInterval := spawnInterval lm;
       nextSpawnZ := nextSpawnZ lm;
       particleManager := particleManager lm |}.

(** The movement and despawning loop of [update].  The loop runs from the
    last index down, so the hazards after the head are handled first; a
    hazard that stays keeps its place, one that has passed the player is
    spliced out, hidden and pushed to the pool with its system returned. *)
Fixpoint move_step (moveZ playerZ : Q) (hazards : list Lava)
    (st : list Lava * ParticleManager.ParticleManager)
  : list Lava * (list Lava * ParticleManager.ParticleManager) :=
  match hazards with
  | [] => ([], st)
  | lava :: later =>
      let (kept, st1) := move_step moveZ playerZ later st in
      let z1 := lava_z lava + moveZ in
      if Qltb (playerZ + PLATFORM_DEPTH * 2) z1 then
        let pm :=
          match particleSystem lava with
          | Some s => ParticleManager.returnSystem s (snd st1)
          | None => snd st1
          end in
        (kept,
         (push (fst st1)
               {| lane := lane lava; lava_z := z1; visible := false;
                  particleSystem := None |},
          pm))
      else
        ({| lane := lane lava; lava_z := z1; visible := visible lava;
            particleSystem := particleSystem lava |} :: kept, st1)
  end.

(** [update(deltaTime, playerZ, currentSpeed)]. *)
Definition update (random deltaTime playerZ currentSpeed : Q)
    (lm : LavaManager) : LavaManager :=
  let lm0 :=
    {| lavaHazards := lavaHazards lm; pool := pool lm;
       spawnTimer := spawnTimer lm; spawnInterval := spawnInterval lm;
       nextSpawnZ := nextSpawnZ lm;
       particleManager :=
         ParticleManager.update deltaTime (particleManager lm) |} in
  let lm1 := spawn_step random deltaTime playerZ lm0 in
  let moveZ := currentSpeed * deltaTime in
  let '(kept, (pl, pm)) :=
    move_step moveZ playerZ (lavaHazards lm1)
              (pool lm1, particleManager lm1) in
  {| lavaHazards := kept; pool := pl;
     spawnTimer := spawnTimer lm1; spawnInterval := spawnInterval lm1;
     nextSpawnZ := nextSpawnZ lm1; particleManager := pm |}.

(** The arguments of one [update] call, with the random draw. *)
Record Tick : Type := {
  random : Q;
  deltaTime : Q;
  playerZ : Q;
  currentSpeed : Q
}.

Definition tick (lm : LavaManager) (t : Tick) : LavaManager :=
  update (random t) (deltaTime t) (playerZ t) (currentSpeed t) lm.

(** A run of [update] calls, first element first. *)
Definition updates (ticks : list Tick) (lm : LavaManager) : LavaManager :=
  fold_left tick ticks lm.

(** The calls the game makes on a lava manager. *)
Inductive Call : Type :=
| CallUpdate (t : Tick)
| CallReset.

Definition call (lm : LavaManager) (c : Call) : LavaManager :=
  match c with
  | CallUpdate t => tick lm t
  | CallReset => reset lm
  end.

Definition calls (cs : list Call) (lm : LavaManager) : LavaManager :=
  fold_left call cs lm.

Definition JUMP_CLEARANCE_HEIGHT : Q := 0.3.

(** The test made on one hazard in [checkCollision]: inside the lane, inside
    the z extent, and not cleared by a jump. *)
Definition hits (player : Player.Player) (lava : Lava) : bool :=
  let playerPosition := Player.position player in
  let laneX := LANES_at (lane lava) in
  if num_abs_ltb (num_sub (Player.x playerPosition) laneX)
                 (LANE_WIDTH / 2 * 0.9) then
    let lavaStartZ := lava_z lava - PLATFORM_DEPTH / 2 in
    let lavaEndZ := lava_z lava + PLATFORM_DEPTH / 2 in
    if Qleb lavaStartZ (Player.z playerPosition)
       && Qleb (Player.z playerPosition) lavaEndZ then
      if Player.isJumping player
         && Qltb (Player.jumpStartY player + JUMP_CLEARANCE_HEIGHT)
                 (Player.y playerPosition)
      then false
      else true
    else false
  else false.

(** The loop of [checkCollision]: [return true] at the first hazard hit,
    [continue] otherwise. *)
Fixpoint check_loop (player : Player.Player) (hazards : list Lava) : bool :=
  match hazards with
  | [] => false
  | lava :: rest => if hits player lava then true else check_loop player rest
  end.

(** [checkCollision(player)]. *)
Definition checkCollision (lm : LavaManager) (player : Player.Player) : bool :=
  check_loop player (lavaHazards lm).

End LavaManager.

(** ** game.js *)

Module Game.

Definition SCORE_RATE : Q := 10.

(** [animationId] is kept as "a frame callback is pending"; the clock is
    represented by the [deltaTime] that [clock.getDelta()] returns. *)
Record Game : Type := {
  player : Player.Player;
  lavaManager : LavaManager.LavaManager;
  running : bool;
  gameOver : bool;
  score : Q;
  currentSpeed : Q;
  animationId : bool
}.

(** [new Game(...)]. *)
Definition new : Game :=
  {| player := Player.new; lavaManager := LavaManager.new;
     running := false; gameOver := false; score := 0;
     currentSpeed := INITIAL_GAME_SPEED; animationId := false |}.

(** [_stopGameLoop()]. *)
Definition _stopGameLoop (g : Game) : Game :=
  {| player := player g; lavaManager := lavaManager g;
     running := false; gameOver := gameOver g; score := score g;
     currentSpeed := currentSpeed g; animationId := false |}.

(** [stop()]. *)
Definition stop (g : Game) : Game :=
  let g1 := _stopGameLoop g in
  {| player := player g1; lavaManager := lavaManager g1;
     running := running g1; gameOver := true; score := score g1;
     currentSpeed := currentSpeed g1; animationId := animationId g1 |}.

(** [_resetGameState()]. *)
Definition _resetGameState (g : Game) : Game :=
  {| player := Player.reset (player g);
     lavaManager := LavaManager.reset (lavaManager g);
     running := false; gameOver := false; score := 0;
     currentSpeed := INITIAL_GAME_SPEED; animationId := animationId g |}.

(** [isRunning()]. *)
Definition isRunning (g : Game) : bool := running g && negb (gameOver g).

(** Access to the player through [getPlayer()], for the input handlers. *)
Definition with_player (f : Player.Player -> Player.Player) (g : Game)
  : Game :=
  {| player := f (player g); lavaManager := lavaManager g;
     running := running g; gameOver := gameOver g; score := score g;
     currentSpeed := currentSpeed g; animationId := animationId g |}.

Section Loop.

Variable Msin : Q -> Q.

(** [_update()], one frame: [deltaTime] is the clock's delta and [random]
    the value [Math.random()] yields if a hazard is spawned.  The second
    running test of the source repeats the first with nothing in between;
    camera, light and rendering follow the collision test and write
    render state only. *)
Definition _update (deltaTime random : Q) (g : Game) : Game :=
  if negb (running g) || gameOver g then _stopGameLoop g
  else
    let speed :=
      Qmin MAX_GAME_SPEED
           (currentSpeed g + GAME_SPEED_INCREASE_RATE * deltaTime) in
    let p := Player.update Msin deltaTime (player g) in
    let lm :=
      LavaManager.update random deltaTime (Player.z (Player.position p))
                         speed (lavaManager g) in
    let sc := score g + deltaTime * SCORE_RATE in
    let hitLava := LavaManager.checkCollision lm p in
    if hitLava then
      {| player := p; lavaManager := lm; running := false;
         gameOver := true; score := sc; currentSpeed := speed;
         animationId := false |}
    else
      {| player := p; lavaManager := lm; running := running g;
         gameOver := gameOver g; score := sc; currentSpeed := speed;
         animationId := true |}.

(** The frame callback scheduled by [start()]: reset, enable, and run the
    first [_update()]. *)
Definition start_frame (deltaTime random : Q) (g : Game) : Game :=
  let g1 := _resetGameState g in
  _update deltaTime random
    {| player := player g1; lavaManager := lavaManager g1;
       running := true; gameOver := false; score := score g1;
       currentSpeed := currentSpeed g1; animationId := animationId g1 |}.

(** [start()]: stop any loop at once; the rest runs in the next frame. *)
Definition start (deltaTime random : Q) (g : Game) : Game :=
  start_frame deltaTime random (_stopGameLoop g).

(** What can happen to a game between two starts. *)
Inductive Op : Type :=
| Frame (deltaTime random : Q)     (* [_update()] *)
| Stop                             (* [stop()] *)
| SetTargetLane (laneIndex : Z)    (* [getPlayer().setTargetLane(..)] *)
| Jump.                            (* [getPlayer().jump()] *)

Definition step (g : Game) (op : Op) : Game :=
  match op with
  | Frame deltaTime random => _update deltaTime random g
  | Stop => stop g
  | SetTargetLane laneIndex => with_player (Player.setTargetLane laneIndex) g
  | Jump => with_player Player.jump g
  end.

Definition run (ops : list Op) (g : Game) : Game := fold_left step ops g.

(** What can happen to a game object over its life: [start()], with the
    delta and the random draw of its first frame, or one of the above. *)
Inductive Event : Type :=
| Start (deltaTime random : Q)
| Do (op : Op).

Definition handle (g : Game) (e : Event) : Game :=
  match e with
  | Start deltaTime random => start deltaTime random g
  | Do op => step g op
  end.

Definition life (es : list Event) (g : Game) : Game := fold_left handle es g.

End Loop.

End Game.

(** ** main.js: keyboard and pose input *)

Module Main.

Definition JUMP_DETECTION_THRESHOLD : Q := 0.06.
Definition POSE_JUMP_COOLDOWN : Q := 0.7.

(** The module-level variables. *)
Record Main : Type := {
  game : option Game.Game;
  restingShoulderY : option Q;
  poseJumpCooldownTimer : Q
}.

Definition set_game (g : Game.Game) (m : Main) : Main :=
  {| game := Some g; restingShoulderY := restingShoulderY m;
     poseJumpCooldownTimer := poseJumpCooldownTimer m |}.

Inductive Key : Type := ArrowLeft | ArrowRight | OtherKey.

(** [handleKeyDown(event)]. *)
Definition handleKeyDown (key : Key) (m : Main) : Main :=
  match game m with
  | Some g =>
      if Game.isRunning g then
        match key with
        | ArrowLeft =>
            let currentLaneLeft := Player.targetLane (Game.player g) in
            set_game
              (Game.with_player
                 (Player.setTargetLane (currentLaneLeft - 1)) g) m
        | ArrowRight =>
            let currentLaneRight := Player.targetLane (Game.player g) in
            set_game
              (Game.with_player
                 (Player.setTargetLane (currentLaneRight + 1)) g) m
        | OtherKey => m
        end
      else m
  | None => m
  end.

(** [handlePoseUpdate(normX, normShoulderY)]. *)
Definition handlePoseUpdate (normX normShoulderY : Q) (m : Main) : Main :=
  match game m with
  | Some g =>
      if Game.isRunning g then
        let player := Game.player g in
        (* horizontal lane switching *)
        let mirroredNormX := 1.0 - normX in
        let player :=
          if Qltb mirroredNormX 0.35 then Player.setTargetLane 0 player
          else if Qltb 0.65 mirroredNormX then Player.setTargetLane 2 player
          else Player.setTargetLane 1 player in
        (* vertical jump detection *)
        let timer :=
          if Qltb 0 (poseJumpCooldownTimer m)
          then poseJumpCooldownTimer m - 1 / 60
          else poseJumpCooldownTimer m in
        let resting :=
          match restingShoulderY m with
          | None =>
              if Qltb 0 normShoulderY && Qltb normShoulderY 1
              then Some normShoulderY else None
          | Some r => Some r
          end in
        match resting with
        | Some r =>
            if Qleb timer 0 then
              let yDifference := r - normShoulderY in
              if Qltb JUMP_DETECTION_THRESHOLD yDifference then
                {| game := Some (Game.with_player
                                   (fun _ => Player.jump player) g);
                   restingShoulderY :=
                     Some (normShoulderY + JUMP_DETECTION_THRESHOLD * 0.5);
                   poseJumpCooldownTimer := POSE_JUMP_COOLDOWN |}
              else if Qltb (r + JUMP_DETECTION_THRESHOLD * 0.5) normShoulderY
                      && negb (Player.isJumping player) then
                {| game := Some (Game.with_player (fun _ => player) g);
                   restingShoulderY := Some (r * 0.99 + normShoulderY * 0.01);
                   poseJumpCooldownTimer := timer |}
              else
                {| game := Some (Game.with_player (fun _ => player) g);
                   restingShoulderY := resting;
                   poseJumpCooldownTimer := timer |}
            else
              {| game := Some (Game.with_player (fun _ => player) g);
                 restingShoulderY := resting;
                 poseJumpCooldownTimer := timer |}
        | None =>
            {| game := Some (Game.with_player (fun _ => player) g);
               restingShoulderY := resting;
               poseJumpCooldownTimer := timer |}
        end
      else m
  | None => m
  end.

(** The module-level variables as initialised. *)
Definition init : Main :=
  {| game := None; restingShoulderY := None; poseJumpCooldownTimer := 0 |}.

(** [resetGameSession()]. *)
Definition resetGameSession (m : Main) : Main :=
  {| game := game m; restingShoulderY := None; poseJumpCooldownTimer := 0 |}.

Section Frames.

Variable Msin : Q -> Q.

(** One simulation tick: the animation frame runs the game's
    [_update()]; nothing else is driven by it. *)
Definition frame (deltaTime random : Q) (m : Main) : Main :=
  match game m with
  | Some g => set_game (Game._update Msin deltaTime random g) m
  | None => m
  end.

(** A run of ticks, each with its delta and random draw. *)
Definition frames (ticks : list (Q * Q)) (m : Main) : Main :=
  fold_left (fun w t => frame (fst t) (snd t) w) ticks m.

(** The start button: a new game, the session reset, then [start()]. *)
Definition startButton (deltaTime random : Q) (m : Main) : Main :=
  let m1 :=
    resetGameSession
      {| game := Some Game.new; restingShoulderY := restingShoulderY m;
         poseJumpCooldownTimer := poseJumpCooldownTimer m |} in
  set_game (Game.start Msin deltaTime random Game.new) m1.

(** The restart button, first half: the click stops the game at once. *)
Definition restartClick (m : Main) : Main :=
  match game m with
  | Some g => set_game (Game.stop g) m
  | None => m
  end.

(** The restart button, second half, run by the timeout: the session
    variables are reset and the game is started again. *)
Definition restartTimeout (deltaTime random : Q) (m : Main) : Main :=
  match game m with
  | Some g => set_game (Game.start Msin deltaTime random g) (resetGameSession m)
  | None => m
  end.

End Frames.

(** A run of pose samples, each a pair [(normX, normShoulderY)]. *)
Definition handlePoseUpdates (samples : list (Q * Q)) (m : Main) : Main :=
  fold_left (fun w xy => handlePoseUpdate (fst xy) (snd xy) w) samples m.

End Main.

(** ** ParticleManager.js: the particle buffers of one system

    The [position] and [lifetime] arrays of a system, one entry per particle.
    [Math.random()] is a stream of numbers read in call order: [rnd n] is the
    value of the call number [n], and the loops return the number of the next
    call.  The arrays are [Float32Array]s: each value is computed in doubles
    ([fl64] after every operation) and rounded to a single ([fl32]) when it
    is stored; what the code reads back is the stored single. *)

Module Particles.

Definition PARTICLE_COUNT : nat := 25.
Definition PARTICLE_LIFETIME : Q := 1.0.
Definition PARTICLE_SPEED_Y : Q := 1.5.
Definition PARTICLE_SPREAD : Q := 1.5.
(** The double that the literal 0.3 denotes. *)
Definition PARTICLE_BASE_HEIGHT : Q := fl64 0.3.

Record Particle : Type := {
  px : Q;
  py : Q;
  pz : Q;
  lifetime : Q
}.

(** The body of the initialisation loop of [_createParticleSystem] and of
    the reset loop of [getSystem]: four draws. *)
Definition spawn (rnd : nat -> Q) (n : nat) : Particle :=
  {| px := fl32 (fl64 (fl64 (rnd n - 0.5) * PARTICLE_SPREAD));
     py := fl32 (fl64 (rnd (n + 1)%nat * PARTICLE_BASE_HEIGHT));
     pz := fl32 (fl64 (fl64 (rnd (n + 2)%nat - 0.5) * PARTICLE_SPREAD));
     lifetime := fl32 (fl64 (rnd (n + 3)%nat * PARTICLE_LIFETIME)) |}.

(** The loop [for (i = 0; i < count; i++)] over fresh or recycled arrays. *)
Fixpoint spawn_loop (rnd : nat -> Q) (n : nat) (count : nat)
  : list Particle * nat :=
  match count with
  | O => ([], n)
  | S k =>
      let (rest, n') := spawn_loop rnd (n + 4)%nat k in
      (spawn rnd n :: rest, n')
  end.

(** The particles of a system from [_createParticleSystem()], and of a
    pooled one after [getSystem]. *)
Definition create (rnd : nat -> Q) (n : nat) : list Particle * nat :=
  spawn_loop rnd n PARTICLE_COUNT.

(** The body of the inner loop of [update]: age and rise, both stored; at
    the end of the lifetime, tested on the stored age, the particle starts
    again, with three draws. *)
Definition update_one (deltaTime : Q) (rnd : nat -> Q) (n : nat)
    (p : Particle) : Particle * nat :=
  let t := fl32 (fl64 (lifetime p + deltaTime)) in
  let y1 := fl32 (fl64 (py p + fl64 (PARTICLE_SPEED_Y * deltaTime))) in
  if Qleb PARTICLE_LIFETIME t then
    ({| px := fl32 (fl64 (fl64 (rnd n - 0.5) * PARTICLE_SPREAD));
        py := fl32 (fl64 (rnd (n + 1)%nat * PARTICLE_BASE_HEIGHT));
        pz := fl32 (fl64 (fl64 (rnd (n + 2)%nat - 0.5) * PARTICLE_SPREAD));
        lifetime := 0 |}, (n + 3)%nat)
  else ({| px := px p; py := y1; pz := pz p; lifetime := t |}, n).

(** The inner loop of [update(deltaTime)] over one system. *)
Fixpoint update_loop (deltaTime : Q) (rnd : nat -> Q) (n : nat)
    (ps : list Particle) : list Particle * nat :=
  match ps with
  | [] => ([], n)
  | p :: rest =>
      let (p', n1) := update_one deltaTime rnd n p in
      let (rest', n2) := update_loop deltaTime rnd n1 rest in
      (p' :: rest', n2)
  end.

End Particles.

(** ** poseTracker.js: the prediction loop

    The landmarker's result is its first pose, if any, with the four
    landmarks the loop reads; a landmark is its normalised [(x, y)]. *)

Module PoseTracker.

Record Landmarks : Type := {
  leftShoulder : option (Q * Q);    (* landmarks[11] *)
  rightShoulder : option (Q * Q);   (* landmarks[12] *)
  leftHip : option (Q * Q);         (* landmarks[23] *)
  rightHip : option (Q * Q)         (* landmarks[24] *)
}.

Record PoseTracker : Type := {
  lastVideoTime : Q;
  webcamRunning : bool
}.

(** The constructor; the webcam is not yet running. *)
Definition new : PoseTracker :=
  {| lastVideoTime := -1; webcamRunning := false |}.

(** The callback given to [detectForVideo]: the arguments passed to
    [onPoseUpdateCallback], if it is called. *)
Definition on_result (result : option Landmarks) : option (Q * Q) :=
  match result with
  | Some landmarks =>
      let midHipX :=
        match leftHip landmarks, rightHip landmarks with
        | Some l, Some r => (fst l + fst r) / 2
        | _, _ => 0.5
        end in
      let midShoulderY :=
        match leftShoulder landmarks, rightShoulder landmarks with
        | Some l, Some r => (snd l + snd r) / 2
        | _, _ => 0.5
        end in
      Some (midHipX, midShoulderY)
  | None => None
  end.

(** [_predictWebcam()]: [currentTime] is the video element's time and
    [result] what the landmarker finds in the current frame. *)
Definition _predictWebcam (currentTime : Q) (result : option Landmarks)
    (t : PoseTracker) : PoseTracker * option (Q * Q) :=
  if negb (webcamRunning t) then (t, None)
  else if negb (Qeq_bool (lastVideoTime t) currentTime) then
    ({| lastVideoTime := currentTime; webcamRunning := webcamRunning t |},
     on_result result)
  else (t, None).

(** [enableCam()] once the landmarker is loaded and camera access is
    granted. *)
Definition enableCam (t : PoseTracker) : PoseTracker :=
  {| lastVideoTime := lastVideoTime t; webcamRunning := true |}.

(** [stop()]. *)
Definition stop (t : PoseTracker) : PoseTracker :=
  {| lastVideoTime := lastVideoTime t; webcamRunning := false |}.

End PoseTracker.

(** ** Vocabulary of the statements *)

(** Simulated time of a run of ticks: the sum of its deltas. *)
Definition total (dts : list Q) : Q := fold_right Qplus 0 dts.

(** The jump timer after a run of ticks, as the code adds it up: each sum
    rounded to a double. *)
Definition accumulated (t : Q) (dts : list Q) : Q :=
  fold_left (fun s dt => fl64 (s + dt)) dts t.

(** The cooldown timer after a run of ticks, as the code counts it down. *)
Definition counted_down (t : Q) (dts : list Q) : Q :=
  fold_left (fun s dt => fl64 (s - dt)) dts t.

(** [n] ticks of the same length: the double that [dt] denotes. *)
Definition ticks (n : nat) (dt : Q) : list Q := repeat (fl64 dt) n.

(** [q] to the power [n]. *)
Fixpoint Qpow (q : Q) (n : nat) : Q :=
  match n with
  | O => 1
  | S k => q * Qpow q k
  end.

(** [q] has the constants of [p]: base height, apex, jump duration, bounce
    speed and bounce height. *)
Definition same_constants (p q : Player.Player) : Prop :=
  Player.jumpStartY q = Player.jumpStartY p /\
  Player.jumpApexY q = Player.jumpApexY p /\
  Player.jumpDuration q = Player.jumpDuration p /\
  Player.bounceSpeed q = Player.bounceSpeed p /\
  Player.bounceHeight q = Player.bounceHeight p.

(** To run the model on concrete inputs a sine must be supplied.  It only
    shapes the idle bounce; the sample runs use the flat one. *)
Definition flat_sine (t : Q) : Q := 0.

(** The one-tick window of the lane movement, for an [update] function
    [upd]: a step that would overshoot puts the player on the target lane's x
    and leaves [currentLane] as it was; the following call of [upd], whatever
    its delta, makes [currentLane] the target lane. *)
Definition snap_window (upd : Q -> Player.Player -> Player.Player) : Prop :=
  forall (dt : Q) (p : Player.Player) (targetX px : Q),
    LANES_at (Player.targetLane p) = Some targetX ->
    Player.x (Player.position p) = Some px ->
    0.01 < Qabs (targetX - px) ->
    Qabs (targetX - px) < Qabs ((targetX - px) * 25.0 * dt) ->
    let q := upd dt p in
    Player.x (Player.position q) = Some targetX /\
    Player.currentLane q = Player.currentLane p /\
    Player.targetLane q = Player.targetLane p /\
    forall dt' : Q,
      Player.currentLane (upd dt' q) = Player.targetLane p /\
      Player.x (Player.position (upd dt' q)) = Some targetX.


Definition z_overlap (player : Player.Player) (lava : LavaManager.Lava)
  : Prop :=
  LavaManager.lava_z lava - PLATFORM_DEPTH / 2
    <= Player.z (Player.position player) /\
  Player.z (Player.position player)
    <= LavaManager.lava_z lava + PLATFORM_DEPTH / 2.


(** A lava manager whose only active hazard lies in lane 2 around the
    player's z; its particle system is the first one constructed. *)
Definition lava_in_lane_2 : LavaManager.LavaManager :=
  {| LavaManager.lavaHazards :=
       [ {| LavaManager.lane := 2; LavaManager.lava_z := 2.0;
            LavaManager.visible := true;
            LavaManager.particleSystem := Some 0%nat |} ];
     LavaManager.pool := [];
     LavaManager.spawnTimer := 0;
     LavaManager.spawnInterval := 3.75;
     LavaManager.nextSpawnZ := - GAME_AREA_LENGTH / 2;
     LavaManager.particleManager :=
       {| ParticleManager.particleSystems := [0%nat];
          ParticleManager.pool := [];
          ParticleManager.created := 1 |} |}.


(** Every active hazard owns one active particle system and every active
    system is owned: the systems of the active hazards, in order, are the
    active systems; no system occurs twice among the active and the pooled
    ones; and these are exactly the systems constructed so far. *)
Definition systems_owned (lm : LavaManager.LavaManager) : Prop :=
  let pm := LavaManager.particleManager lm in
  map LavaManager.particleSystem (LavaManager.lavaHazards lm)
  = map Some (ParticleManager.particleSystems pm) /\
  NoDup (ParticleManager.particleSystems pm ++ ParticleManager.pool pm) /\
  forall s : ParticleManager.System,
    In s (ParticleManager.particleSystems pm ++ ParticleManager.pool pm)
    <-> (s < ParticleManager.created pm)%nat.

(** The random draw of a call is a value of [Math.random()]: in [0, 1). *)
Definition draw_ok (c : LavaManager.Call) : Prop :=
  match c with
  | LavaManager.CallUpdate t =>
      0 <= LavaManager.random t /\ LavaManager.random t < 1
  | LavaManager.CallReset => True
  end.

(** Active hazards are shown, pooled meshes are hidden. *)
Definition shown_or_pooled (lm : LavaManager.LavaManager) : Prop :=
  Forall (fun h => LavaManager.visible h = true)
         (LavaManager.lavaHazards lm) /\
  Forall (fun h => LavaManager.visible h = false) (LavaManager.pool lm).

(** The clock delta an event of a game's life brings, if any. *)
Definition delta_of (e : Game.Event) : Q :=
  match e with
  | Game.Start deltaTime _ => deltaTime
  | Game.Do (Game.Frame deltaTime _) => deltaTime
  | Game.Do _ => 0
  end.



(** Every draw of the stream is a value of [Math.random()]: in [0, 1). *)
Definition draws_in_range (rnd : nat -> Q) : Prop :=
  forall k : nat, 0 <= rnd k /\ rnd k < 1.

(** A particle within its lifetime, within half the spread of the
    system's origin in x and z, and not below it. *)
Definition particle_ok (p : Particles.Particle) : Prop :=
  0 <= Particles.lifetime p /\
  Particles.lifetime p <= Particles.PARTICLE_LIFETIME /\
  Qabs (Particles.px p) <= Particles.PARTICLE_SPREAD / 2 /\
  Qabs (Particles.pz p) <= Particles.PARTICLE_SPREAD / 2 /\
  0 <= Particles.py p.

(** A particle that has just started: no higher than the base height, as a
    single. *)
Definition particle_low (p : Particles.Particle) : Prop :=
  Particles.py p <= fl32 Particles.PARTICLE_BASE_HEIGHT.

(** A lava manager with the active hazards [hazards] and nothing else. *)
Definition lava_with (hazards : list LavaManager.Lava)
  : LavaManager.LavaManager :=
  {| LavaManager.lavaHazards := hazards;
     LavaManager.pool := [];
     LavaManager.spawnTimer := 0;
     LavaManager.spawnInterval := LavaManager.INITIAL_SPAWN_INTERVAL;
     LavaManager.nextSpawnZ := - GAME_AREA_LENGTH / 2;
     LavaManager.particleManager := ParticleManager.new |}.

(** A hazard in lane [lane] at [z]. *)
Definition lava_at (lane : Z) (z : Q) : LavaManager.Lava :=
  {| LavaManager.lane := lane; LavaManager.lava_z := z;
     LavaManager.visible := true; LavaManager.particleSystem := None |}.

(** A session as it stands after [start()] ran its first frame with a zero
    delta, and the same session one second later, when the first hazard has
    been spawned. *)
Definition fresh_session : Game.Game :=
  Game.start flat_sine 0 0.5 Game.new.

Definition session_with_hazard : Game.Game :=
  Game._update flat_sine 1 0.5 fresh_session.

(** Six more seconds: the first hazard, in the player's lane, is now 8.7
    in front of the player. *)
Definition session_before_impact : Game.Game :=
  Game.run flat_sine
    [Game.Frame 1 0.5; Game.Frame 1 0.5; Game.Frame 1 0.5;
     Game.Frame 1 0.5; Game.Frame 1 0.5; Game.Frame 1 0.5]
    session_with_hazard.

(** The page after the start button and two pose samples: the first one
    sets the resting shoulder height 0.5, the second one, at 0.4, is a jump
    and starts the pose-jump cooldown. *)
Definition page_after_pose_jump : Main.Main :=
  Main.handlePoseUpdate 0.5 0.4
    (Main.handlePoseUpdate 0.5 0.5
       (Main.startButton flat_sine 0 0.5 Main.init)).

(** * Properties *)

(** Case analysis on every conditional of the goal. *)
Ltac split_ifs :=
  repeat match goal with
         | |- context [if ?c then _ else _] => destruct c
         end.

(** Inequalities and equalities between closed numbers, by evaluation. *)
Ltac by_evaluation := vm_compute; first [reflexivity | discriminate].

(** ** Comparisons *)

Lemma Qleb_true (a b : Q) : Qleb a b = true <-> a <= b.
Proof. unfold Qleb. apply Qle_bool_iff. Qed.

Lemma Qleb_false (a b : Q) : Qleb a b = false <-> b < a.
Proof.
  unfold Qleb. rewrite <- not_true_iff_false, Qle_bool_iff.
  split; intro H; lra.
Qed.

Lemma Qltb_true (a b : Q) : Qltb a b = true <-> a < b.
Proof.
  unfold Qltb. rewrite negb_true_iff, <- not_true_iff_false, Qle_bool_iff.
  split; intro H; lra.
Qed.

Lemma Qltb_false (a b : Q) : Qltb a b = false <-> b <= a.
Proof. unfold Qltb. rewrite negb_false_iff. apply Qle_bool_iff. Qed.

(** ** Rounding *)

Module Rounding.

Lemma rne_cases (q : Q) :
  (rne q = Qfloor q /\ q - inject_Z (Qfloor q) <= 1 # 2) \/
  (rne q = (Qfloor q + 1)%Z /\ 1 # 2 <= q - inject_Z (Qfloor q)).
Proof.
  unfold rne. cbv zeta.
  destruct (Qcompare (q - inject_Z (Qfloor q)) (1 # 2)) eqn:E.
  - apply Qeq_alt in E.
    destruct (Z.even (Qfloor q)); [left | right]; split; try reflexivity;
      rewrite E; apply Qle_refl.
  - apply Qlt_alt in E. left. split; [reflexivity | now apply Qlt_le_weak].
  - apply Qgt_alt in E. right. split; [reflexivity | now apply Qlt_le_weak].
Qed.

Lemma rne_inject (z : Z) : rne (inject_Z z) = z.
Proof.
  unfold rne. cbv zeta. rewrite Qfloor_Z.
  assert (E : Qcompare (inject_Z z - inject_Z z) (1 # 2) = Lt).
  { apply Qlt_alt. setoid_replace (inject_Z z - inject_Z z) with 0 by ring.
    reflexivity. }
  now rewrite E.
Qed.

Lemma rne_mono (x y : Q) : x <= y -> (rne x <= rne y)%Z.
Proof.
  intro Hxy. pose proof (Qfloor_resp_le x y Hxy) as Hf.
  destruct (Z.eq_dec (Qfloor x) (Qfloor y)) as [E | E].
  - unfold rne. cbv zeta. rewrite <- E.
    destruct (Qcompare (x - inject_Z (Qfloor x)) (1 # 2)) eqn:Ex;
      destruct (Qcompare (y - inject_Z (Qfloor x)) (1 # 2)) eqn:Ey;
      try (destruct (Z.even (Qfloor x)); lia); exfalso;
      first [apply Qeq_alt in Ex | apply Qlt_alt in Ex | apply Qgt_alt in Ex];
      first [apply Qeq_alt in Ey | apply Qlt_alt in Ey | apply Qgt_alt in Ey];
      lra.
  - destruct (rne_cases x) as [(-> & _) | (-> & _)];
      destruct (rne_cases y) as [(-> & _) | (-> & _)]; lia.
Qed.

Lemma rne_nonneg (x : Q) : 0 <= x -> (0 <= rne x)%Z.
Proof. intro H. rewrite <- (rne_inject 0). now apply rne_mono. Qed.

(** *** Powers of two *)

Lemma pow2_pos (e : Z) : 0 < 2 ^ e.
Proof. now apply Qpower_0_lt. Qed.

Lemma pow2_le (a b : Z) : (a <= b)%Z -> 2 ^ a <= 2 ^ b.
Proof. intro H. apply Qpower_le_compat_l; [exact H | discriminate]. Qed.

Lemma pow2_lt (a b : Z) : (a < b)%Z -> 2 ^ a < 2 ^ b.
Proof. intro H. apply Qpower_lt_compat_l; [exact H | reflexivity]. Qed.

Lemma pow2_inject (n : Z) : (0 <= n)%Z -> 2 ^ n == inject_Z (2 ^ n).
Proof. intro H. now rewrite Zpower_Qpower. Qed.

Lemma pow2_div (a b : Z) : 2 ^ a / 2 ^ b == 2 ^ (a - b).
Proof. rewrite Qpower_minus; [reflexivity | discriminate]. Qed.

(** *** The binade of a positive number *)

Lemma Qdiv_lt_cross (n d a b : Q) :
  0 < d -> 0 < b -> n * b < a * d -> n / d < a / b.
Proof.
  intros Hd Hb H. apply Qlt_shift_div_r; [exact Hd |].
  setoid_replace (a / b * d) with (a * d / b) by (field; lra).
  now apply Qlt_shift_div_l.
Qed.

Lemma ilog2_spec (q : Q) :
  0 < q -> 2 ^ ilog2 q <= q /\ q < 2 ^ (ilog2 q + 1).
Proof.
  intro Hq. destruct q as [n d]. unfold ilog2. cbn [Qnum Qden].
  assert (Hn : (0 < n)%Z).
  { unfold Qlt in Hq. cbn in Hq. lia. }
  set (a := Z.log2 n). set (b := Z.log2 (Z.pos d)).
  destruct (Z.log2_spec n Hn) as (Na & Nb). fold a in Na, Nb.
  destruct (Z.log2_spec (Z.pos d) ltac:(lia)) as (Da & Db). fold b in Da, Db.
  assert (Ha : (0 <= a)%Z) by apply Z.log2_nonneg.
  assert (Hb : (0 <= b)%Z) by apply Z.log2_nonneg.
  assert (QNa : 2 ^ a <= inject_Z n).
  { rewrite pow2_inject by exact Ha. now rewrite <- Zle_Qle. }
  assert (QNb : inject_Z n < 2 ^ (a + 1)).
  { rewrite pow2_inject by lia. rewrite <- Zlt_Qlt.
    now replace (a + 1)%Z with (Z.succ a) by lia. }
  assert (QDa : 2 ^ b <= inject_Z (Z.pos d)).
  { rewrite pow2_inject by exact Hb. now rewrite <- Zle_Qle. }
  assert (QDb : inject_Z (Z.pos d) < 2 ^ (b + 1)).
  { rewrite pow2_inject by lia. rewrite <- Zlt_Qlt.
    now replace (b + 1)%Z with (Z.succ b) by lia. }
  assert (Hq' : n # d == inject_Z n / inject_Z (Z.pos d)) by apply Qmake_Qdiv.
  pose proof (pow2_pos a) as Pa. pose proof (pow2_pos b) as Pb.
  pose proof (pow2_pos (a + 1)) as Pa1. pose proof (pow2_pos (b + 1)) as Pb1.
  assert (Dpos : 0 < inject_Z (Z.pos d)) by lra.
  assert (Hup : n # d < 2 ^ (a - b + 1)).
  { rewrite Hq'. replace (a - b + 1)%Z with (a + 1 - b)%Z by lia.
    rewrite <- pow2_div. apply Qdiv_lt_cross; [exact Dpos | exact Pb | nra]. }
  assert (Hlo : 2 ^ (a - b - 1) < n # d).
  { rewrite Hq'. replace (a - b - 1)%Z with (a - (b + 1))%Z by lia.
    rewrite <- pow2_div. apply Qdiv_lt_cross; [exact Pb1 | exact Dpos | nra]. }
  destruct (Qleb (2 ^ (a - b)) (n # d)) eqn:E.
  - apply Qleb_true in E. split; assumption.
  - apply Qleb_false in E. split; [now apply Qlt_le_weak |].
    now replace (a - b - 1 + 1)%Z with (a - b)%Z by lia.
Qed.

Lemma ilog2_mono (x y : Q) : 0 < x -> x <= y -> (ilog2 x <= ilog2 y)%Z.
Proof.
  intros Hx Hxy.
  destruct (ilog2_spec x Hx) as (Xa & _).
  destruct (ilog2_spec y ltac:(lra)) as (_ & Yb).
  destruct (Z_le_gt_dec (ilog2 x) (ilog2 y)) as [H | H]; [exact H | exfalso].
  pose proof (pow2_le (ilog2 y + 1) (ilog2 x) ltac:(lia)). lra.
Qed.

(** *** Rounding is monotone and keeps the sign *)

Lemma round_pos_nonneg (prec emin : Z) (q : Q) :
  0 <= q -> 0 <= round_pos prec emin q.
Proof.
  intro Hq. unfold round_pos. cbv zeta.
  set (e := Z.max emin (ilog2 q - (prec - 1))).
  pose proof (pow2_pos e) as Pe.
  apply Qmult_le_0_compat; [| lra].
  change 0 with (inject_Z 0). rewrite <- Zle_Qle. apply rne_nonneg.
  apply Qle_shift_div_l; [exact Pe | lra].
Qed.

(** A multiple of the quantum is a bound for the rounded number when it is
    one for the number. *)
Lemma round_at_le (e n : Z) (q : Q) :
  (0 <= n)%Z -> q <= 2 ^ (e + n) ->
  inject_Z (rne (q / 2 ^ e)) * 2 ^ e <= 2 ^ (e + n).
Proof.
  intros Hn Hq. pose proof (pow2_pos e) as Pe.
  assert (Hz : (rne (q / 2 ^ e) <= 2 ^ n)%Z).
  { rewrite <- (rne_inject (2 ^ n)). apply rne_mono.
    rewrite <- pow2_inject by exact Hn.
    apply Qle_shift_div_r; [exact Pe |].
    rewrite <- Qpower_plus by discriminate.
    now replace (n + e)%Z with (e + n)%Z by lia. }
  rewrite Zle_Qle in Hz. rewrite <- pow2_inject in Hz by exact Hn.
  rewrite Qpower_plus by discriminate.
  rewrite (Qmult_comm (2 ^ e)). apply Qmult_le_compat_r; [exact Hz | lra].
Qed.

Lemma round_at_ge (e n : Z) (q : Q) :
  (0 <= n)%Z -> 2 ^ (e + n) <= q ->
  2 ^ (e + n) <= inject_Z (rne (q / 2 ^ e)) * 2 ^ e.
Proof.
  intros Hn Hq. pose proof (pow2_pos e) as Pe.
  assert (Hz : (2 ^ n <= rne (q / 2 ^ e))%Z).
  { rewrite <- (rne_inject (2 ^ n)) at 1. apply rne_mono.
    rewrite <- pow2_inject by exact Hn.
    apply Qle_shift_div_l; [exact Pe |].
    rewrite <- Qpower_plus by discriminate.
    now replace (n + e)%Z with (e + n)%Z by lia. }
  rewrite Zle_Qle in Hz. rewrite <- pow2_inject in Hz by exact Hn.
  rewrite Qpower_plus by discriminate.
  rewrite (Qmult_comm (2 ^ e)). apply Qmult_le_compat_r; [exact Hz | lra].
Qed.

Lemma round_pos_mono (prec emin : Z) (x y : Q) :
  (1 <= prec)%Z -> 0 < x -> x <= y ->
  round_pos prec emin x <= round_pos prec emin y.
Proof.
  intros Hp Hx Hxy. assert (Hy : 0 < y) by lra.
  pose proof (ilog2_mono x y Hx Hxy) as Hl.
  destruct (ilog2_spec x Hx) as (_ & Xb).
  destruct (ilog2_spec y Hy) as (Ya & _).
  unfold round_pos. cbv zeta.
  set (ex := Z.max emin (ilog2 x - (prec - 1))).
  set (ey := Z.max emin (ilog2 y - (prec - 1))).
  assert (Hexy : (ex <= ey)%Z) by (subst ex ey; lia).
  destruct (Z.eq_dec ex ey) as [E | E].
  - rewrite <- E. pose proof (pow2_pos ex) as Pe.
    apply Qmult_le_compat_r; [| lra].
    rewrite <- Zle_Qle. apply rne_mono.
    apply Qmult_le_compat_r; [exact Hxy |].
    apply Qlt_le_weak. now apply Qinv_lt_0_compat.
  - assert (Hey : ey = (ilog2 y - (prec - 1))%Z) by (subst ex ey; lia).
    assert (Hlx : (ilog2 x + 1 <= ilog2 y)%Z) by (subst ex ey; lia).
    apply Qle_trans with (2 ^ ilog2 y).
    + replace (ilog2 y) with (ex + (ilog2 y - ex))%Z by lia.
      apply round_at_le; [subst ex ey; lia |].
      replace (ex + (ilog2 y - ex))%Z with (ilog2 y) by lia.
      pose proof (pow2_le (ilog2 x + 1) (ilog2 y) Hlx). lra.
    + replace (ilog2 y) with (ey + (prec - 1))%Z at 1 by lia.
      apply round_at_ge; [lia |].
      now replace (ey + (prec - 1))%Z with (ilog2 y) by lia.
Qed.

Lemma round_nonneg (prec emin : Z) (q : Q) :
  0 <= q -> 0 <= round prec emin q.
Proof.
  intro Hq. unfold round.
  destruct (Qltb 0 q) eqn:E; [now apply round_pos_nonneg |].
  destruct (Qltb q 0) eqn:E'; [| apply Qle_refl].
  apply Qltb_true in E'. lra.
Qed.

Lemma round_nonpos (prec emin : Z) (q : Q) :
  q <= 0 -> round prec emin q <= 0.
Proof.
  intro Hq. unfold round.
  destruct (Qltb 0 q) eqn:E; [apply Qltb_true in E; lra |].
  destruct (Qltb q 0) eqn:E'; [| apply Qle_refl].
  pose proof (round_pos_nonneg prec emin (- q) ltac:(lra)). lra.
Qed.

Lemma round_mono (prec emin : Z) (x y : Q) :
  (1 <= prec)%Z -> x <= y -> round prec emin x <= round prec emin y.
Proof.
  intros Hp Hxy.
  destruct (Qlt_le_dec 0 x) as [Hx | Hx].
  - unfold round. assert (Hy : 0 < y) by lra.
    apply Qltb_true in Hx, Hy. rewrite Hx, Hy. apply Qltb_true in Hx.
    now apply round_pos_mono.
  - destruct (Qlt_le_dec y 0) as [Hy | Hy].
    + unfold round.
      assert (Ex : Qltb 0 x = false) by (apply Qltb_false; lra).
      assert (Ey : Qltb 0 y = false) by (apply Qltb_false; lra).
      assert (Ex' : Qltb x 0 = true) by (apply Qltb_true; lra).
      assert (Ey' : Qltb y 0 = true) by (apply Qltb_true; lra).
      rewrite Ex, Ey, Ex', Ey'.
      pose proof (round_pos_mono prec emin (- y) (- x) Hp ltac:(lra) ltac:(lra)).
      lra.
    + apply Qle_trans with 0; [now apply round_nonpos | now apply round_nonneg].
Qed.

Lemma fl64_mono (x y : Q) : x <= y -> fl64 x <= fl64 y.
Proof.
  intro H. unfold fl64. rewrite !Qred_correct. now apply round_mono.
Qed.

Lemma fl32_mono (x y : Q) : x <= y -> fl32 x <= fl32 y.
Proof.
  intro H. unfold fl32. rewrite !Qred_correct. now apply round_mono.
Qed.

Lemma fl64_nonneg (x : Q) : 0 <= x -> 0 <= fl64 x.
Proof. intro H. unfold fl64. rewrite Qred_correct. now apply round_nonneg. Qed.

Lemma fl32_nonneg (x : Q) : 0 <= x -> 0 <= fl32 x.
Proof. intro H. unfold fl32. rewrite Qred_correct. now apply round_nonneg. Qed.

(** Numbers that rounding leaves as they are. *)
Lemma doubles_kept :
  fl64 0 == 0 /\ fl64 (1 # 2) == 1 # 2 /\ fl64 (- (1 # 2)) == - (1 # 2) /\
  fl64 (3 # 4) == 3 # 4 /\ fl64 (- (3 # 4)) == - (3 # 4) /\ fl64 1 == 1.
Proof.
  split; [by_evaluation |]. split; [by_evaluation |].
  split; [by_evaluation |]. split; [by_evaluation |].
  split; by_evaluation.
Qed.

Lemma singles_kept :
  fl32 0 == 0 /\ fl32 (3 # 4) == 3 # 4 /\ fl32 (- (3 # 4)) == - (3 # 4) /\
  fl32 1 == 1.
Proof.
  split; [by_evaluation |]. split; [by_evaluation |].
  split; by_evaluation.
Qed.

End Rounding.

Lemma LANES_at_defined (i : Z) :
  (0 <= i <= 2)%Z -> exists v, LANES_at i = Some v.
Proof.
  intro H.
  assert (Hc : i = 0%Z \/ i = 1%Z \/ i = 2%Z) by lia.
  destruct Hc as [-> | [-> | ->]]; eexists; reflexivity.
Qed.

(** ** The player *)

Module PlayerSpec.

Import Player.

Section PlayerFacts.

Variable Msin : Q -> Q.

Lemma updates_app (l1 l2 : list Q) (p : Player) :
  updates Msin (l1 ++ l2) p = updates Msin l2 (updates Msin l1 p).
Proof. unfold updates. apply fold_left_app. Qed.

(** *** What each block of [update] leaves alone *)

Lemma bounce_step_jumping (dt : Q) (p : Player) :
  isJumping p = true -> bounce_step Msin dt p = p.
Proof. intro H. unfold bounce_step. now rewrite H. Qed.

Lemma bounce_step_lanes (dt : Q) (p : Player) :
  let q := bounce_step Msin dt p in
  targetLane q = targetLane p /\ currentLane q = currentLane p /\
  x (position q) = x (position p) /\ isJumping q = isJumping p /\
  isOnCooldown q = isOnCooldown p /\ cooldownTimer q = cooldownTimer p.
Proof.
  cbv zeta. unfold bounce_step.
  destruct (isJumping p) eqn:E; cbn; rewrite ?E; auto 10.
Qed.

Lemma cooldown_step_rest (dt : Q) (p : Player) :
  let q := cooldown_step dt p in
  position q = position p /\ targetLane q = targetLane p /\
  currentLane q = currentLane p /\ isJumping q = isJumping p /\
  jumpTimer q = jumpTimer p /\ jumpStartY q = jumpStartY p /\
  jumpApexY q = jumpApexY p /\ jumpDuration q = jumpDuration p.
Proof.
  cbv zeta. unfold cooldown_step.
  destruct (isOnCooldown p) eqn:E; cbn; [| auto 10].
  destruct (Qleb (fl64 (cooldownTimer p - dt)) 0); cbn; auto 10.
Qed.

Lemma jump_step_lanes (dt : Q) (p : Player) :
  let q := jump_step dt p in
  targetLane q = targetLane p /\ currentLane q = currentLane p /\
  x (position q) = x (position p) /\ jumpStartY q = jumpStartY p /\
  jumpDuration q = jumpDuration p.
Proof.
  cbv zeta. unfold jump_step. destruct (isJumping p) eqn:E; cbn; [| auto].
  destruct (Qleb (jumpDuration p) (fl64 (jumpTimer p + dt))); cbn; auto.
Qed.

Lemma jump_step_model_lanes (dt : Q) (p : Player) :
  let q := jump_step_model dt p in
  targetLane q = targetLane p /\ currentLane q = currentLane p /\
  x (position q) = x (position p).
Proof.
  cbv zeta. unfold jump_step_model.
  destruct (isJumping p) eqn:E; cbn; [| auto].
  destruct (Qleb (jumpDuration p) (fl64 (jumpTimer p + dt))); cbn; auto.
Qed.

Lemma lane_step_jump (dt : Q) (p : Player) :
  let q := lane_step dt p in
  isJumping q = isJumping p /\ jumpTimer q = jumpTimer p /\
  y (position q) = y (position p) /\ jumpStartY q = jumpStartY p /\
  jumpDuration q = jumpDuration p /\ targetLane q = targetLane p.
Proof.
  cbv zeta. unfold lane_step.
  destruct (num_sub (LANES_at (targetLane p)) (x (position p))) as [d |];
    cbv zeta; split_ifs; cbn; auto 10.
Qed.

Lemma update_targetLane (dt : Q) (p : Player) :
  targetLane (update Msin dt p) = targetLane p.
Proof.
  unfold update. cbn.
  destruct (lane_step_jump dt
              (jump_step dt (cooldown_step dt (bounce_step Msin dt p))))
    as (_ & _ & _ & _ & _ & ->).
  destruct (jump_step_lanes dt (cooldown_step dt (bounce_step Msin dt p)))
    as (-> & _).
  destruct (cooldown_step_rest dt (bounce_step Msin dt p)) as (_ & -> & _).
  now destruct (bounce_step_lanes dt p) as (-> & _).
Qed.

Lemma call_targetLane_range (p : Player) (c : Call) :
  (0 <= targetLane p <= 2)%Z -> (0 <= targetLane (call Msin p c) <= 2)%Z.
Proof.
  intro H. destruct c as [l | | dt]; cbn [call].
  - unfold setTargetLane.
    destruct (negb (isOnCooldown p) && negb (_ =? _)%Z); cbn; lia.
  - unfold jump. destruct (negb (isJumping p)); cbn; lia.
  - now rewrite update_targetLane.
Qed.

Lemma lane_step_cooldown (dt : Q) (p : Player) :
  isOnCooldown (lane_step dt p) = isOnCooldown p /\
  cooldownTimer (lane_step dt p) = cooldownTimer p.
Proof.
  unfold lane_step.
  destruct (num_sub (LANES_at (targetLane p)) (x (position p))) as [d |];
    cbv zeta; split_ifs; cbn; auto.
Qed.

Lemma jump_step_cooldown (dt : Q) (p : Player) :
  isOnCooldown (jump_step dt p) = isOnCooldown p /\
  cooldownTimer (jump_step dt p) = cooldownTimer p.
Proof.
  unfold jump_step. destruct (isJumping p); cbn; [| auto].
  destruct (Qleb (jumpDuration p) (fl64 (jumpTimer p + dt))); cbn; auto.
Qed.

(** The cooldown flag and timer after [update] are those the cooldown
    block computes from the flag and timer before. *)
Lemma update_cooldown (dt : Q) (p : Player) :
  isOnCooldown (update Msin dt p) = isOnCooldown (cooldown_step dt p) /\
  cooldownTimer (update Msin dt p) = cooldownTimer (cooldown_step dt p).
Proof.
  unfold update. cbn [set_z set_position isOnCooldown cooldownTimer].
  destruct (lane_step_cooldown dt
              (jump_step dt (cooldown_step dt (bounce_step Msin dt p))))
    as (-> & ->).
  destruct (jump_step_cooldown dt (cooldown_step dt (bounce_step Msin dt p)))
    as (-> & ->).
  destruct (bounce_step_lanes dt p) as (_ & _ & _ & _ & Hc & Ht).
  unfold cooldown_step. rewrite Hc, Ht.
  destruct (isOnCooldown p) eqn:Ec; [| rewrite Ec; auto].
  destruct (Qleb (fl64 (cooldownTimer p - dt)) 0); cbn; auto.
Qed.

(** The flag [isOnCooldown] is set exactly while the timer is positive. *)
Lemma call_cooldown_flag (p : Player) (c : Call) :
  (isOnCooldown p = true <-> 0 < cooldownTimer p) ->
  (isOnCooldown (call Msin p c) = true <-> 0 < cooldownTimer (call Msin p c)).
Proof.
  intro Hinv. destruct c as [l | | dt]; cbn [call].
  - unfold setTargetLane.
    destruct (negb (isOnCooldown p) && negb (_ =? _)%Z); [| exact Hinv].
    cbn. split; [intros _; reflexivity | reflexivity].
  - unfold jump. destruct (negb (isJumping p)); cbn; exact Hinv.
  - destruct (update_cooldown dt p) as (-> & ->).
    unfold cooldown_step.
    destruct (isOnCooldown p) eqn:Ec; [| rewrite Ec; exact Hinv].
    destruct (Qleb (fl64 (cooldownTimer p - dt)) 0) eqn:Et; cbn.
    + split; [discriminate | intro H; exfalso; revert H; apply Qlt_irrefl].
    + apply Qleb_false in Et. split; [intros _; exact Et | reflexivity].
Qed.

Lemma setTargetLane_on_cooldown (laneIndex : Z) (p : Player) :
  isOnCooldown p = true -> setTargetLane laneIndex p = p.
Proof. intro H. unfold setTargetLane. now rewrite H. Qed.

Lemma setTargetLane_changes (laneIndex : Z) (p : Player) :
  isOnCooldown p = false ->
  Z.max 0 (Z.min 2 laneIndex) <> targetLane p ->
  setTargetLane laneIndex p =
  set_cooldown true PLAYER_LANE_CHANGE_COOLDOWN
    (set_targetLane (Z.max 0 (Z.min 2 laneIndex)) p).
Proof.
  intros Hcd Hne. unfold setTargetLane. rewrite Hcd.
  destruct (Z.eqb_spec (Z.max 0 (Z.min 2 laneIndex)) (targetLane p));
    [contradiction | reflexivity].
Qed.

(** *** Lane movement *)

Lemma lane_step_overshoot (dt : Q) (p : Player) (targetX px : Q) :
  LANES_at (targetLane p) = Some targetX ->
  x (position p) = Some px ->
  0.01 < Qabs (targetX - px) ->
  Qabs (targetX - px) < Qabs ((targetX - px) * 25.0 * dt) ->
  x (position (lane_step dt p)) = Some targetX /\
  currentLane (lane_step dt p) = currentLane p /\
  targetLane (lane_step dt p) = targetLane p.
Proof.
  intros Ht Hx Hfar Hover. unfold lane_step. rewrite Ht, Hx.
  unfold num_sub. cbv zeta.
  apply Qltb_true in Hfar. rewrite Hfar.
  apply Qltb_true in Hover. rewrite Hover. cbn. auto.
Qed.

Lemma lane_step_arrived (dt : Q) (p : Player) (targetX : Q) :
  LANES_at (targetLane p) = Some targetX ->
  x (position p) = Some targetX ->
  x (position (lane_step dt p)) = Some targetX /\
  currentLane (lane_step dt p) = targetLane p /\
  targetLane (lane_step dt p) = targetLane p.
Proof.
  intros Ht Hx. unfold lane_step. rewrite Ht, Hx.
  unfold num_sub. cbv zeta.
  assert (Hnear : Qltb 0.01 (Qabs (targetX - targetX)) = false).
  { apply Qltb_false.
    assert (Hz : targetX - targetX == 0) by ring.
    rewrite Hz. cbn. lra. }
  rewrite Hnear. cbn. auto.
Qed.

(** The blocks before the lane movement do not touch the lanes or x. *)
Lemma before_lane_step (dt : Q) (p : Player) :
  let q := jump_step dt (cooldown_step dt (bounce_step Msin dt p)) in
  targetLane q = targetLane p /\ currentLane q = currentLane p /\
  x (position q) = x (position p).
Proof.
  cbv zeta.
  destruct (jump_step_lanes dt (cooldown_step dt (bounce_step Msin dt p)))
    as (-> & -> & -> & _).
  destruct (cooldown_step_rest dt (bounce_step Msin dt p))
    as (-> & -> & -> & _).
  destruct (bounce_step_lanes dt p) as (-> & -> & -> & _). auto.
Qed.

Lemma before_lane_step_model (dt : Q) (p : Player) :
  let q := jump_step_model dt (cooldown_step dt p) in
  targetLane q = targetLane p /\ currentLane q = currentLane p /\
  x (position q) = x (position p).
Proof.
  cbv zeta.
  destruct (jump_step_model_lanes dt (cooldown_step dt p))
    as (-> & -> & ->).
  destruct (cooldown_step_rest dt p) as (-> & -> & -> & _). auto.
Qed.

Lemma update_lanes (dt : Q) (p : Player) :
  let r := lane_step dt
             (jump_step dt (cooldown_step dt (bounce_step Msin dt p))) in
  x (position (update Msin dt p)) = x (position r) /\
  currentLane (update Msin dt p) = currentLane r /\
  targetLane (update Msin dt p) = targetLane r.
Proof. cbv zeta. unfold update. cbn. auto. Qed.

Lemma update_model_lanes (dt : Q) (p : Player) :
  let r := lane_step dt (jump_step_model dt (cooldown_step dt p)) in
  x (position (update_model dt p)) = x (position r) /\
  currentLane (update_model dt p) = currentLane r /\
  targetLane (update_model dt p) = targetLane r.
Proof.
  cbv zeta. unfold update_model. cbv zeta.
  match goal with
  | |- context [if ?c then _ else _] => destruct c
  end; cbn; auto.
Qed.

(** With the target lane in range and x a number, the lane movement
    computes with numbers only. *)
Lemma lane_step_defined (dt : Q) (p : Player) :
  (0 <= targetLane p <= 2)%Z ->
  (exists px, x (position p) = Some px) ->
  exists px', x (position (lane_step dt p)) = Some px'.
Proof.
  intros Hr (px & Hx).
  destruct (LANES_at_defined (targetLane p) Hr) as (tx & Ht).
  unfold lane_step. rewrite Ht, Hx. unfold num_sub. cbv zeta.
  split_ifs; cbn; eauto.
Qed.

Lemma call_x_defined (p : Player) (c : Call) :
  (0 <= targetLane p <= 2)%Z ->
  (exists px, x (position p) = Some px) ->
  exists px', x (position (call Msin p c)) = Some px'.
Proof.
  intros Hr Hx. destruct c as [l | | dt]; cbn [call].
  - unfold setTargetLane.
    destruct (negb (isOnCooldown p) && negb (_ =? _)%Z); cbn; exact Hx.
  - unfold jump. destruct (negb (isJumping p)); cbn; exact Hx.
  - destruct (before_lane_step dt p) as (Et & _ & Ex).
    destruct (update_lanes dt p) as (-> & _ & _).
    apply lane_step_defined; [now rewrite Et | now rewrite Ex].
Qed.

(** What holds of a player after any calls from [reset]: the target lane
    is a lane, x is a number, and the cooldown flag is set exactly while the
    timer is positive. *)
Lemma calls_invariant (p0 : Player) (cs : list Call) :
  let p := calls Msin cs (reset p0) in
  (0 <= targetLane p <= 2)%Z /\
  (exists px, x (position p) = Some px) /\
  (isOnCooldown p = true <-> 0 < cooldownTimer p).
Proof.
  cbv zeta. unfold calls.
  assert (Hstart : (0 <= targetLane (reset p0) <= 2)%Z /\
                   (exists px, x (position (reset p0)) = Some px) /\
                   (isOnCooldown (reset p0) = true
                    <-> 0 < cooldownTimer (reset p0))).
  { cbn. split; [lia | split; [eexists; reflexivity |]].
    split; [discriminate | intro H; exfalso; revert H; apply Qlt_irrefl]. }
  revert Hstart. generalize (reset p0).
  induction cs as [| c cs IH]; intros q Hq; cbn; [exact Hq |].
  apply IH. destruct Hq as (Hr & Hx & Hc).
  split; [now apply call_targetLane_range | split].
  - now apply call_x_defined.
  - now apply call_cooldown_flag.
Qed.

Lemma update_snap_window : snap_window (update Msin).
Proof.
  intros dt p targetX px Ht Hx Hfar Hover q.
  destruct (before_lane_step dt p) as (Et & Ec & Ex).
  destruct (update_lanes dt p) as (Ux & Uc & Ut).
  destruct (lane_step_overshoot dt
              (jump_step dt (cooldown_step dt (bounce_step Msin dt p)))
              targetX px) as (Lx & Lc & Lt); try congruence.
  assert (Hqx : x (position q) = Some targetX) by (subst q; congruence).
  assert (Hqc : currentLane q = currentLane p) by (subst q; congruence).
  assert (Hqt : targetLane q = targetLane p) by (subst q; congruence).
  repeat split; try assumption.
  - destruct (before_lane_step dt' q) as (Et' & Ec' & Ex').
    destruct (update_lanes dt' q) as (_ & Uc' & _).
    destruct (lane_step_arrived dt'
                (jump_step dt' (cooldown_step dt' (bounce_step Msin dt' q)))
                targetX) as (_ & Lc' & _); congruence.
  - destruct (before_lane_step dt' q) as (Et' & Ec' & Ex').
    destruct (update_lanes dt' q) as (Ux' & _ & _).
    destruct (lane_step_arrived dt'
                (jump_step dt' (cooldown_step dt' (bounce_step Msin dt' q)))
                targetX) as (Lx' & _ & _); congruence.
Qed.

Lemma update_model_snap_window : snap_window update_model.
Proof.
  intros dt p targetX px Ht Hx Hfar Hover q.
  destruct (before_lane_step_model dt p) as (Et & Ec & Ex).
  destruct (update_model_lanes dt p) as (Ux & Uc & Ut).
  destruct (lane_step_overshoot dt
              (jump_step_model dt (cooldown_step dt p))
              targetX px) as (Lx & Lc & Lt); try congruence.
  assert (Hqx : x (position q) = Some targetX) by (subst q; congruence).
  assert (Hqc : currentLane q = currentLane p) by (subst q; congruence).
  assert (Hqt : targetLane q = targetLane p) by (subst q; congruence).
  repeat split; try assumption.
  - destruct (before_lane_step_model dt' q) as (Et' & Ec' & Ex').
    destruct (update_model_lanes dt' q) as (_ & Uc' & _).
    destruct (lane_step_arrived dt'
                (jump_step_model dt' (cooldown_step dt' q))
                targetX) as (_ & Lc' & _); congruence.
  - destruct (before_lane_step_model dt' q) as (Et' & Ec' & Ex').
    destruct (update_model_lanes dt' q) as (Ux' & _ & _).
    destruct (lane_step_arrived dt'
                (jump_step_model dt' (cooldown_step dt' q))
                targetX) as (Lx' & _ & _); congruence.
Qed.

(** *** Jumping *)

Lemma jump_step_jumping (dt : Q) (p : Player) :
  isJumping p = true ->
  let q := jump_step dt p in
  jumpStartY q = jumpStartY p /\ jumpDuration q = jumpDuration p /\
  jumpTimer q = fl64 (jumpTimer p + dt) /\
  (fl64 (jumpTimer p + dt) < jumpDuration p -> isJumping q = true) /\
  (jumpDuration p <= fl64 (jumpTimer p + dt) ->
   isJumping q = false /\ y (position q) = jumpStartY p).
Proof.
  intro Hj. cbv zeta. unfold jump_step. rewrite Hj. cbv zeta.
  destruct (Qleb (jumpDuration p) (fl64 (jumpTimer p + dt))) eqn:E; cbn.
  - apply Qleb_true in E. repeat split; auto; intros; exfalso; lra.
  - apply Qleb_false in E. repeat split; auto; intros; exfalso; lra.
Qed.

Lemma update_jumping (dt : Q) (p : Player) :
  isJumping p = true ->
  let q := update Msin dt p in
  jumpStartY q = jumpStartY p /\ jumpDuration q = jumpDuration p /\
  jumpTimer q = fl64 (jumpTimer p + dt) /\
  (fl64 (jumpTimer p + dt) < jumpDuration p -> isJumping q = true) /\
  (jumpDuration p <= fl64 (jumpTimer p + dt) ->
   isJumping q = false /\ y (position q) = jumpStartY p).
Proof.
  intro Hj. cbv zeta. unfold update.
  rewrite (bounce_step_jumping dt p Hj).
  destruct (cooldown_step_rest dt p)
    as (_ & _ & _ & Cj & Ct & Cs & _ & Cd).
  rewrite Hj in Cj.
  destruct (jump_step_jumping dt (cooldown_step dt p) Cj)
    as (Js & Jd & Jt & Jgo & Jend).
  destruct (lane_step_jump dt (jump_step dt (cooldown_step dt p)))
    as (Lj & Lt & Ly & Ls & Ld & _).
  cbn. rewrite Lj, Lt, Ly, Ls, Ld, Js, Jd, Jt.
  rewrite Ct, Cd in Jgo. rewrite Ct, Cd, Cs in Jend.
  repeat split; try congruence.
  - now apply Jgo.
  - now apply Jend.
  - now apply Jend.
Qed.

(** The ticks before tick [k] of a run that is a prefix of [dts]. *)
Lemma firstn_prefix (k j : nat) (dts : list Q) :
  (j < length (firstn k dts))%nat ->
  firstn (S j) (firstn k dts) = firstn (S j) dts /\ (j < length dts)%nat.
Proof.
  intro Hj. rewrite length_firstn in Hj. rewrite firstn_firstn.
  split; [f_equal; lia | lia].
Qed.

(** While the timer, as the code adds it up, stays below the duration the
    jump goes on. *)
Lemma updates_still_jumping (dts : list Q) :
  forall p : Player,
    isJumping p = true ->
    (forall k : nat,
        (k < length dts)%nat ->
        accumulated (jumpTimer p) (firstn (S k) dts) < jumpDuration p) ->
    let q := updates Msin dts p in
    isJumping q = true /\ jumpTimer q = accumulated (jumpTimer p) dts /\
    jumpStartY q = jumpStartY p /\ jumpDuration q = jumpDuration p.
Proof.
  induction dts as [| d r IH]; intros p Hj Hlt; cbn.
  - repeat split; auto.
  - destruct (update_jumping d p Hj) as (Us & Ud & Ut & Ugo & _).
    assert (Hj1 : isJumping (update Msin d p) = true).
    { apply Ugo. apply (Hlt 0%nat). cbn. lia. }
    destruct (IH (update Msin d p) Hj1) as (Ij & It & Is & Id).
    { intros k Hk. rewrite Ut, Ud. apply (Hlt (S k)). cbn. lia. }
    fold (updates Msin r (update Msin d p)).
    unfold accumulated in *. cbn [fold_left].
    repeat split; congruence.
Qed.

End PlayerFacts.

(** C6: [setTargetLane(lane)] clamps its argument to [0,2]; it changes
    nothing when the player is on lane-change cooldown or the clamped lane
    is the current target; otherwise it sets the target to the clamped lane
    and starts the fixed 1.0-second cooldown, so that a second call made
    before any update changes nothing.  From [reset], after any calls, the
    target lane is 0, 1 or 2 and the player is on cooldown exactly while the
    cooldown timer is positive; [setTargetLane(0)] followed at once by
    [setTargetLane(2)] leaves lane 0 as the target. *)
Theorem setTargetLane_contract :
  (forall (laneIndex : Z) (p : Player),
      exists newLane : Z,
        (0 <= newLane <= 2)%Z /\
        ((0 <= laneIndex <= 2)%Z -> newLane = laneIndex) /\
        ((laneIndex < 0)%Z -> newLane = 0%Z) /\
        ((2 < laneIndex)%Z -> newLane = 2%Z) /\
        (isOnCooldown p = true \/ newLane = targetLane p ->
         setTargetLane laneIndex p = p) /\
        (isOnCooldown p = false -> newLane <> targetLane p ->
         let q := setTargetLane laneIndex p in
         targetLane q = newLane /\ isOnCooldown q = true /\
         cooldownTimer q == 1 /\
         forall laneIndex2 : Z, setTargetLane laneIndex2 q = q)) /\
  (forall (Msin : Q -> Q) (p0 : Player) (cs : list Call),
      let p := calls Msin cs (reset p0) in
      (0 <= targetLane p <= 2)%Z /\
      (isOnCooldown p = true <-> 0 < cooldownTimer p)) /\
  (forall p0 : Player,
      targetLane (setTargetLane 2 (setTargetLane 0 (reset p0))) = 0%Z).
Proof.
  split; [| split].
  - intros laneIndex p. exists (Z.max 0 (Z.min 2 laneIndex)).
    repeat split; try lia.
    + intros [Hcd | Hsame].
      * now apply setTargetLane_on_cooldown.
      * unfold setTargetLane. rewrite Hsame, Z.eqb_refl. cbn.
        now rewrite andb_false_r.
    + rewrite setTargetLane_changes by assumption. reflexivity.
    + rewrite setTargetLane_changes by assumption. reflexivity.
    + rewrite setTargetLane_changes by assumption. reflexivity.
    + intro laneIndex2.
      rewrite (setTargetLane_changes laneIndex p) by assumption.
      now apply setTargetLane_on_cooldown.
  - intros Msin p0 cs.
    destruct (calls_invariant Msin p0 cs) as (Hr & _ & Hc). cbv zeta. auto.
  - intro p0. reflexivity.
Qed.

(** At the first call, lane 0 differs from the middle lane and no cooldown
    runs; the second call, for lane 2, is then without effect. *)
Lemma setTargetLane_contract_witness :
  isOnCooldown Player.new = false /\
  0%Z <> targetLane Player.new /\
  targetLane (setTargetLane 0 Player.new) = 0%Z /\
  setTargetLane 2 (setTargetLane 0 Player.new) = setTargetLane 0 Player.new.
Proof.
  destruct setTargetLane_contract as (Hcall & _ & _).
  destruct (Hcall 0%Z Player.new) as (n & _ & Hin & _ & _ & _ & Heff).
  assert (Hn : n = 0%Z) by (apply Hin; lia).
  subst n.
  assert (Hcd : isOnCooldown Player.new = false) by reflexivity.
  assert (Hne : 0%Z <> targetLane Player.new) by (cbn; lia).
  destruct (Heff Hcd Hne) as (Ht & _ & _ & Hnext).
  split; [exact Hcd | split; [exact Hne | split; [exact Ht | apply Hnext]]].
Defined.

(** The second of two calls is without effect because the first one started
    the cooldown.  A first call for the lane that is already the target
    starts none, and the second call then takes effect. *)
Remark second_call_after_same_lane :
  setTargetLane 1 Player.new = Player.new /\
  targetLane (setTargetLane 2 (setTargetLane 1 Player.new)) = 2%Z.
Proof. split; reflexivity. Qed.

(** C7: [jump()] changes nothing while the player is jumping; a jump
    starts with the timer at 0.  The accumulated timer is the one the code
    keeps: the deltas added tick by tick, each sum a double.  For a jumping
    player and any run of updates, the player is still jumping after every
    tick at which the accumulated timer is below [jumpDuration], and at the
    first tick at which it reaches or passes [jumpDuration] the jump ends
    with the height back at the base [jumpStartY]. *)
Theorem jump_lifecycle (Msin : Q -> Q) (p : Player) :
  (isJumping p = true -> jump p = p) /\
  (isJumping p = false ->
   isJumping (jump p) = true /\ jumpTimer (jump p) = 0) /\
  (isJumping p = true ->
   forall dt : Q,
     jumpTimer (update Msin dt p) = fl64 (jumpTimer p + dt) /\
     (isJumping (update Msin dt p) = false <->
      jumpDuration p <= fl64 (jumpTimer p + dt))) /\
  (isJumping p = true ->
   forall (dts : list Q) (dt : Q),
     (forall k : nat,
         (k < length dts)%nat ->
         accumulated (jumpTimer p) (firstn (S k) dts) < jumpDuration p) ->
     jumpDuration p <= accumulated (jumpTimer p) (dts ++ [dt]) ->
     (forall k : nat, isJumping (updates Msin (firstn k dts) p) = true) /\
     jumpTimer (updates Msin dts p) = accumulated (jumpTimer p) dts /\
     isJumping (updates Msin (dts ++ [dt]) p) = false /\
     y (position (updates Msin (dts ++ [dt]) p)) = jumpStartY p).
Proof.
  split; [| split; [| split]].
  - intro Hj. unfold jump. now rewrite Hj.
  - intro Hn. unfold jump. rewrite Hn. cbn. auto.
  - intros Hj dt.
    destruct (update_jumping Msin dt p Hj) as (_ & _ & Ht & Hgo & Hend).
    split; [exact Ht | split].
    + intro Hoff.
      destruct (Qlt_le_dec (fl64 (jumpTimer p + dt)) (jumpDuration p))
        as [Hlt | Hle]; [| exact Hle].
      rewrite (Hgo Hlt) in Hoff. discriminate.
    + intro Hle. now apply Hend.
  - intros Hj dts dt Hlt Hle.
    destruct (updates_still_jumping Msin dts p Hj Hlt)
      as (Qj & Qt & Qs & Qd).
    split; [| split].
    + intro k.
      apply (updates_still_jumping Msin (firstn k dts) p Hj).
      intros j Hj'. destruct (firstn_prefix k j dts Hj') as (-> & Hlen).
      now apply Hlt.
    + exact Qt.
    + rewrite updates_app. cbn.
      destruct (update_jumping Msin dt (updates Msin dts p) Qj)
        as (_ & _ & _ & _ & Hend).
      rewrite <- Qs. apply Hend. rewrite Qd, Qt.
      unfold accumulated in *. rewrite fold_left_app in Hle. exact Hle.
Qed.

(** A jump started from rest, in ticks of 0.075 s, sixteen of which make
    the jump duration of 1.2 s: the rounded sum of sixteen is still below
    the duration, so the player is in the air after the sixteenth tick and
    lands on the seventeenth. *)
Lemma jump_lifecycle_witness :
  isJumping (jump Player.new) = true /\
  (forall k : nat,
      (k < length (ticks 16 0.075))%nat ->
      accumulated (jumpTimer (jump Player.new))
                  (firstn (S k) (ticks 16 0.075))
      < jumpDuration (jump Player.new)) /\
  jumpDuration (jump Player.new)
    <= accumulated (jumpTimer (jump Player.new))
                   (ticks 16 0.075 ++ [fl64 0.075]) /\
  isJumping (updates flat_sine (ticks 16 0.075) (jump Player.new)) = true /\
  isJumping (updates flat_sine (ticks 16 0.075 ++ [fl64 0.075])
                     (jump Player.new)) = false /\
  y (position (updates flat_sine (ticks 16 0.075 ++ [fl64 0.075])
                       (jump Player.new)))
    = jumpStartY (jump Player.new).
Proof.
  assert (Hj : isJumping (jump Player.new) = true) by reflexivity.
  assert (Hlt : forall k : nat,
             (k < length (ticks 16 0.075))%nat ->
             accumulated (jumpTimer (jump Player.new))
                         (firstn (S k) (ticks 16 0.075))
             < jumpDuration (jump Player.new)).
  { intros k Hk.
    do 16 (destruct k as [| k]; [by_evaluation |]).
    exfalso. revert Hk. unfold ticks. rewrite repeat_length. lia. }
  assert (Hle : jumpDuration (jump Player.new)
                <= accumulated (jumpTimer (jump Player.new))
                               (ticks 16 0.075 ++ [fl64 0.075]))
    by by_evaluation.
  destruct (jump_lifecycle flat_sine (jump Player.new)) as (_ & _ & _ & Hrun).
  destruct (Hrun Hj (ticks 16 0.075) (fl64 0.075) Hlt Hle)
    as (Hair & _ & Hland & Hy).
  split; [exact Hj |]. split; [exact Hlt |]. split; [exact Hle |].
  split; [| split; [exact Hland | exact Hy]].
  exact (Hair 16%nat).
Defined.

(** The sum of these sixteen deltas, taken exactly, is the jump duration;
    the sum the code keeps is below it. *)
Remark rounding_delays_landing :
  total (ticks 16 0.075) == jumpDuration (jump Player.new) /\
  accumulated 0 (ticks 16 0.075) < jumpDuration (jump Player.new).
Proof. split; by_evaluation. Qed.

(** C10: in both player implementations, when the lane-movement step is
    clamped because it would overshoot, [positionX] becomes the target
    lane's x while [currentLane] keeps its value in that update call, and the
    next update call makes [currentLane] equal to [targetLane].  So there is
    a state, reached by one update after a lane change from rest, in which
    [positionX] is [LANES[targetLane]] and [currentLane] differs from
    [targetLane]; one more update closes the window. *)
Theorem lane_snap_one_tick_window :
  (forall Msin : Q -> Q, snap_window (update Msin)) /\
  snap_window update_model /\
  (forall Msin : Q -> Q,
      let q := update Msin 0.05 (setTargetLane 2 Player.new) in
      x (position q) = LANES_at (targetLane q) /\
      currentLane q <> targetLane q /\
      forall dt' : Q, currentLane (update Msin dt' q) = targetLane q).
Proof.
  split; [| split].
  - exact update_snap_window.
  - exact update_model_snap_window.
  - intros Msin q.
    destruct (update_snap_window Msin 0.05 (setTargetLane 2 Player.new)
                2.5 0) as (Hx & Hc & Ht & Hnext).
    + reflexivity.
    + reflexivity.
    + vm_compute. reflexivity.
    + vm_compute. reflexivity.
    + fold q in Hx, Hc, Ht, Hnext. rewrite Hx, Hc, Ht.
      split; [reflexivity | split].
      * cbn. lia.
      * intro dt'. apply Hnext.
Qed.

(** From rest in the middle lane towards lane 2 with a tick of 0.05 s: the
    step 2.5 * 25 * 0.05 = 3.125 exceeds the distance 2.5. *)
Lemma lane_snap_one_tick_window_witness :
  LANES_at (targetLane (setTargetLane 2 Player.new)) = Some 2.5 /\
  x (position (setTargetLane 2 Player.new)) = Some 0 /\
  0.01 < Qabs (2.5 - 0) /\
  Qabs (2.5 - 0) < Qabs ((2.5 - 0) * 25.0 * 0.05) /\
  x (position (update flat_sine 0.05 (setTargetLane 2 Player.new)))
    = Some 2.5 /\
  currentLane (update flat_sine 0.05 (setTargetLane 2 Player.new)) = 1%Z /\
  currentLane
    (update flat_sine 0.02 (update flat_sine 0.05 (setTargetLane 2 Player.new)))
    = 2%Z.
Proof.
  assert (Ht : LANES_at (targetLane (setTargetLane 2 Player.new)) = Some 2.5)
    by reflexivity.
  assert (Hx : x (position (setTargetLane 2 Player.new)) = Some 0)
    by reflexivity.
  assert (Hfar : 0.01 < Qabs (2.5 - 0)) by by_evaluation.
  assert (Hover : Qabs (2.5 - 0) < Qabs ((2.5 - 0) * 25.0 * 0.05))
    by by_evaluation.
  destruct lane_snap_one_tick_window as (Hwin & _ & _).
  destruct (Hwin flat_sine 0.05 (setTargetLane 2 Player.new) 2.5 0
                 Ht Hx Hfar Hover) as (Hqx & Hqc & _ & Hnext).
  split; [exact Ht |]. split; [exact Hx |]. split; [exact Hfar |].
  split; [exact Hover |]. split; [exact Hqx |].
  split; [exact Hqc | exact (proj1 (Hnext 0.02))].
Defined.

End PlayerSpec.

(** ** Collision detection *)

Module CollisionSpec.

Import LavaManager.


Lemma check_loop_iff (player : Player.Player) (hazards : list Lava) :
  check_loop player hazards = true <->
  exists lava, In lava hazards /\ hits player lava = true.
Proof.
  induction hazards as [| h r IH]; cbn.
  - split; [discriminate | intros (? & [] & _)].
  - destruct (hits player h) eqn:Eh.
    + split; [intros _; exists h; auto | reflexivity].
    + rewrite IH. split.
      * intros (l & Hin & Hl). exists l. auto.
      * intros (l & [-> | Hin] & Hl); [congruence | exists l; auto].
Qed.



(** Two ticks of 0.02 s after a lane change towards lane 2 bring the player
    to x = 1.875, within 1.125 of lane 2, with [currentLane] still 1; the
    player that stayed in the middle lane for the same two ticks has the same
    height, z and jump state.  Whatever the sine, only the former is hit by a
    hazard in lane 2. *)
Lemma mid_transition_is_hit (Msin : Q -> Q) :
  let p1 := Player.updates Msin [0.02; 0.02] Player.new in
  let p2 :=
    Player.updates Msin [0.02; 0.02] (Player.setTargetLane 2 Player.new) in
  Player.currentLane p1 = Player.currentLane p2 /\
  Player.isJumping p1 = Player.isJumping p2 /\
  Player.y (Player.position p1) = Player.y (Player.position p2) /\
  Player.z (Player.position p1) = Player.z (Player.position p2) /\
  Player.jumpStartY p1 = Player.jumpStartY p2 /\
  Player.x (Player.position p1) = LANES_at (Player.currentLane p1) /\
  checkCollision lava_in_lane_2 p1 = false /\
  checkCollision lava_in_lane_2 p2 = true.
Proof.
  cbv zeta.
  split; [by_evaluation |]. split; [by_evaluation |].
  split; [by_evaluation |]. split; [by_evaluation |].
  split; [by_evaluation |]. split; [by_evaluation |].
  split; by_evaluation.
Qed.

(** C2, as stated, fails: the two player states below agree on
    [currentLane], jump state, y and z, the first one stands exactly on its
    lane's x while the second one is in mid-transition, and [checkCollision]
    answers false for the first and true for the second. *)
Lemma collision_lane_geometry_counterexample :
  Player.currentLane (Player.updates flat_sine [0.02; 0.02] Player.new)
  = Player.currentLane
      (Player.updates flat_sine [0.02; 0.02]
         (Player.setTargetLane 2 Player.new)) /\
  Player.isJumping (Player.updates flat_sine [0.02; 0.02] Player.new)
  = Player.isJumping
      (Player.updates flat_sine [0.02; 0.02]
         (Player.setTargetLane 2 Player.new)) /\
  Player.y (Player.position
              (Player.updates flat_sine [0.02; 0.02] Player.new))
  = Player.y (Player.position
                (Player.updates flat_sine [0.02; 0.02]
                   (Player.setTargetLane 2 Player.new))) /\
  Player.z (Player.position
              (Player.updates flat_sine [0.02; 0.02] Player.new))
  = Player.z (Player.position
                (Player.updates flat_sine [0.02; 0.02]
                   (Player.setTargetLane 2 Player.new))) /\
  checkCollision lava_in_lane_2
    (Player.updates flat_sine [0.02; 0.02] Player.new) = false /\
  checkCollision lava_in_lane_2
    (Player.updates flat_sine [0.02; 0.02]
       (Player.setTargetLane 2 Player.new)) = true.
Proof.
  destruct (mid_transition_is_hit flat_sine)
    as (Hc & Hj & Hy & Hz & _ & _ & H1 & H2).
  split; [exact Hc |]. split; [exact Hj |]. split; [exact Hy |].
  split; [exact Hz |]. split; [exact H1 | exact H2].
Qed.

(** C2, amended: [checkCollision] reads the player's position (the
    interpolated x, with y and z), its jump flag and its base height, and
    nothing else: two players that agree on these get the same answer,
    whatever their [currentLane] and [targetLane]. *)
Theorem collision_uses_position
    (lm : LavaManager) (p1 p2 : Player.Player) :
  Player.position p1 = Player.position p2 ->
  Player.isJumping p1 = Player.isJumping p2 ->
  Player.jumpStartY p1 = Player.jumpStartY p2 ->
  checkCollision lm p1 = checkCollision lm p2.
Proof.
  intros Hpos Hj Hs. unfold checkCollision.
  induction (lavaHazards lm) as [| h r IH]; cbn [check_loop]; [reflexivity |].
  assert (Hh : hits p1 h = hits p2 h)
    by (unfold hits; now rewrite Hpos, Hj, Hs).
  now rewrite Hh, IH.
Qed.

(** A player standing at x = 1.875 is hit by the hazard in lane 2 whether
    its [currentLane] is 1 (in transition) or 2. *)
Lemma collision_uses_position_witness :
  Player.position
    (Player.updates flat_sine [0.02; 0.02] (Player.setTargetLane 2 Player.new))
  = Player.position
      (Player.set_currentLane 2
         (Player.updates flat_sine [0.02; 0.02]
            (Player.setTargetLane 2 Player.new))) /\
  Player.currentLane
    (Player.updates flat_sine [0.02; 0.02] (Player.setTargetLane 2 Player.new))
  <> Player.currentLane
       (Player.set_currentLane 2
          (Player.updates flat_sine [0.02; 0.02]
             (Player.setTargetLane 2 Player.new))) /\
  checkCollision lava_in_lane_2
    (Player.updates flat_sine [0.02; 0.02] (Player.setTargetLane 2 Player.new))
  = checkCollision lava_in_lane_2
      (Player.set_currentLane 2
         (Player.updates flat_sine [0.02; 0.02]
            (Player.setTargetLane 2 Player.new))).
Proof.
  split; [by_evaluation | split; [by_evaluation |]].
  apply collision_uses_position; by_evaluation.
Defined.

End CollisionSpec.

(** ** Hazard spawning and pools *)

Module LavaSpec.

Import LavaManager.

Lemma _spawnLava_interval (r targetZ : Q) (lm : LavaManager) :
  spawnInterval (_spawnLava r targetZ lm) = spawnInterval lm.
Proof.
  unfold _spawnLava.
  destruct (_createLavaMesh (pool lm)) as [lava rest].
  destruct (ParticleManager.getSystem (particleManager lm)) as [system pm].
  reflexivity.
Qed.

(** The interval after the spawning block: lowered and clamped when a hazard
    is spawned, untouched otherwise. *)
Lemma spawn_step_interval (r dt pz : Q) (lm : LavaManager) :
  (spawnInterval lm <= spawnTimer lm + dt ->
   spawnInterval (spawn_step r dt pz lm)
   = if Qltb MIN_SPAWN_INTERVAL (spawnInterval lm)
     then Qmax MIN_SPAWN_INTERVAL
               (spawnInterval lm - SPAWN_INTERVAL_DECREMENT)
     else spawnInterval lm) /\
  (spawnTimer lm + dt < spawnInterval lm ->
   spawnInterval (spawn_step r dt pz lm) = spawnInterval lm).
Proof.
  unfold spawn_step. cbv zeta. split; intro H.
  - apply Qleb_true in H. rewrite H. cbn [spawnInterval].
    now rewrite _spawnLava_interval.
  - apply Qleb_false in H. rewrite H. reflexivity.
Qed.

Lemma update_interval (r dt pz speed : Q) (lm : LavaManager) :
  spawnInterval (update r dt pz speed lm)
  = spawnInterval
      (spawn_step r dt pz
         {| lavaHazards := lavaHazards lm; pool := pool lm;
            spawnTimer := spawnTimer lm; spawnInterval := spawnInterval lm;
            nextSpawnZ := nextSpawnZ lm;
            particleManager :=
              ParticleManager.update dt (particleManager lm) |}).
Proof.
  unfold update. cbv zeta.
  destruct (move_step _ _ _ _) as [kept [pl pm]]. reflexivity.
Qed.

(** One [update]: the interval stays between the floor and its old value;
    a spawn replaces it by [max(floor, old - decrement)]. *)
Lemma tick_interval (lm : LavaManager) (t : Tick) :
  MIN_SPAWN_INTERVAL <= spawnInterval lm ->
  MIN_SPAWN_INTERVAL <= spawnInterval (tick lm t) /\
  spawnInterval (tick lm t) <= spawnInterval lm /\
  (spawnInterval lm <= spawnTimer lm + deltaTime t ->
   spawnInterval (tick lm t)
   == Qmax MIN_SPAWN_INTERVAL (spawnInterval lm - SPAWN_INTERVAL_DECREMENT)) /\
  (spawnTimer lm + deltaTime t < spawnInterval lm ->
   spawnInterval (tick lm t) = spawnInterval lm).
Proof.
  intro Hfloor. unfold tick. rewrite update_interval.
  match goal with
  | |- context [spawn_step ?r ?dt ?pz ?l] =>
      destruct (spawn_step_interval r dt pz l) as (Hspawn & Hwait)
  end.
  cbn [spawnInterval spawnTimer] in Hspawn, Hwait.
  assert (Hdec : 0 < SPAWN_INTERVAL_DECREMENT) by by_evaluation.
  destruct (Qlt_le_dec (spawnTimer lm + deltaTime t) (spawnInterval lm))
    as [Hw | Hs].
  - rewrite (Hwait Hw).
    split; [exact Hfloor |]. split; [apply Qle_refl |].
    split; [intro Hs; exfalso; lra | reflexivity].
  - rewrite (Hspawn Hs).
    pose proof (Q.max_spec MIN_SPAWN_INTERVAL
                  (spawnInterval lm - SPAWN_INTERVAL_DECREMENT)) as Hmax.
    destruct (Qltb MIN_SPAWN_INTERVAL (spawnInterval lm)) eqn:E.
    + apply Qltb_true in E.
      split; [apply Q.le_max_l |].
      split; [apply Q.max_lub; lra |].
      split; [intros _; reflexivity | intro Hw; exfalso; lra].
    + apply Qltb_false in E.
      split; [exact Hfloor |]. split; [apply Qle_refl |].
      split; [intros _ | intro Hw; exfalso; lra].
      destruct Hmax as [(Hlt & Hm) | (Hle & Hm)]; [exfalso; lra |].
      rewrite Hm. lra.
Qed.





(** *** Pools *)

Lemma remove_first_in (s s' : ParticleManager.System)
    (l : list ParticleManager.System) :
  In s l -> s = s' \/ In s (ParticleManager.remove_first s' l).
Proof.
  induction l as [| a r IH]; cbn; [tauto |].
  destruct (Nat.eqb_spec a s') as [-> | Hne]; intros [-> | Hin]; cbn; auto.
  destruct (IH Hin); auto.
Qed.

(** A system that is active or pooled is still one or the other after any
    [returnSystem]. *)
Lemma returnSystem_keeps (s s' : ParticleManager.System)
    (pm : ParticleManager.ParticleManager) :
  In s (ParticleManager.particleSystems pm) \/ In s (ParticleManager.pool pm) ->
  In s (ParticleManager.particleSystems (ParticleManager.returnSystem s' pm))
  \/ In s (ParticleManager.pool (ParticleManager.returnSystem s' pm)).
Proof.
  unfold ParticleManager.returnSystem, push. cbn.
  intros [Hact | Hpool].
  - destruct (remove_first_in s s' _ Hact) as [-> | Hin]; [right | left; auto].
    apply in_or_app. right. now left.
  - right. apply in_or_app. now left.
Qed.

Lemma returnSystem_pooled (s : ParticleManager.System)
    (pm : ParticleManager.ParticleManager) :
  In s (ParticleManager.pool (ParticleManager.returnSystem s pm)).
Proof.
  unfold ParticleManager.returnSystem, push. cbn.
  apply in_or_app. right. now left.
Qed.

(** With fuel for every active system, the loop of [reset] empties the
    active list into the pool. *)
Lemma reset_loop_spec (fuel : nat) :
  forall pm : ParticleManager.ParticleManager,
    (length (ParticleManager.particleSystems pm) <= fuel)%nat ->
    ParticleManager.reset_loop fuel pm
    = {| ParticleManager.particleSystems := [];
         ParticleManager.pool :=
           ParticleManager.pool pm ++ ParticleManager.particleSystems pm;
         ParticleManager.created := ParticleManager.created pm |}.
Proof.
  induction fuel as [| n IH]; intros [act pl c] Hlen; cbn in *.
  - destruct act; [| cbn in Hlen; lia]. now rewrite app_nil_r.
  - destruct act as [| s r]; [now rewrite app_nil_r |].
    rewrite IH.
    + cbn. rewrite Nat.eqb_refl. unfold push. now rewrite <- app_assoc.
    + cbn. rewrite Nat.eqb_refl. cbn in Hlen. lia.
Qed.

Lemma particle_reset_spec (pm : ParticleManager.ParticleManager) :
  ParticleManager.reset pm
  = {| ParticleManager.particleSystems := [];
       ParticleManager.pool :=
         ParticleManager.pool pm ++ ParticleManager.particleSystems pm;
       ParticleManager.created := ParticleManager.created pm |}.
Proof. unfold ParticleManager.reset. now apply reset_loop_spec. Qed.

(** The [forEach] of [reset]: the hazards go to the pool, hidden, in order;
    no system is lost, and the system of each hazard ends in the pool. *)
Lemma reset_fold_spec (hazards : list Lava) :
  forall (pl : list Lava) (pm : ParticleManager.ParticleManager),
    let st := fold_left reset_one hazards (pl, pm) in
    fst st = pl ++ map hide hazards /\
    (forall s,
        In s (ParticleManager.particleSystems pm)
        \/ In s (ParticleManager.pool pm) ->
        In s (ParticleManager.particleSystems (snd st))
        \/ In s (ParticleManager.pool (snd st))) /\
    (forall lava s,
        In lava hazards -> particleSystem lava = Some s ->
        In s (ParticleManager.particleSystems (snd st))
        \/ In s (ParticleManager.pool (snd st))).
Proof.
  induction hazards as [| h r IH]; intros pl pm; cbn.
  - rewrite app_nil_r. split; [reflexivity | split; [auto |]].
    intros lava s [].
  - destruct (IH (push pl (hide h))
                 (match particleSystem h with
                  | Some s => ParticleManager.returnSystem s pm
                  | None => pm
                  end)) as (Hpool & Hkeep & Hown).
    unfold reset_one at 2. cbn [fst snd].
    split; [| split].
    + rewrite Hpool. unfold push. now rewrite <- app_assoc.
    + intros s Hs. apply Hkeep.
      destruct (particleSystem h); [now apply returnSystem_keeps | exact Hs].
    + intros lava s [<- | Hin] Hsys.
      * apply Hkeep. rewrite Hsys. right. apply returnSystem_pooled.
      * now apply (Hown lava s).
Qed.

(** [reset()]: no hazard and no system stays active; the hazards and the
    systems are in their pools. *)
Lemma lava_reset_spec (lm : LavaManager) :
  lavaHazards (reset lm) = [] /\
  ParticleManager.particleSystems (particleManager (reset lm)) = [] /\
  pool (reset lm) = pool lm ++ map hide (lavaHazards lm) /\
  (forall s,
      In s (ParticleManager.particleSystems (particleManager lm))
      \/ In s (ParticleManager.pool (particleManager lm)) ->
      In s (ParticleManager.pool (particleManager (reset lm)))) /\
  (forall lava s,
      In lava (lavaHazards lm) -> particleSystem lava = Some s ->
      In s (ParticleManager.pool (particleManager (reset lm)))).
Proof.
  destruct (reset_fold_spec (lavaHazards lm) (pool lm) (particleManager lm))
    as (Hpool & Hkeep & Hown).
  unfold reset. cbn [lavaHazards pool particleManager].
  rewrite particle_reset_spec. cbn.
  split; [reflexivity | split; [reflexivity | split; [exact Hpool |]]].
  split.
  - intros s Hs. apply in_or_app. destruct (Hkeep s Hs); auto.
  - intros lava s Hin Hsys. apply in_or_app.
    destruct (Hown lava s Hin Hsys); auto.
Qed.

End LavaSpec.

(** ** The game loop *)

Module GameSpec.

Import Game.

Section GameFacts.

Variable Msin : Q -> Q.

Lemma _update_halted (dt r : Q) (g : Game) :
  isRunning g = false -> _update Msin dt r g = _stopGameLoop g.
Proof.
  unfold isRunning, _update. intro H.
  destruct (running g), (gameOver g); cbn in *; congruence.
Qed.

(** A frame of a running game: the score is raised before the collision
    test, and the game is over afterwards exactly when the test, made on
    the updated hazards and player, reports a hit. *)
Lemma _update_running (dt r : Q) (g : Game) :
  isRunning g = true ->
  let g' := _update Msin dt r g in
  score g' = score g + dt * SCORE_RATE /\
  gameOver g'
  = LavaManager.checkCollision (lavaManager g') (player g').
Proof.
  unfold isRunning, _update. intro H.
  destruct (running g) eqn:Er, (gameOver g) eqn:Eo; cbn in H;
    try discriminate.
  cbn [negb orb]. cbv zeta.
  match goal with
  | |- context [if ?c then _ else _] => destruct c eqn:Ehit
  end; cbn [score gameOver lavaManager player]; auto.
Qed.

Lemma step_gameOver (g : Game) (op : Op) :
  gameOver g = true ->
  gameOver (step Msin g op) = true /\ score (step Msin g op) = score g.
Proof.
  intro Ho. destruct op as [dt r | | l |]; cbn [step].
  - rewrite _update_halted; [cbn; auto |].
    unfold isRunning. rewrite Ho. apply andb_false_r.
  - cbn. auto.
  - cbn. auto.
  - cbn. auto.
Qed.

Lemma run_gameOver (ops : list Op) :
  forall g : Game,
    gameOver g = true ->
    gameOver (run Msin ops g) = true /\ score (run Msin ops g) = score g.
Proof.
  induction ops as [| op r IH]; intros g Ho; cbn; [auto |].
  destruct (step_gameOver g op Ho) as (Ho' & Hs').
  destruct (IH (step Msin g op) Ho') as (Ho'' & Hs'').
  fold (run Msin r (step Msin g op)). split; congruence.
Qed.

(** With no spawn due, a frame over an empty hazard list leaves it empty. *)
Lemma update_no_hazard (r dt pz speed : Q) (lm : LavaManager.LavaManager) :
  LavaManager.lavaHazards lm = [] ->
  LavaManager.spawnTimer lm + dt < LavaManager.spawnInterval lm ->
  LavaManager.lavaHazards (LavaManager.update r dt pz speed lm) = [] /\
  LavaManager.particleManager (LavaManager.update r dt pz speed lm)
  = LavaManager.particleManager lm /\
  LavaManager.pool (LavaManager.update r dt pz speed lm)
  = LavaManager.pool lm.
Proof.
  intros Hnil Hwait. unfold LavaManager.update, LavaManager.spawn_step.
  cbv zeta. cbn [LavaManager.spawnInterval LavaManager.spawnTimer].
  apply Qleb_false in Hwait. rewrite Hwait.
  cbn [LavaManager.lavaHazards LavaManager.pool
       LavaManager.particleManager].
  rewrite Hnil. cbn. auto.
Qed.

End GameFacts.

(** C4, as stated, fails: stopping the session that has one active hazard
    with its particle system leaves both active and both pools empty. *)
Lemma stop_releases_counterexample :
  length (LavaManager.lavaHazards (lavaManager session_with_hazard)) = 1%nat /\
  LavaManager.lavaHazards (lavaManager (stop session_with_hazard))
  = LavaManager.lavaHazards (lavaManager session_with_hazard) /\
  LavaManager.pool (lavaManager (stop session_with_hazard)) = [] /\
  ParticleManager.particleSystems
    (LavaManager.particleManager (lavaManager (stop session_with_hazard)))
  = [0%nat] /\
  ParticleManager.pool
    (LavaManager.particleManager (lavaManager (stop session_with_hazard)))
  = [].
Proof.
  split; [by_evaluation |]. split; [by_evaluation |].
  split; [by_evaluation |]. split; by_evaluation.
Qed.

(** C4, amended: [stop()] leaves the hazards, the particle systems and
    their pools as they are.  The release is done when a session is started:
    after [_resetGameState()] no hazard and no particle system is active,
    the hazard pool is the old pool followed by the hazards that were
    active, hidden, and every particle system that was active or pooled,
    among them the system of each hazard that was active, is in the particle
    pool.  With a first delta below one second, the session that [start()]
    begins has no active hazard and no active particle system. *)
Theorem stop_keeps_start_releases (g : Game) :
  lavaManager (stop g) = lavaManager g /\
  (let lm := lavaManager g in
   let lm' := lavaManager (_resetGameState g) in
   LavaManager.lavaHazards lm' = [] /\
   ParticleManager.particleSystems (LavaManager.particleManager lm') = [] /\
   LavaManager.pool lm'
   = LavaManager.pool lm
       ++ map LavaManager.hide (LavaManager.lavaHazards lm) /\
   (forall s,
       In s (ParticleManager.particleSystems (LavaManager.particleManager lm))
       \/ In s (ParticleManager.pool (LavaManager.particleManager lm)) ->
       In s (ParticleManager.pool (LavaManager.particleManager lm'))) /\
   (forall lava s,
       In lava (LavaManager.lavaHazards lm) ->
       LavaManager.particleSystem lava = Some s ->
       In s (ParticleManager.pool (LavaManager.particleManager lm')))) /\
  (forall (Msin : Q -> Q) (dt r : Q),
      dt < 1 ->
      let lm := lavaManager (start Msin dt r g) in
      LavaManager.lavaHazards lm = [] /\
      ParticleManager.particleSystems (LavaManager.particleManager lm) = [] /\
      LavaManager.pool lm
      = LavaManager.pool (lavaManager (_resetGameState g))).
Proof.
  split; [reflexivity | split].
  - cbv zeta. cbn [_resetGameState lavaManager].
    apply LavaSpec.lava_reset_spec.
  - intros Msin dt r Hdt.
    destruct (LavaSpec.lava_reset_spec (lavaManager g)) as (Hh & Hp & _).
    assert (Hwait : forall pz speed,
               let lm1 :=
                 LavaManager.update r dt pz speed
                   (LavaManager.reset (lavaManager g)) in
               LavaManager.lavaHazards lm1 = [] /\
               LavaManager.particleManager lm1
               = LavaManager.particleManager
                   (LavaManager.reset (lavaManager g)) /\
               LavaManager.pool lm1
               = LavaManager.pool (LavaManager.reset (lavaManager g))).
    { intros pz speed. apply update_no_hazard; [exact Hh |].
      cbn [LavaManager.reset LavaManager.spawnTimer
           LavaManager.spawnInterval].
      unfold LavaManager.INITIAL_SPAWN_INTERVAL. lra. }
    unfold start, start_frame, _update. cbv zeta.
    cbn [running gameOver negb orb _resetGameState _stopGameLoop
         lavaManager player currentSpeed score].
    match goal with
    | |- context [LavaManager.update r dt ?pz ?speed _] =>
        destruct (Hwait pz speed) as (H1 & H2 & H3)
    end.
    match goal with
    | |- context [if ?c then _ else _] => destruct c
    end; cbn [lavaManager]; rewrite H1, H2, H3, Hp; auto.
Qed.

(** The session with one active hazard: stopping keeps it, the reset of the
    next start moves the hazard and its particle system to the pools. *)
Lemma stop_keeps_start_releases_witness :
  In 0%nat
     (ParticleManager.particleSystems
        (LavaManager.particleManager
           (lavaManager (stop session_with_hazard)))) /\
  LavaManager.lavaHazards
    (lavaManager (_resetGameState (stop session_with_hazard))) = [] /\
  In 0%nat
     (ParticleManager.pool
        (LavaManager.particleManager
           (lavaManager (_resetGameState (stop session_with_hazard))))).
Proof.
  assert (Hact : In 0%nat
                   (ParticleManager.particleSystems
                      (LavaManager.particleManager
                         (lavaManager (stop session_with_hazard)))))
    by (vm_compute; auto).
  destruct (stop_keeps_start_releases (stop session_with_hazard))
    as (_ & (Hh & _ & _ & Hsys & _) & _).
  split; [exact Hact | split; [exact Hh |]].
  apply Hsys. left. exact Hact.
Defined.

(** C5, as stated, fails: [stop()] on the fresh session, in which no
    hazard exists and collision detection answers false, turns [gameOver]
    from false to true. *)
Lemma gameOver_only_by_collision_counterexample :
  gameOver fresh_session = false /\
  LavaManager.checkCollision (lavaManager fresh_session)
                             (player fresh_session) = false /\
  LavaManager.checkCollision (lavaManager (stop fresh_session))
                             (player (stop fresh_session)) = false /\
  gameOver (stop fresh_session) = true.
Proof.
  split; [by_evaluation |]. split; [by_evaluation |].
  split; by_evaluation.
Qed.

(** C5, amended: between two starts [gameOver] goes from false to true only
    by [stop()] or by a frame of the running game whose collision test, on
    the hazards and player as updated in that frame, reports a hit; once
    true it stays true under frames, [stop()] and player commands, and only
    the reset made by [start()] sets it back to false. *)
Theorem gameOver_one_way (Msin : Q -> Q) (g : Game) :
  (forall op : Op,
      gameOver g = false -> gameOver (step Msin g op) = true ->
      op = Stop \/
      exists dt r : Q,
        op = Frame dt r /\ running g = true /\
        LavaManager.checkCollision (lavaManager (step Msin g op))
                                   (player (step Msin g op)) = true) /\
  (forall ops : list Op,
      gameOver g = true -> gameOver (run Msin ops g) = true) /\
  gameOver (_resetGameState g) = false.
Proof.
  split; [| split; [| reflexivity]].
  - intros op Hf Ht. destruct op as [dt r | | l |].
    + right. exists dt, r. cbn [step] in *.
      destruct (isRunning g) eqn:Er.
      * destruct (_update_running Msin dt r g Er) as (_ & Hhit).
        rewrite Hhit in Ht. unfold isRunning in Er.
        apply andb_true_iff in Er. destruct Er as (Er & _). auto.
      * rewrite (_update_halted Msin dt r g Er) in Ht. cbn in Ht. congruence.
    + now left.
    + cbn in Ht. congruence.
    + cbn in Ht. congruence.
  - intros ops Ho. now apply run_gameOver.
Qed.

(** The frame in which the first hazard reaches the player: the game was
    not over, the collision test reports the hit, the game is over. *)
Lemma gameOver_one_way_witness :
  gameOver session_before_impact = false /\
  gameOver (step flat_sine session_before_impact (Frame 0.9 0.5)) = true /\
  LavaManager.checkCollision
    (lavaManager (step flat_sine session_before_impact (Frame 0.9 0.5)))
    (player (step flat_sine session_before_impact (Frame 0.9 0.5))) = true /\
  gameOver
    (run flat_sine [Frame 1 0.5; SetTargetLane 0; Jump]
         (step flat_sine session_before_impact (Frame 0.9 0.5))) = true.
Proof.
  assert (Hf : gameOver session_before_impact = false)
    by by_evaluation.
  assert (Ht : gameOver (step flat_sine session_before_impact (Frame 0.9 0.5))
               = true) by by_evaluation.
  destruct (gameOver_one_way flat_sine session_before_impact) as (Hstep & _).
  destruct (gameOver_one_way flat_sine
              (step flat_sine session_before_impact (Frame 0.9 0.5)))
    as (_ & Hstay & _).
  split; [exact Hf | split; [exact Ht | split]].
  - destruct (Hstep (Frame 0.9 0.5) Hf Ht) as [Hstop | (dt & r & _ & _ & Hhit)];
      [discriminate | exact Hhit].
  - exact (Hstay [Frame 1 0.5; SetTargetLane 0; Jump] Ht).
Defined.

(** C9: a frame of a game that is running and not over raises the score by
    the delta times [SCORE_RATE], strictly when the delta is positive; once
    [gameOver] is true no frame, [stop()] or player command changes the
    score; five frames of one second each, the game running at the start of
    each, raise the score by 5 * [SCORE_RATE]. *)
Theorem score_progression (Msin : Q -> Q) (g : Game) :
  (forall dt r : Q,
      isRunning g = true ->
      score (_update Msin dt r g) == score g + dt * SCORE_RATE /\
      (0 < dt -> score g < score (_update Msin dt r g))) /\
  (forall ops : list Op,
      gameOver g = true -> score (run Msin ops g) = score g) /\
  (forall r1 r2 r3 r4 r5 : Q,
      let ops :=
        [Frame 1.0 r1; Frame 1.0 r2; Frame 1.0 r3; Frame 1.0 r4;
         Frame 1.0 r5] in
      (forall k : nat,
          (k < 5)%nat -> isRunning (run Msin (firstn k ops) g) = true) ->
      score (run Msin ops g) == score g + 5 * SCORE_RATE).
Proof.
  split; [| split].
  - intros dt r Hrun.
    destruct (_update_running Msin dt r g Hrun) as (Hs & _).
    rewrite Hs. split; [reflexivity |].
    intro Hdt. unfold SCORE_RATE. nra.
  - intros ops Ho. now apply run_gameOver.
  - intros r1 r2 r3 r4 r5 ops Hrun.
    pose proof (Hrun 0%nat ltac:(lia)) as H0.
    pose proof (Hrun 1%nat ltac:(lia)) as H1.
    pose proof (Hrun 2%nat ltac:(lia)) as H2.
    pose proof (Hrun 3%nat ltac:(lia)) as H3.
    pose proof (Hrun 4%nat ltac:(lia)) as H4.
    subst ops. cbn [firstn run fold_left step] in *.
    destruct (_update_running Msin 1.0 r1 _ H0) as (S1 & _).
    destruct (_update_running Msin 1.0 r2 _ H1) as (S2 & _).
    destruct (_update_running Msin 1.0 r3 _ H2) as (S3 & _).
    destruct (_update_running Msin 1.0 r4 _ H3) as (S4 & _).
    destruct (_update_running Msin 1.0 r5 _ H4) as (S5 & _).
    rewrite S5, S4, S3, S2, S1. ring.
Qed.

(** Scenario A on the fresh session: player in lane 1, no hazard yet, five
    frames of one second; the game keeps running and the score goes from 0
    to 50. *)
Lemma score_progression_witness :
  (forall k : nat,
      (k < 5)%nat ->
      isRunning
        (run flat_sine
           (firstn k [Frame 1.0 0.1; Frame 1.0 0.2; Frame 1.0 0.5;
                      Frame 1.0 0.7; Frame 1.0 0.9])
           fresh_session) = true) /\
  score
    (run flat_sine
       [Frame 1.0 0.1; Frame 1.0 0.2; Frame 1.0 0.5; Frame 1.0 0.7;
        Frame 1.0 0.9]
       fresh_session)
  == score fresh_session + 5 * SCORE_RATE.
Proof.
  assert (Hrun : forall k : nat,
             (k < 5)%nat ->
             isRunning
               (run flat_sine
                  (firstn k [Frame 1.0 0.1; Frame 1.0 0.2; Frame 1.0 0.5;
                             Frame 1.0 0.7; Frame 1.0 0.9])
                  fresh_session) = true).
  { intros k Hk.
    destruct k as [| [| [| [| [| k]]]]];
      [by_evaluation .. | lia]. }
  split; [exact Hrun |].
  destruct (score_progression flat_sine fresh_session) as (_ & _ & Hfive).
  exact (Hfive 0.1 0.2 0.5 0.7 0.9 Hrun).
Defined.

End GameSpec.

(** ** Pose input *)

Module MainSpec.

Import Main.

Section MainFacts.

Variable Msin : Q -> Q.

Lemma frame_timer (dt r : Q) (m : Main) :
  poseJumpCooldownTimer (frame Msin dt r m) = poseJumpCooldownTimer m /\
  restingShoulderY (frame Msin dt r m) = restingShoulderY m.
Proof. unfold frame. destruct (game m); cbn; auto. Qed.

Lemma frames_timer (ticks : list (Q * Q)) :
  forall m : Main,
    poseJumpCooldownTimer (frames Msin ticks m) = poseJumpCooldownTimer m.
Proof.
  induction ticks as [| t r IH]; intro m; cbn; [reflexivity |].
  fold (frames Msin r (frame Msin (fst t) (snd t) m)).
  rewrite IH. apply frame_timer.
Qed.

End MainFacts.

(** A sample handled while the game runs and the timer is above 1/60. *)
Lemma handlePoseUpdate_counts_down (normX normShoulderY : Q) (m : Main) :
  option_map Game.isRunning (game m) = Some true ->
  1 / 60 < poseJumpCooldownTimer m ->
  poseJumpCooldownTimer (handlePoseUpdate normX normShoulderY m)
  = poseJumpCooldownTimer m - 1 / 60.
Proof.
  intros Hrun Hpos. unfold handlePoseUpdate.
  destruct (game m) as [g |]; [| discriminate].
  cbn in Hrun. injection Hrun as Hrun. rewrite Hrun. cbv zeta.
  assert (H0 : Qltb 0 (poseJumpCooldownTimer m) = true).
  { apply Qltb_true. assert (0 < 1 / 60) by by_evaluation. lra. }
  assert (H1 : Qleb (poseJumpCooldownTimer m - 1 / 60) 0 = false).
  { apply Qleb_false. lra. }
  rewrite H0, H1.
  match goal with
  | |- context [match ?o with Some _ => _ | None => _ end] => destruct o
  end; reflexivity.
Qed.

Lemma handlePoseUpdate_idle (normX normShoulderY : Q) (m : Main) :
  option_map Game.isRunning (game m) <> Some true ->
  handlePoseUpdate normX normShoulderY m = m.
Proof.
  intro Hidle. unfold handlePoseUpdate.
  destruct (game m) as [g |]; [| reflexivity].
  cbn in Hidle. destruct (Game.isRunning g); [congruence | reflexivity].
Qed.

(** C3, as stated, fails: one second of simulation, more than the 0.7 s
    cooldown, with no pose sample leaves the timer at the value at which the
    jump started it, above 0, while the game is still running. *)
Lemma pose_cooldown_by_tick_counterexample :
  poseJumpCooldownTimer page_after_pose_jump = POSE_JUMP_COOLDOWN /\
  POSE_JUMP_COOLDOWN <= total [1.0] /\
  option_map Game.isRunning
    (game (frames flat_sine [(1.0, 0.5)] page_after_pose_jump)) = Some true /\
  poseJumpCooldownTimer (frames flat_sine [(1.0, 0.5)] page_after_pose_jump)
  = POSE_JUMP_COOLDOWN /\
  0 < poseJumpCooldownTimer (frames flat_sine [(1.0, 0.5)] page_after_pose_jump).
Proof.
  split; [by_evaluation |]. split; [by_evaluation |].
  split; [by_evaluation |]. split; by_evaluation.
Qed.

(** C3, amended: the pose-jump cooldown timer is counted down by pose
    samples, not by simulation ticks.  Any run of ticks leaves it unchanged;
    a pose sample handled while the game is running lowers a timer above 1/60
    by exactly 1/60, whatever time has passed; a sample that arrives while
    no game is running changes nothing. *)
Theorem pose_cooldown_per_sample (Msin : Q -> Q) (m : Main) :
  (forall ticks : list (Q * Q),
      poseJumpCooldownTimer (frames Msin ticks m) = poseJumpCooldownTimer m) /\
  (forall normX normShoulderY : Q,
      option_map Game.isRunning (game m) = Some true ->
      1 / 60 < poseJumpCooldownTimer m ->
      poseJumpCooldownTimer (handlePoseUpdate normX normShoulderY m)
      = poseJumpCooldownTimer m - 1 / 60) /\
  (forall normX normShoulderY : Q,
      option_map Game.isRunning (game m) <> Some true ->
      handlePoseUpdate normX normShoulderY m = m).
Proof.
  split; [| split].
  - intro ticks. apply frames_timer.
  - intros nx ny. apply handlePoseUpdate_counts_down.
  - intros nx ny. apply handlePoseUpdate_idle.
Qed.

(** After the pose jump the timer is 0.7: a further sample brings it to
    0.7 - 1/60, a tick of one second does not move it. *)
Lemma pose_cooldown_per_sample_witness :
  option_map Game.isRunning (game page_after_pose_jump) = Some true /\
  1 / 60 < poseJumpCooldownTimer page_after_pose_jump /\
  poseJumpCooldownTimer (handlePoseUpdate 0.5 0.4 page_after_pose_jump)
  = poseJumpCooldownTimer page_after_pose_jump - 1 / 60 /\
  poseJumpCooldownTimer (frames flat_sine [(1.0, 0.5)] page_after_pose_jump)
  = poseJumpCooldownTimer page_after_pose_jump.
Proof.
  assert (Hrun : option_map Game.isRunning (game page_after_pose_jump)
                 = Some true) by by_evaluation.
  assert (Hpos : 1 / 60 < poseJumpCooldownTimer page_after_pose_jump)
    by by_evaluation.
  destruct (pose_cooldown_per_sample flat_sine page_after_pose_jump)
    as (Hticks & Hsample & _).
  split; [exact Hrun | split; [exact Hpos | split]].
  - exact (Hsample 0.5 0.4 Hrun Hpos).
  - exact (Hticks [(1.0, 0.5)]).
Defined.

End MainSpec.

(** ** The player: cooldown, height, lane movement, reset *)

Module PlayerMotion.

Import Player.

Section MotionFacts.

Variable Msin : Q -> Q.

(** One update of a player on cooldown: the timer goes down by the delta,
    and the cooldown ends when it reaches 0. *)
Lemma update_on_cooldown (dt : Q) (p : Player) :
  isOnCooldown p = true ->
  (0 < fl64 (cooldownTimer p - dt) ->
   isOnCooldown (update Msin dt p) = true /\
   cooldownTimer (update Msin dt p) = fl64 (cooldownTimer p - dt)) /\
  (fl64 (cooldownTimer p - dt) <= 0 ->
   isOnCooldown (update Msin dt p) = false /\
   cooldownTimer (update Msin dt p) = 0).
Proof.
  intro Hc. destruct (PlayerSpec.update_cooldown Msin dt p) as (-> & ->).
  unfold cooldown_step. rewrite Hc.
  destruct (Qleb (fl64 (cooldownTimer p - dt)) 0) eqn:E; cbn.
  - apply Qleb_true in E. split; [intro H; exfalso; lra | auto].
  - apply Qleb_false in E. split; [auto | intro H; exfalso; lra].
Qed.

(** While the timer, as the code counts it down, stays above 0 the
    cooldown goes on. *)
Lemma updates_on_cooldown (dts : list Q) :
  forall p : Player,
    isOnCooldown p = true ->
    (forall k : nat,
        (k < length dts)%nat ->
        0 < counted_down (cooldownTimer p) (firstn (S k) dts)) ->
    isOnCooldown (updates Msin dts p) = true /\
    cooldownTimer (updates Msin dts p) = counted_down (cooldownTimer p) dts.
Proof.
  induction dts as [| d r IH]; intros p Hc Hlt; cbn.
  - split; [exact Hc | reflexivity].
  - destruct (update_on_cooldown d p Hc) as (Hon & _).
    destruct Hon as (Hc1 & Ht1); [apply (Hlt 0%nat); cbn; lia |].
    fold (updates Msin r (update Msin d p)).
    destruct (IH (update Msin d p) Hc1) as (Hc2 & Ht2).
    { intros k Hk. rewrite Ht1. apply (Hlt (S k)). cbn. lia. }
    split; [exact Hc2 |]. rewrite Ht2, Ht1. reflexivity.
Qed.

End MotionFacts.

(** X1: a lane-change cooldown runs on the timer the code counts down: the
    deltas subtracted tick by tick, each difference a double.  For a player
    on cooldown and any run of updates: while the counted-down timer stays
    above 0 the player stays on cooldown and every [setTargetLane] is
    without effect; the first update at which it is 0 or less ends the
    cooldown and leaves the timer at 0. *)
Theorem lane_cooldown_lifecycle
    (Msin : Q -> Q) (p : Player) (dts : list Q) (dt : Q) :
  isOnCooldown p = true ->
  (forall k : nat,
      (k < length dts)%nat ->
      0 < counted_down (cooldownTimer p) (firstn (S k) dts)) ->
  counted_down (cooldownTimer p) (dts ++ [dt]) <= 0 ->
  (forall (k : nat) (laneIndex : Z),
      isOnCooldown (updates Msin (firstn k dts) p) = true /\
      setTargetLane laneIndex (updates Msin (firstn k dts) p)
      = updates Msin (firstn k dts) p) /\
  cooldownTimer (updates Msin dts p) = counted_down (cooldownTimer p) dts /\
  isOnCooldown (updates Msin (dts ++ [dt]) p) = false /\
  cooldownTimer (updates Msin (dts ++ [dt]) p) = 0.
Proof.
  intros Hc Hlt Hle. split; [| split].
  - intros k l.
    destruct (updates_on_cooldown Msin (firstn k dts) p Hc) as (Hk & _).
    + intros j Hj.
      destruct (PlayerSpec.firstn_prefix k j dts Hj) as (-> & Hlen).
      now apply Hlt.
    + split; [exact Hk | now apply PlayerSpec.setTargetLane_on_cooldown].
  - now apply updates_on_cooldown.
  - destruct (updates_on_cooldown Msin dts p Hc Hlt) as (Hon & Ht).
    rewrite PlayerSpec.updates_app. cbn.
    destruct (update_on_cooldown Msin dt (updates Msin dts p) Hon) as (_ & Hend).
    apply Hend. rewrite Ht.
    unfold counted_down in *. rewrite fold_left_app in Hle. exact Hle.
Qed.

(** After a lane change the cooldown is 1.0 s.  In ticks of 0.1 s the
    counted-down timer is still above 0 after the tenth tick, so the player
    is on cooldown and a lane change is refused; the eleventh tick ends the
    cooldown. *)
Lemma lane_cooldown_lifecycle_witness :
  isOnCooldown (setTargetLane 0 Player.new) = true /\
  (forall k : nat,
      (k < length (ticks 10 0.1))%nat ->
      0 < counted_down (cooldownTimer (setTargetLane 0 Player.new))
                       (firstn (S k) (ticks 10 0.1))) /\
  counted_down (cooldownTimer (setTargetLane 0 Player.new))
               (ticks 10 0.1 ++ [fl64 0.1]) <= 0 /\
  setTargetLane 2 (updates flat_sine (ticks 10 0.1) (setTargetLane 0 Player.new))
  = updates flat_sine (ticks 10 0.1) (setTargetLane 0 Player.new) /\
  isOnCooldown
    (updates flat_sine (ticks 10 0.1 ++ [fl64 0.1]) (setTargetLane 0 Player.new))
  = false.
Proof.
  assert (Hc : isOnCooldown (setTargetLane 0 Player.new) = true)
    by reflexivity.
  assert (Hlt : forall k : nat,
             (k < length (ticks 10 0.1))%nat ->
             0 < counted_down (cooldownTimer (setTargetLane 0 Player.new))
                              (firstn (S k) (ticks 10 0.1))).
  { intros k Hk.
    do 10 (destruct k as [| k]; [by_evaluation |]).
    exfalso. revert Hk. unfold ticks. rewrite repeat_length. lia. }
  assert (Hle : counted_down (cooldownTimer (setTargetLane 0 Player.new))
                             (ticks 10 0.1 ++ [fl64 0.1]) <= 0)
    by by_evaluation.
  destruct (lane_cooldown_lifecycle flat_sine (setTargetLane 0 Player.new)
              (ticks 10 0.1) (fl64 0.1) Hc Hlt Hle) as (Hrun & _ & Hend & _).
  split; [exact Hc |]. split; [exact Hlt |]. split; [exact Hle |].
  split; [| exact Hend].
  exact (proj2 (Hrun 10%nat 2%Z)).
Defined.

Section HeightFacts.

Variable Msin : Q -> Q.

(** The height after [update] is the one the jump block leaves. *)
Lemma update_height (dt : Q) (p : Player) :
  y (position (update Msin dt p))
  = y (position (jump_step dt (cooldown_step dt (bounce_step Msin dt p)))).
Proof.
  unfold update. cbn [set_z set_position position y].
  now destruct (PlayerSpec.lane_step_jump dt
                  (jump_step dt (cooldown_step dt (bounce_step Msin dt p))))
    as (_ & _ & -> & _).
Qed.

(** The arc of the jump block: between base and apex, and at the apex at
    half the duration. *)
Lemma jump_step_height (dt : Q) (p : Player) :
  isJumping p = true ->
  jumpStartY p <= jumpApexY p ->
  0 < jumpDuration p ->
  0 <= jumpTimer p + dt ->
  jumpStartY p <= y (position (jump_step dt p)) /\
  y (position (jump_step dt p)) <= jumpApexY p /\
  (fl64 (jumpTimer p + dt) == jumpDuration p / 2 ->
   y (position (jump_step dt p)) == jumpApexY p).
Proof.
  intros Hj Hapex Hd Ht0. unfold jump_step. rewrite Hj. cbv zeta.
  pose proof (Rounding.fl64_nonneg _ Ht0) as Ht.
  set (t := fl64 (jumpTimer p + dt)) in *.
  assert (Hq : 0 <= t / jumpDuration p).
  { apply Qle_shift_div_l; [exact Hd | lra]. }
  pose proof (Q.le_min_l 1 (t / jumpDuration p)) as Hmax.
  assert (Hmin : 0 <= Qmin 1 (t / jumpDuration p)).
  { apply Q.min_glb; [lra | exact Hq]. }
  destruct (Qleb (jumpDuration p) t) eqn:E;
    cbn [y position set_y set_position set_jump set_bounceTimer].
  - apply Qleb_true in E.
    split; [apply Qle_refl | split; [exact Hapex |]].
    intro Hhalf. exfalso. rewrite Hhalf in E.
    assert (jumpDuration p / 2 < jumpDuration p)
      by (apply Qlt_shift_div_r; lra).
    lra.
  - apply Qleb_false in E.
    set (progress := Qmin 1 (t / jumpDuration p)) in *.
    assert (Hrise : 0 <= (jumpApexY p - jumpStartY p)
                         * (progress * (1 - progress))).
    { apply Qmult_le_0_compat; [lra |]. apply Qmult_le_0_compat; lra. }
    assert (Hsq : 0 <= (2 * progress - 1) * (2 * progress - 1)).
    { destruct (Qlt_le_dec (2 * progress - 1) 0) as [Hneg | Hpos].
      - setoid_replace ((2 * progress - 1) * (2 * progress - 1))
          with ((1 - 2 * progress) * (1 - 2 * progress)) by ring.
        apply Qmult_le_0_compat; lra.
      - apply Qmult_le_0_compat; lra. }
    assert (Hcap : 0 <= (jumpApexY p - jumpStartY p)
                        * ((2 * progress - 1) * (2 * progress - 1))).
    { apply Qmult_le_0_compat; [lra | exact Hsq]. }
    split; [lra | split; [lra |]].
    intro Hhalf.
    assert (Hprog : progress == 1 / 2).
    { unfold progress. rewrite Q.min_r.
      - rewrite Hhalf. field. lra.
      - apply Qle_shift_div_r; [exact Hd | lra]. }
    rewrite Hprog. field.
Qed.

End HeightFacts.

(** X2: the player never sinks below its base height.  With the apex at
    least the base, a positive jump duration and a jump timer that does not
    go negative, the height after [update] is at least [jumpStartY]; for a
    jumping player it is at most [jumpApexY], and it is [jumpApexY] when the
    timer, as the code adds it up, reaches half the duration; for a running
    player, with a sine bounded by 1 and a bounce height at least 0, it is
    at most [jumpStartY + bounceHeight]. *)
Theorem player_height_bounds (Msin : Q -> Q) (dt : Q) (p : Player) :
  jumpStartY p <= jumpApexY p ->
  0 < jumpDuration p ->
  0 <= jumpTimer p + dt ->
  jumpStartY p <= y (position (update Msin dt p)) /\
  (isJumping p = true ->
   y (position (update Msin dt p)) <= jumpApexY p /\
   (fl64 (jumpTimer p + dt) == jumpDuration p / 2 ->
    y (position (update Msin dt p)) == jumpApexY p)) /\
  (isJumping p = false ->
   (forall t : Q, Qabs (Msin t) <= 1) -> 0 <= bounceHeight p ->
   y (position (update Msin dt p)) <= jumpStartY p + bounceHeight p).
Proof.
  intros Hapex Hd Ht. rewrite update_height.
  destruct (isJumping p) eqn:Hj.
  - rewrite (PlayerSpec.bounce_step_jumping Msin dt p Hj).
    destruct (PlayerSpec.cooldown_step_rest dt p)
      as (_ & _ & _ & Cj & Ct & Cs & Ca & Cd).
    rewrite Hj in Cj.
    destruct (jump_step_height dt (cooldown_step dt p) Cj)
      as (Hlow & Hhigh & Hpeak); try (rewrite ?Cs, ?Ca, ?Cd, ?Ct; assumption).
    rewrite Cs in Hlow. rewrite Ca in Hhigh. rewrite Ct, Cd, Ca in Hpeak.
    split; [exact Hlow | split; [auto | intro; discriminate]].
  - assert (Hy : y (position
                      (jump_step dt (cooldown_step dt (bounce_step Msin dt p))))
                 = jumpStartY p
                   + Qabs (Msin (bounceTimer p + dt * bounceSpeed p)
                           * bounceHeight p)).
    { destruct (PlayerSpec.cooldown_step_rest dt (bounce_step Msin dt p))
        as (Cp & _ & _ & Cj & _).
      destruct (PlayerSpec.bounce_step_lanes Msin dt p)
        as (_ & _ & _ & Bj & _).
      unfold jump_step. rewrite Cj, Bj, Hj, Cp.
      unfold bounce_step. rewrite Hj. reflexivity. }
    rewrite Hy.
    pose proof (Qabs_nonneg (Msin (bounceTimer p + dt * bounceSpeed p)
                             * bounceHeight p)) as Hn.
    split; [lra | split; [intro; discriminate |]].
    intros _ Hsin Hb.
    rewrite Qabs_Qmult.
    specialize (Hsin (bounceTimer p + dt * bounceSpeed p)).
    pose proof (Qabs_nonneg (Msin (bounceTimer p + dt * bounceSpeed p))) as Hs.
    rewrite (Qabs_pos (bounceHeight p) Hb). nra.
Qed.

(** A jump from rest (base 1.75, apex 4.55, duration 1.2): after 0.6 s the
    player is at the apex. *)
Lemma player_height_bounds_witness :
  jumpStartY (jump Player.new) <= jumpApexY (jump Player.new) /\
  0 < jumpDuration (jump Player.new) /\
  0 <= jumpTimer (jump Player.new) + 0.6 /\
  fl64 (jumpTimer (jump Player.new) + 0.6)
  == jumpDuration (jump Player.new) / 2 /\
  y (position (update flat_sine 0.6 (jump Player.new)))
  == jumpApexY (jump Player.new).
Proof.
  assert (Hapex : jumpStartY (jump Player.new) <= jumpApexY (jump Player.new))
    by by_evaluation.
  assert (Hd : 0 < jumpDuration (jump Player.new)) by by_evaluation.
  assert (Ht : 0 <= jumpTimer (jump Player.new) + 0.6) by by_evaluation.
  assert (Hhalf : fl64 (jumpTimer (jump Player.new) + 0.6)
                  == jumpDuration (jump Player.new) / 2) by by_evaluation.
  destruct (player_height_bounds flat_sine 0.6 (jump Player.new) Hapex Hd Ht)
    as (_ & Hjump & _).
  split; [exact Hapex |]. split; [exact Hd |]. split; [exact Ht |].
  split; [exact Hhalf |].
  exact (proj2 (Hjump eq_refl) Hhalf).
Defined.

(** *** Lane movement as a contraction *)

Lemma Qabs_cases (a : Q) :
  (0 <= a /\ Qabs a == a) \/ (a < 0 /\ Qabs a == - a).
Proof.
  destruct (Qlt_le_dec a 0) as [Hneg | Hpos].
  - right. split; [exact Hneg | apply Qabs_neg; lra].
  - left. split; [exact Hpos | now apply Qabs_pos].
Qed.

(** A step [d * k] that is not longer than the distance [d] has [k <= 1]. *)
Lemma step_factor (d k : Q) :
  0 <= k -> 0 < Qabs d -> Qabs (d * k) <= Qabs d -> k <= 1.
Proof.
  intros Hk Hd Hstep. rewrite Qabs_Qmult, (Qabs_pos k Hk) in Hstep.
  destruct (Qlt_le_dec 1 k) as [Hbig | Hok]; [| exact Hok].
  exfalso.
  assert (Qabs d * 1 < Qabs d * k) by (apply Qmult_lt_l; assumption).
  lra.
Qed.

(** Moving by [d * k] with [0 <= k <= 1] stays between the start and the
    target and does not lengthen the distance. *)
Lemma step_between (d k : Q) :
  0 <= k -> k <= 1 ->
  Qabs (d - d * k) <= Qabs d /\
  (0 <= d -> 0 <= d * k /\ d * k <= d) /\
  (d <= 0 -> d <= d * k /\ d * k <= 0).
Proof.
  intros Hk0 Hk1.
  assert (Hfac : d - d * k == d * (1 - k)) by ring.
  split; [| split].
  - rewrite Hfac, Qabs_Qmult, (Qabs_pos (1 - k)) by lra.
    pose proof (Qabs_nonneg d). nra.
  - intro Hd. split; nra.
  - intro Hd. split; nra.
Qed.

(** The lane-movement block for a delta at least 0. *)
Lemma lane_step_approaches (dt : Q) (p : Player) (targetX px0 : Q) :
  LANES_at (targetLane p) = Some targetX ->
  x (position p) = Some px0 ->
  0 <= dt ->
  exists px1 : Q,
    x (position (lane_step dt p)) = Some px1 /\
    Qabs (targetX - px1) <= Qabs (targetX - px0) /\
    (px0 <= targetX -> px0 <= px1 /\ px1 <= targetX) /\
    (targetX <= px0 -> targetX <= px1 /\ px1 <= px0) /\
    (0.01 < Qabs (targetX - px0) -> 25 * dt <= 1 ->
     targetX - px1 == (targetX - px0) * (1 - 25 * dt)) /\
    (1 <= 25 * dt -> px1 == targetX).
Proof.
  intros Ht Hx Hdt. unfold lane_step. rewrite Ht, Hx.
  unfold num_sub. cbv zeta.
  assert (Hzero : Qabs (targetX - targetX) <= Qabs (targetX - px0)).
  { setoid_replace (targetX - targetX) with 0 by ring.
    apply Qabs_nonneg. }
  assert (Hk : 0 <= 25.0 * dt) by lra.
  destruct (Qltb 0.01 (Qabs (targetX - px0))) eqn:Efar.
  - apply Qltb_true in Efar.
    destruct (Qltb (Qabs (targetX - px0))
                   (Qabs ((targetX - px0) * 25.0 * dt))) eqn:Eover.
    + (* the step would overshoot: snap to the target *)
      apply Qltb_true in Eover.
      exists targetX. cbn [x position set_x set_position].
      split; [reflexivity | split; [exact Hzero |]].
      split; [intro; split; lra |]. split; [intro; split; lra |].
      split; [| intro; reflexivity].
      intros _ Hsmall. exfalso.
      setoid_replace ((targetX - px0) * 25.0 * dt)
        with ((targetX - px0) * (25.0 * dt)) in Eover by ring.
      rewrite Qabs_Qmult, (Qabs_pos (25.0 * dt) Hk) in Eover.
      pose proof (Qabs_nonneg (targetX - px0)). nra.
    + (* a proportional step *)
      apply Qltb_false in Eover.
      exists (px0 + (targetX - px0) * 25.0 * dt).
      cbn [x position set_x set_position option_map].
      assert (Hm : (targetX - px0) * 25.0 * dt
                   == (targetX - px0) * (25.0 * dt)) by ring.
      assert (Hk1 : 25.0 * dt <= 1).
      { apply (step_factor (targetX - px0)); [exact Hk | lra |].
        now rewrite <- Hm. }
      destruct (step_between (targetX - px0) (25.0 * dt) Hk Hk1)
        as (Hshort & Hup & Hdown).
      split; [reflexivity | split].
      * setoid_replace (targetX - (px0 + (targetX - px0) * 25.0 * dt))
          with (targetX - px0 - (targetX - px0) * (25.0 * dt)) by ring.
        exact Hshort.
      * split; [intro Hle; destruct Hup as (? & ?); [lra |]; split; lra |].
        split; [intro Hle; destruct Hdown as (? & ?); [lra |]; split; lra |].
        split; [intros _ _; ring |].
        intro Hbig. assert (Hone : 25.0 * dt == 1) by lra.
        rewrite Hm, Hone. ring.
  - (* within the epsilon: snap to the target *)
    apply Qltb_false in Efar.
    exists targetX. cbn [x position set_x set_position set_currentLane].
    split; [reflexivity | split; [exact Hzero |]].
    split; [intro; split; lra |]. split; [intro; split; lra |].
    split; [intros Hfar _; exfalso; lra | intro; reflexivity].
Qed.

Lemma update_approaches
    (Msin : Q -> Q) (dt : Q) (p : Player) (targetX px0 : Q) :
  LANES_at (targetLane p) = Some targetX ->
  x (position p) = Some px0 ->
  0 <= dt ->
  exists px1 : Q,
    x (position (update Msin dt p)) = Some px1 /\
    Qabs (targetX - px1) <= Qabs (targetX - px0) /\
    (px0 <= targetX -> px0 <= px1 /\ px1 <= targetX) /\
    (targetX <= px0 -> targetX <= px1 /\ px1 <= px0) /\
    (0.01 < Qabs (targetX - px0) -> 25 * dt <= 1 ->
     targetX - px1 == (targetX - px0) * (1 - 25 * dt)) /\
    (1 <= 25 * dt -> px1 == targetX).
Proof.
  intros Ht Hx Hdt.
  destruct (PlayerSpec.before_lane_step Msin dt p) as (Et & _ & Ex).
  destruct (PlayerSpec.update_lanes Msin dt p) as (-> & _ & _).
  apply lane_step_approaches; [now rewrite Et | now rewrite Ex | exact Hdt].
Qed.

(** X3: for a delta at least 0, [update] moves x towards the target
    lane's x and never past it: the new x lies between the old x and the
    target and is not farther from the target.  Outside the 0.01 epsilon and
    with [25 * dt <= 1] the distance shrinks by the factor [1 - 25 * dt];
    with [25 * dt >= 1] one update reaches the target's x. *)
Theorem lane_movement_approaches
    (Msin : Q -> Q) (dt : Q) (p : Player) (targetX px0 : Q) :
  LANES_at (targetLane p) = Some targetX ->
  x (position p) = Some px0 ->
  0 <= dt ->
  exists px1 : Q,
    x (position (update Msin dt p)) = Some px1 /\
    Qabs (targetX - px1) <= Qabs (targetX - px0) /\
    (px0 <= targetX -> px0 <= px1 /\ px1 <= targetX) /\
    (targetX <= px0 -> targetX <= px1 /\ px1 <= px0) /\
    (0.01 < Qabs (targetX - px0) -> 25 * dt <= 1 ->
     targetX - px1 == (targetX - px0) * (1 - 25 * dt)) /\
    (1 <= 25 * dt -> px1 == targetX).
Proof. apply update_approaches. Qed.

(** From the middle lane towards lane 2 with a tick of 0.02 s: x goes from
    0 to 1.25, half of the way. *)
Lemma lane_movement_approaches_witness :
  LANES_at (targetLane (setTargetLane 2 Player.new)) = Some 2.5 /\
  x (position (setTargetLane 2 Player.new)) = Some 0 /\
  0 <= 0.02 /\
  exists px1 : Q,
    x (position (update flat_sine 0.02 (setTargetLane 2 Player.new)))
    = Some px1 /\
    2.5 - px1 == (2.5 - 0) * (1 - 25 * 0.02).
Proof.
  assert (Ht : LANES_at (targetLane (setTargetLane 2 Player.new)) = Some 2.5)
    by reflexivity.
  assert (Hx : x (position (setTargetLane 2 Player.new)) = Some 0)
    by reflexivity.
  assert (Hdt : 0 <= 0.02) by by_evaluation.
  destruct (lane_movement_approaches flat_sine 0.02
              (setTargetLane 2 Player.new) 2.5 0 Ht Hx Hdt)
    as (px1 & H1 & _ & _ & _ & Hfac & _).
  split; [exact Ht |]. split; [exact Hx |]. split; [exact Hdt |].
  exists px1. split; [exact H1 |].
  apply Hfac; by_evaluation.
Defined.

(** *** Lane changes complete *)

Section ArrivalFacts.

Variable Msin : Q -> Q.

(** Within the epsilon the lane movement snaps: x is the target's x and
    [currentLane] is the target lane. *)
Lemma update_near (dt : Q) (p : Player) (targetX px0 : Q) :
  LANES_at (targetLane p) = Some targetX ->
  x (position p) = Some px0 ->
  Qabs (targetX - px0) <= 0.01 ->
  x (position (update Msin dt p)) = Some targetX /\
  currentLane (update Msin dt p) = targetLane p.
Proof.
  intros Ht Hx Hnear.
  destruct (PlayerSpec.before_lane_step Msin dt p) as (Et & _ & Ex).
  destruct (PlayerSpec.update_lanes Msin dt p) as (-> & -> & _).
  unfold lane_step. rewrite Et, Ex, Ht, Hx. unfold num_sub. cbv zeta.
  apply Qltb_false in Hnear. rewrite Hnear. cbn. auto.
Qed.

(** Once on the target's x, the player stays there, in the target lane,
    through any further updates. *)
Lemma updates_settled (dts : list Q) :
  forall (p : Player) (targetX : Q),
    LANES_at (targetLane p) = Some targetX ->
    x (position p) = Some targetX ->
    currentLane p = targetLane p ->
    x (position (updates Msin dts p)) = Some targetX /\
    currentLane (updates Msin dts p) = targetLane p /\
    targetLane (updates Msin dts p) = targetLane p.
Proof.
  induction dts as [| d r IH]; intros p targetX Ht Hx Hc; cbn; [auto |].
  fold (updates Msin r (update Msin d p)).
  assert (Hnear : Qabs (targetX - targetX) <= 0.01).
  { setoid_replace (targetX - targetX) with 0 by ring. by_evaluation. }
  destruct (update_near d p targetX targetX Ht Hx Hnear) as (Hx1 & Hc1).
  pose proof (PlayerSpec.update_targetLane Msin d p) as Ht1.
  destruct (IH (update Msin d p) targetX) as (Hx2 & Hc2 & Ht2);
    try congruence.
  repeat split; congruence.
Qed.

(** With every delta between [dmin] and 1/25, each update outside the
    epsilon shortens the distance by the factor [1 - 25 * dmin] at least; so
    [n + 1] updates suffice when [n] such factors bring the distance within
    the epsilon. *)
Lemma updates_arrive (dmin : Q) (n : nat) :
  0 <= dmin ->
  forall (dts : list Q) (p : Player) (targetX px0 : Q),
    (n < length dts)%nat ->
    Forall (fun d => dmin <= d /\ 25 * d <= 1) dts ->
    LANES_at (targetLane p) = Some targetX ->
    x (position p) = Some px0 ->
    Qabs (targetX - px0) * Qpow (1 - 25 * dmin) n <= 0.01 ->
    x (position (updates Msin dts p)) = Some targetX /\
    currentLane (updates Msin dts p) = targetLane p.
Proof.
  intro Hmin. induction n as [| n IH];
    intros dts p targetX px0 Hlen Hok Ht Hx Hdist;
    (destruct dts as [| d r]; [cbn in Hlen; lia |]);
    inversion Hok as [| ? ? (Hd & Hd1) Hr]; subst;
    cbn [updates fold_left]; fold (updates Msin r (update Msin d p));
    pose proof (PlayerSpec.update_targetLane Msin d p) as Ht1;
    cbn [Qpow] in Hdist.
  - assert (Hnear : Qabs (targetX - px0) <= 0.01) by lra.
    destruct (update_near d p targetX px0 Ht Hx Hnear) as (Hx1 & Hc1).
    destruct (updates_settled r (update Msin d p) targetX)
      as (Hx2 & Hc2 & _); try congruence.
    split; congruence.
  - destruct (Qlt_le_dec 0.01 (Qabs (targetX - px0))) as [Hfar | Hnear].
    + destruct (update_approaches Msin d p targetX px0 Ht Hx)
        as (px1 & Hx1 & _ & _ & _ & Hfac & _); [lra |].
      specialize (Hfac Hfar Hd1).
      rewrite <- Ht1.
      apply (IH r (update Msin d p) targetX px1);
        [cbn in Hlen; lia | exact Hr | congruence | exact Hx1 |].
      rewrite Hfac, Qabs_Qmult, (Qabs_pos (1 - 25 * d)) by lra.
      assert (Hpow : 0 <= Qpow (1 - 25 * dmin) n).
      { clear - Hmin Hd Hd1. induction n as [| n IHn]; cbn [Qpow]; [lra |].
        apply Qmult_le_0_compat; [lra | exact IHn]. }
      pose proof (Qabs_nonneg (targetX - px0)) as Habs.
      assert (Hstep : Qabs (targetX - px0) * (1 - 25 * d)
                      <= Qabs (targetX - px0) * (1 - 25 * dmin)).
      { nra. }
      assert (Hmul : Qabs (targetX - px0) * (1 - 25 * d)
                       * Qpow (1 - 25 * dmin) n
                     <= Qabs (targetX - px0) * (1 - 25 * dmin)
                          * Qpow (1 - 25 * dmin) n).
      { apply Qmult_le_compat_r; assumption. }
      lra.
    + destruct (update_near d p targetX px0 Ht Hx Hnear) as (Hx1 & Hc1).
      destruct (updates_settled r (update Msin d p) targetX)
        as (Hx2 & Hc2 & _); try congruence.
      split; congruence.
Qed.

End ArrivalFacts.

(** X4: a lane change completes.  With every delta between [dmin] and
    1/25 s, [n + 1] or more updates bring x onto the target lane's x and make
    [currentLane] the target lane, as soon as the distance times
    [(1 - 25 * dmin)] to the power [n] is within the 0.01 epsilon. *)
Theorem lane_change_completes
    (Msin : Q -> Q) (dmin : Q) (n : nat) (dts : list Q) (p : Player)
    (targetX px0 : Q) :
  0 <= dmin ->
  (n < length dts)%nat ->
  Forall (fun d => dmin <= d /\ 25 * d <= 1) dts ->
  LANES_at (targetLane p) = Some targetX ->
  x (position p) = Some px0 ->
  Qabs (targetX - px0) * Qpow (1 - 25 * dmin) n <= 0.01 ->
  x (position (updates Msin dts p)) = Some targetX /\
  currentLane (updates Msin dts p) = targetLane p.
Proof. intro Hmin. now apply updates_arrive. Qed.

(** At 50 frames a second the factor is 1/2: from the middle lane to lane 2
    the distance 2.5 is within the epsilon after 8 halvings, and the ninth
    update completes the change. *)
Lemma lane_change_completes_witness :
  0 <= 0.02 /\
  Nat.lt 8 (length [0.02; 0.02; 0.02; 0.02; 0.02; 0.02; 0.02; 0.02; 0.02]) /\
  Forall (fun d => 0.02 <= d /\ 25 * d <= 1)
         [0.02; 0.02; 0.02; 0.02; 0.02; 0.02; 0.02; 0.02; 0.02] /\
  LANES_at (targetLane (setTargetLane 2 Player.new)) = Some 2.5 /\
  x (position (setTargetLane 2 Player.new)) = Some 0 /\
  Qabs (2.5 - 0) * Qpow (1 - 25 * 0.02) 8 <= 0.01 /\
  currentLane
    (updates flat_sine [0.02; 0.02; 0.02; 0.02; 0.02; 0.02; 0.02; 0.02; 0.02]
       (setTargetLane 2 Player.new)) = 2%Z.
Proof.
  assert (Hmin : 0 <= 0.02) by by_evaluation.
  assert (Hlen : Nat.lt 8 (length [0.02; 0.02; 0.02; 0.02; 0.02; 0.02; 0.02;
                                  0.02; 0.02])) by (cbn; lia).
  assert (Hok : Forall (fun d => 0.02 <= d /\ 25 * d <= 1)
                  [0.02; 0.02; 0.02; 0.02; 0.02; 0.02; 0.02; 0.02; 0.02])
    by (repeat constructor; by_evaluation).
  assert (Ht : LANES_at (targetLane (setTargetLane 2 Player.new)) = Some 2.5)
    by reflexivity.
  assert (Hx : x (position (setTargetLane 2 Player.new)) = Some 0)
    by reflexivity.
  assert (Hd : Qabs (2.5 - 0) * Qpow (1 - 25 * 0.02) 8 <= 0.01)
    by by_evaluation.
  split; [exact Hmin |]. split; [exact Hlen |]. split; [exact Hok |].
  split; [exact Ht |]. split; [exact Hx |]. split; [exact Hd |].
  exact (proj2 (lane_change_completes flat_sine 0.02 8 _
                  (setTargetLane 2 Player.new) 2.5 0
                  Hmin Hlen Hok Ht Hx Hd)).
Defined.

(** *** Reset *)

Section ResetFacts.

Variable Msin : Q -> Q.

Lemma same_constants_trans (p q r : Player) :
  same_constants p q -> same_constants q r -> same_constants p r.
Proof.
  unfold same_constants.
  intros (A1 & A2 & A3 & A4 & A5) (B1 & B2 & B3 & B4 & B5).
  repeat split; congruence.
Qed.

Lemma bounce_step_constants (dt : Q) (p : Player) :
  same_constants p (bounce_step Msin dt p).
Proof.
  unfold same_constants, bounce_step. split_ifs; cbn; auto 6.
Qed.

Lemma cooldown_step_constants (dt : Q) (p : Player) :
  same_constants p (cooldown_step dt p).
Proof.
  unfold same_constants, cooldown_step. split_ifs; cbn; auto 6.
Qed.

Lemma jump_step_constants (dt : Q) (p : Player) :
  same_constants p (jump_step dt p).
Proof.
  unfold same_constants, jump_step. cbv zeta. split_ifs; cbn; auto 6.
Qed.

Lemma lane_step_constants (dt : Q) (p : Player) :
  same_constants p (lane_step dt p).
Proof.
  unfold same_constants, lane_step. cbv zeta.
  destruct (num_sub (LANES_at (targetLane p)) (x (position p)));
    split_ifs; cbn; auto 6.
Qed.

(** No call changes the constants of a player. *)
Lemma call_constants (p : Player) (c : Call) :
  same_constants p (call Msin p c).
Proof.
  destruct c as [l | | dt]; cbn [call].
  - unfold same_constants, setTargetLane. split_ifs; cbn; auto 6.
  - unfold same_constants, jump. split_ifs; cbn; auto 6.
  - unfold update.
    apply (same_constants_trans _ _ _ (bounce_step_constants dt p)).
    apply (same_constants_trans _ _ _
             (cooldown_step_constants dt (bounce_step Msin dt p))).
    apply (same_constants_trans _ _ _
             (jump_step_constants dt
                (cooldown_step dt (bounce_step Msin dt p)))).
    apply (same_constants_trans _ _ _
             (lane_step_constants dt
                (jump_step dt (cooldown_step dt (bounce_step Msin dt p))))).
    unfold same_constants. cbn. auto 6.
Qed.

Lemma reset_by_constants (p q : Player) :
  same_constants p q -> reset q = reset p.
Proof.
  intros (H1 & H2 & H3 & H4 & H5). unfold reset.
  now rewrite H1, H2, H3, H4, H5.
Qed.

Lemma calls_constants (cs : list Call) :
  forall p : Player, same_constants p (calls Msin cs p).
Proof.
  induction cs as [| c r IH]; intro p; cbn.
  - unfold same_constants. auto 6.
  - fold (calls Msin r (call Msin p c)).
    exact (same_constants_trans _ _ _ (call_constants p c)
             (IH (call Msin p c))).
Qed.

End ResetFacts.

(** X5: [reset()] forgets everything the calls before it did: after any
    lane changes, jumps and updates, resetting gives the state that
    resetting at once would have given. *)
Theorem reset_forgets_calls
    (Msin : Q -> Q) (cs : list Call) (p : Player) :
  reset (calls Msin cs p) = reset p.
Proof. apply reset_by_constants. apply calls_constants. Qed.

End PlayerMotion.

(** ** Collision detection: order and lanes *)

Module CollisionGeometry.

Import LavaManager.

Lemma check_loop_app (player : Player.Player) (l1 l2 : list Lava) :
  check_loop player (l1 ++ l2)
  = check_loop player l1 || check_loop player l2.
Proof.
  induction l1 as [| h r IH]; cbn; [reflexivity |].
  destruct (hits player h); [reflexivity | exact IH].
Qed.

Lemma check_loop_permutation (player : Player.Player) (l l' : list Lava) :
  Permutation l l' -> check_loop player l = check_loop player l'.
Proof.
  induction 1 as [| h l l' _ IH | a b l | l l' l'' _ IH1 _ IH2]; cbn.
  - reflexivity.
  - now rewrite IH.
  - destruct (hits player a), (hits player b); reflexivity.
  - congruence.
Qed.

(** X6: the answer of [checkCollision] does not depend on the order of the
    active hazards. *)
Theorem collision_order_independent
    (lm lm' : LavaManager) (player : Player.Player) :
  Permutation (lavaHazards lm) (lavaHazards lm') ->
  checkCollision lm player = checkCollision lm' player.
Proof. intro H. unfold checkCollision. now apply check_loop_permutation. Qed.

(** A hazard at the player in its lane and one far ahead in lane 0, in
    either order: the player is hit. *)
Lemma collision_order_independent_witness :
  Permutation
    (lavaHazards (lava_with [lava_at 1 2; lava_at 0 (-50)]))
    (lavaHazards (lava_with [lava_at 0 (-50); lava_at 1 2])) /\
  checkCollision (lava_with [lava_at 1 2; lava_at 0 (-50)]) Player.new
  = checkCollision (lava_with [lava_at 0 (-50); lava_at 1 2]) Player.new.
Proof.
  assert (Hp : Permutation
                 (lavaHazards (lava_with [lava_at 1 2; lava_at 0 (-50)]))
                 (lavaHazards (lava_with [lava_at 0 (-50); lava_at 1 2])))
    by apply perm_swap.
  split; [exact Hp |].
  exact (collision_order_independent _ _ Player.new Hp).
Defined.

(** The lanes are 2.5 apart and the lane test allows 1.125: a player on the
    x of one lane is inside that lane and outside the two others. *)
Lemma lanes_apart (a b : Z) :
  (0 <= a <= 2)%Z -> (0 <= b <= 2)%Z ->
  num_abs_ltb (num_sub (LANES_at a) (LANES_at b)) (LANE_WIDTH / 2 * 0.9)
  = (a =? b)%Z.
Proof.
  intros Ha Hb.
  assert (Ea : a = 0%Z \/ a = 1%Z \/ a = 2%Z) by lia.
  assert (Eb : b = 0%Z \/ b = 1%Z \/ b = 2%Z) by lia.
  destruct Ea as [-> | [-> | ->]], Eb as [-> | [-> | ->]];
    vm_compute; reflexivity.
Qed.

Lemma hits_other_lane (player : Player.Player) (lava : Lava) :
  (0 <= Player.currentLane player <= 2)%Z ->
  Player.x (Player.position player) = LANES_at (Player.currentLane player) ->
  (0 <= lane lava <= 2)%Z ->
  lane lava <> Player.currentLane player ->
  hits player lava = false.
Proof.
  intros Hc Hx Hl Hne. unfold hits. cbv zeta.
  rewrite Hx, (lanes_apart _ _ Hc Hl).
  destruct (Z.eqb_spec (Player.currentLane player) (lane lava));
    [congruence | reflexivity].
Qed.

Lemma hits_same_lane (player : Player.Player) (lava : Lava) :
  (0 <= Player.currentLane player <= 2)%Z ->
  Player.x (Player.position player) = LANES_at (Player.currentLane player) ->
  lane lava = Player.currentLane player ->
  z_overlap player lava ->
  Player.isJumping player = false ->
  hits player lava = true.
Proof.
  intros Hc Hx Hl (Hz1 & Hz2) Hj. unfold hits. cbv zeta.
  rewrite Hx, Hl, (lanes_apart _ _ Hc Hc), Z.eqb_refl.
  apply Qleb_true in Hz1, Hz2. rewrite Hz1, Hz2, Hj. reflexivity.
Qed.

(** X7: for a player standing on the x of its lane, only hazards of that
    lane count.  If every active hazard is in another lane there is no
    collision, wherever the hazards are; if the player is not jumping, an
    active hazard of its lane that overlaps it in z is a collision. *)
Theorem collision_by_lane (lm : LavaManager) (player : Player.Player) :
  (0 <= Player.currentLane player <= 2)%Z ->
  Player.x (Player.position player) = LANES_at (Player.currentLane player) ->
  ((forall lava, In lava (lavaHazards lm) ->
                 (0 <= lane lava <= 2)%Z /\
                 lane lava <> Player.currentLane player) ->
   checkCollision lm player = false) /\
  (Player.isJumping player = false ->
   (exists lava, In lava (lavaHazards lm) /\
                 lane lava = Player.currentLane player /\
                 z_overlap player lava) ->
   checkCollision lm player = true).
Proof.
  intros Hc Hx. split.
  - intro Hother. apply not_true_is_false. intro Hhit.
    apply CollisionSpec.check_loop_iff in Hhit.
    destruct Hhit as (lava & Hin & Hh).
    destruct (Hother lava Hin) as (Hl & Hne).
    rewrite (hits_other_lane player lava Hc Hx Hl Hne) in Hh. discriminate.
  - intros Hj (lava & Hin & Hl & Hz).
    apply CollisionSpec.check_loop_iff. exists lava. split; [exact Hin |].
    now apply hits_same_lane.
Qed.

(** The resting player in the middle lane: hazards at its z in lanes 0 and
    2 do not hit it, one in lane 1 does. *)
Lemma collision_by_lane_witness :
  (0 <= Player.currentLane Player.new <= 2)%Z /\
  Player.x (Player.position Player.new)
  = LANES_at (Player.currentLane Player.new) /\
  checkCollision (lava_with [lava_at 0 2; lava_at 2 2]) Player.new = false /\
  checkCollision (lava_with [lava_at 0 2; lava_at 1 2]) Player.new = true.
Proof.
  assert (Hc : (0 <= Player.currentLane Player.new <= 2)%Z) by (cbn; lia).
  assert (Hx : Player.x (Player.position Player.new)
               = LANES_at (Player.currentLane Player.new)) by reflexivity.
  split; [exact Hc | split; [exact Hx | split]].
  - apply (proj1 (collision_by_lane _ Player.new Hc Hx)).
    intros lava [<- | [<- | []]]; cbn; lia.
  - apply (proj2 (collision_by_lane _ Player.new Hc Hx)); [reflexivity |].
    exists (lava_at 1 2). split; [right; left; reflexivity |].
    split; [reflexivity |].
    split; by_evaluation.
Defined.

End CollisionGeometry.

(** ** Hazards, particle systems and their pools *)

Module HazardPools.

Import LavaManager.

(** *** Arrays *)

Lemma pop_push {A : Type} (l : list A) (a : A) : pop (push l a) = Some (a, l).
Proof. unfold pop, push. now rewrite rev_unit, rev_involutive. Qed.

Lemma pop_some {A : Type} (l r : list A) (a : A) :
  pop l = Some (a, r) -> l = r ++ [a].
Proof.
  unfold pop. destruct (rev l) as [| b t] eqn:E; [discriminate |].
  intro H. injection H as -> <-.
  rewrite <- (rev_involutive l), E. reflexivity.
Qed.

Lemma pop_none {A : Type} (l : list A) : pop l = None -> l = [].
Proof.
  unfold pop. destruct (rev l) as [| b t] eqn:E; [| discriminate].
  intros _. rewrite <- (rev_involutive l), E. reflexivity.
Qed.

(** X8: both pools are stacks.  The particle system returned last is the
    one [getSystem] hands out next, and the lava mesh pushed last is the one
    [_createLavaMesh] reuses, made visible; either way the pool is then what
    it was before the return.  From an empty pool [getSystem] constructs a
    new system and [_createLavaMesh] a new mesh, the pool staying empty. *)
Theorem pools_are_stacks :
  (forall (s : ParticleManager.System) (pm : ParticleManager.ParticleManager),
      ParticleManager.getSystem (ParticleManager.returnSystem s pm)
      = (s,
         {| ParticleManager.particleSystems :=
              push (ParticleManager.remove_first
                      s (ParticleManager.particleSystems pm)) s;
            ParticleManager.pool := ParticleManager.pool pm;
            ParticleManager.created := ParticleManager.created pm |})) /\
  (forall (lava : Lava) (pl : list Lava),
      _createLavaMesh (push pl lava)
      = ({| lane := lane lava; lava_z := lava_z lava; visible := true;
            particleSystem := particleSystem lava |}, pl)) /\
  (forall pm : ParticleManager.ParticleManager,
      ParticleManager.pool pm = [] ->
      fst (ParticleManager.getSystem pm) = ParticleManager.created pm /\
      ParticleManager.created (snd (ParticleManager.getSystem pm))
      = S (ParticleManager.created pm) /\
      ParticleManager.pool (snd (ParticleManager.getSystem pm)) = []) /\
  (snd (_createLavaMesh []) = [] /\ visible (fst (_createLavaMesh [])) = true).
Proof.
  split; [| split; [| split]].
  - intros s pm. unfold ParticleManager.getSystem, ParticleManager.returnSystem.
    cbn [ParticleManager.pool ParticleManager.particleSystems
         ParticleManager.created].
    now rewrite pop_push.
  - intros lava pl. unfold _createLavaMesh. now rewrite pop_push.
  - intros pm Hempty. unfold ParticleManager.getSystem. rewrite Hempty.
    cbn. auto.
  - split; reflexivity.
Qed.

(** The active list [5] and the pool [[7]]: returning 5 and asking for a
    system gives 5 again. *)
Lemma pools_are_stacks_witness :
  fst (ParticleManager.getSystem
         (ParticleManager.returnSystem 5%nat
            {| ParticleManager.particleSystems := [5%nat];
               ParticleManager.pool := [7%nat];
               ParticleManager.created := 8 |})) = 5%nat.
Proof.
  destruct pools_are_stacks as (Hsys & _).
  rewrite Hsys. reflexivity.
Defined.

(** *** The number of meshes *)







(** *** Ownership of particle systems *)

Lemma remove_first_middle (s : ParticleManager.System)
    (pre post : list ParticleManager.System) :
  ~ In s pre ->
  ParticleManager.remove_first s (pre ++ s :: post) = pre ++ post.
Proof.
  induction pre as [| a r IH]; intro Hn; cbn.
  - now rewrite Nat.eqb_refl.
  - destruct (Nat.eqb_spec a s) as [-> | Hne].
    + exfalso. apply Hn. now left.
    + f_equal. apply IH. intro H. apply Hn. now right.
Qed.

(** [getSystem] hands out a system that was not active, and keeps the
    systems distinct and complete. *)
Lemma getSystem_owned (pm : ParticleManager.ParticleManager) :
  NoDup (ParticleManager.particleSystems pm ++ ParticleManager.pool pm) ->
  (forall s, In s (ParticleManager.particleSystems pm
                   ++ ParticleManager.pool pm)
             <-> (s < ParticleManager.created pm)%nat) ->
  let sys := fst (ParticleManager.getSystem pm) in
  let pm' := snd (ParticleManager.getSystem pm) in
  ParticleManager.particleSystems pm'
  = ParticleManager.particleSystems pm ++ [sys] /\
  NoDup (ParticleManager.particleSystems pm' ++ ParticleManager.pool pm') /\
  (forall s, In s (ParticleManager.particleSystems pm'
                   ++ ParticleManager.pool pm')
             <-> (s < ParticleManager.created pm')%nat).
Proof.
  intros Hnd Hall. cbv zeta. unfold ParticleManager.getSystem.
  destruct (pop (ParticleManager.pool pm)) as [[sys rest] |] eqn:E;
    cbn [fst snd ParticleManager.particleSystems ParticleManager.pool
         ParticleManager.created]; unfold push.
  - apply pop_some in E. rewrite E in Hnd, Hall.
    assert (Hperm : Permutation
                      (ParticleManager.particleSystems pm ++ rest ++ [sys])
                      ((ParticleManager.particleSystems pm ++ [sys]) ++ rest)).
    { rewrite <- app_assoc. apply Permutation_app_head.
      apply Permutation_app_comm. }
    split; [reflexivity | split].
    + exact (Permutation_NoDup Hperm Hnd).
    + intro s. rewrite <- Hall. split; intro H.
      * exact (Permutation_in s (Permutation_sym Hperm) H).
      * exact (Permutation_in s Hperm H).
  - apply pop_none in E. rewrite E, app_nil_r in Hnd, Hall.
    rewrite E, app_nil_r.
    split; [reflexivity | split].
    + apply NoDup_app; [exact Hnd | repeat constructor; intros [] |].
      intros s Hin [<- | []]. apply Hall in Hin. lia.
    + intro s. rewrite in_app_iff, Hall. cbn. lia.
Qed.

(** The loop of [update] on the hazards [hazards], whose systems [ss] are
    the active systems after [pre]: the systems of the hazards that stay are
    still the active ones after [pre], in order, and those of the hazards
    that left are at the end of the pool. *)
Lemma move_step_owned (moveZ playerZ : Q) (hazards : list Lava) :
  forall (ss pre : list ParticleManager.System) (pl : list Lava)
         (pm : ParticleManager.ParticleManager),
    map particleSystem hazards = map Some ss ->
    ParticleManager.particleSystems pm = pre ++ ss ->
    NoDup (pre ++ ss) ->
    let res := move_step moveZ playerZ hazards (pl, pm) in
    exists ss' gone : list ParticleManager.System,
      map particleSystem (fst res) = map Some ss' /\
      ParticleManager.particleSystems (snd (snd res)) = pre ++ ss' /\
      ParticleManager.pool (snd (snd res))
      = ParticleManager.pool pm ++ gone /\
      Permutation ss (ss' ++ gone) /\
      ParticleManager.created (snd (snd res)) = ParticleManager.created pm.
Proof.
  induction hazards as [| h later IH]; intros ss pre pl pm Hmap Hact Hnd;
    cbv zeta; cbn [move_step].
  - destruct ss; [| discriminate].
    exists [], []. cbn. rewrite app_nil_r in *.
    split; [reflexivity | split; [exact Hact | split]].
    + now rewrite app_nil_r.
    + split; [constructor | reflexivity].
  - destruct ss as [| s ss]; [discriminate |].
    cbn [map] in Hmap. injection Hmap as Hs Hmap.
    assert (Hact1 : ParticleManager.particleSystems pm = (pre ++ [s]) ++ ss)
      by (now rewrite <- app_assoc).
    assert (Hnd1 : NoDup ((pre ++ [s]) ++ ss))
      by (now rewrite <- app_assoc).
    destruct (IH ss (pre ++ [s]) pl pm Hmap Hact1 Hnd1)
      as (ss1 & gone1 & Hk & Ha & Hp & Hperm & Hc).
    destruct (move_step moveZ playerZ later (pl, pm)) as [kept [pl1 pm1]].
    cbn [fst snd] in *. cbv zeta.
    destruct (Qltb (playerZ + PLATFORM_DEPTH * 2) (lava_z h + moveZ)).
    + (* the hazard has passed the player *)
      rewrite Hs. cbn [fst snd].
      exists ss1, (gone1 ++ [s]).
      assert (Hfresh : ~ In s pre).
      { apply NoDup_remove_2 in Hnd. intro H. apply Hnd.
        apply in_or_app. now left. }
      unfold ParticleManager.returnSystem, push.
      cbn [ParticleManager.particleSystems ParticleManager.pool
           ParticleManager.created].
      rewrite Ha, <- app_assoc. cbn [app].
      rewrite (remove_first_middle s pre ss1 Hfresh), Hp, <- app_assoc.
      split; [exact Hk | split; [reflexivity | split; [reflexivity |]]].
      split; [| exact Hc].
      rewrite app_assoc. apply Permutation_cons_app.
      now rewrite app_nil_r.
    + (* the hazard stays *)
      cbn [fst snd map particleSystem].
      exists (s :: ss1), gone1.
      rewrite Hs, Hk, Ha, <- app_assoc. cbn [app map].
      split; [reflexivity | split; [reflexivity | split; [exact Hp |]]].
      split; [now apply perm_skip | exact Hc].
Qed.

(** The [forEach] of [reset] when the systems of the hazards are the
    active systems: all of them end in the pool. *)
Lemma reset_fold_owned (hazards : list Lava) :
  forall (ss : list ParticleManager.System) (pl : list Lava)
         (pm : ParticleManager.ParticleManager),
    map particleSystem hazards = map Some ss ->
    ParticleManager.particleSystems pm = ss ->
    snd (fold_left reset_one hazards (pl, pm))
    = {| ParticleManager.particleSystems := [];
         ParticleManager.pool := ParticleManager.pool pm ++ ss;
         ParticleManager.created := ParticleManager.created pm |}.
Proof.
  induction hazards as [| h r IH]; intros ss pl pm Hmap Hact; cbn.
  - destruct ss; [| discriminate]. destruct pm. cbn in *.
    now rewrite Hact, app_nil_r.
  - destruct ss as [| s ss]; [discriminate |].
    cbn [map] in Hmap. injection Hmap as Hs Hmap.
    unfold reset_one at 2. cbn [fst snd]. rewrite Hs.
    rewrite (IH ss); [| exact Hmap |].
    + cbn. unfold push. now rewrite <- app_assoc.
    + cbn. rewrite Hact. cbn. now rewrite Nat.eqb_refl.
Qed.

Lemma new_owned : systems_owned LavaManager.new.
Proof.
  unfold systems_owned. cbn. split; [reflexivity | split; [constructor |]].
  intro s. split; [intros [] | lia].
Qed.

Lemma reset_owned (lm : LavaManager) :
  systems_owned lm -> systems_owned (reset lm).
Proof.
  unfold systems_owned. cbv zeta. intros (Hmap & Hnd & Hall).
  unfold reset. cbn [lavaHazards particleManager]. cbv zeta.
  rewrite (reset_fold_owned _ _ _ _ Hmap eq_refl).
  rewrite LavaSpec.particle_reset_spec. cbn. rewrite app_nil_r.
  assert (Hperm : Permutation
                    (ParticleManager.particleSystems (particleManager lm)
                     ++ ParticleManager.pool (particleManager lm))
                    (ParticleManager.pool (particleManager lm)
                     ++ ParticleManager.particleSystems (particleManager lm)))
    by apply Permutation_app_comm.
  split; [reflexivity | split].
  - exact (Permutation_NoDup Hperm Hnd).
  - intro s. rewrite <- Hall. split; intro H.
    + exact (Permutation_in s (Permutation_sym Hperm) H).
    + exact (Permutation_in s Hperm H).
Qed.

Lemma spawn_step_owned (r dt pz : Q) (lm : LavaManager) :
  systems_owned lm -> systems_owned (spawn_step r dt pz lm).
Proof.
  unfold systems_owned. cbv zeta. intros (Hmap & Hnd & Hall).
  unfold spawn_step. cbv zeta.
  destruct (Qleb (spawnInterval lm) (spawnTimer lm + dt));
    [| cbn [lavaHazards particleManager]; auto].
  unfold _spawnLava.
  destruct (_createLavaMesh (pool lm)) as [lava rest].
  destruct (getSystem_owned (particleManager lm) Hnd Hall)
    as (Hact & Hnd' & Hall').
  destruct (ParticleManager.getSystem (particleManager lm)) as [sys pm].
  cbn [fst snd] in Hact, Hnd', Hall'.
  cbn [lavaHazards particleManager]. unfold push.
  rewrite map_app, Hmap. cbn [map particleSystem].
  split; [now rewrite Hact, map_app | split; assumption].
Qed.

Lemma tick_owned (lm : LavaManager) (t : Tick) :
  systems_owned lm -> systems_owned (tick lm t).
Proof.
  intro Hlm. unfold tick, update. cbv zeta.
  match goal with
  | |- context [spawn_step ?r ?dt ?pz ?l] =>
      assert (Hsp : systems_owned (spawn_step r dt pz l))
        by (apply spawn_step_owned; exact Hlm);
      set (lm1 := spawn_step r dt pz l) in *
  end.
  clearbody lm1. destruct Hsp as (Hmap & Hnd & Hall). cbv zeta in *.
  assert (Hnd0 : NoDup ([] ++ ParticleManager.particleSystems
                                (particleManager lm1))).
  { cbn. exact (NoDup_app_remove_r _ _ Hnd). }
  destruct (move_step_owned (currentSpeed t * deltaTime t) (playerZ t)
              (lavaHazards lm1)
              (ParticleManager.particleSystems (particleManager lm1)) []
              (pool lm1) (particleManager lm1) Hmap eq_refl Hnd0)
    as (ss' & gone & Hk & Ha & Hp & Hperm & Hc).
  destruct (move_step (currentSpeed t * deltaTime t) (playerZ t)
              (lavaHazards lm1) (pool lm1, particleManager lm1))
    as [kept [pl pm]].
  cbn [fst snd app] in *.
  unfold systems_owned. cbn [lavaHazards particleManager]. cbv zeta.
  rewrite Ha, Hp, Hc.
  assert (Hall_perm :
            Permutation
              (ParticleManager.particleSystems (particleManager lm1)
               ++ ParticleManager.pool (particleManager lm1))
              (ss' ++ ParticleManager.pool (particleManager lm1) ++ gone)).
  { transitivity ((ss' ++ gone)
                  ++ ParticleManager.pool (particleManager lm1)).
    - now apply Permutation_app_tail.
    - rewrite <- app_assoc. apply Permutation_app_head.
      apply Permutation_app_comm. }
  split; [exact Hk | split].
  - exact (Permutation_NoDup Hall_perm Hnd).
  - intro s. rewrite <- Hall. split; intro H.
    + exact (Permutation_in s (Permutation_sym Hall_perm) H).
    + exact (Permutation_in s Hall_perm H).
Qed.

Lemma calls_owned (cs : list Call) :
  forall lm : LavaManager, systems_owned lm -> systems_owned (calls cs lm).
Proof.
  induction cs as [| c r IH]; intros lm Hlm; cbn; [exact Hlm |].
  apply IH. destruct c as [t |]; cbn [call].
  - now apply tick_owned.
  - now apply reset_owned.
Qed.

(** X10: no particle system leaks and none is shared.  In every state a
    new lava manager reaches by updates and resets, the systems of the
    active hazards are, in order, exactly the active systems (so each active
    hazard has a system and there are as many active systems as active
    hazards), no system occurs twice among the active and the pooled ones,
    and every system constructed so far is either active or pooled. *)
Theorem particle_systems_owned (cs : list Call) :
  let lm := calls cs LavaManager.new in
  systems_owned lm /\
  length (ParticleManager.particleSystems (particleManager lm))
  = length (lavaHazards lm) /\
  (forall lava, In lava (lavaHazards lm) ->
                exists s, particleSystem lava = Some s /\
                          In s (ParticleManager.particleSystems
                                  (particleManager lm)) /\
                          ~ In s (ParticleManager.pool (particleManager lm))).
Proof.
  cbv zeta.
  pose proof (calls_owned cs LavaManager.new new_owned) as Hown.
  split; [exact Hown |].
  destruct Hown as (Hmap & Hnd & _). cbv zeta in *.
  split.
  - apply (f_equal (@length _)) in Hmap. rewrite !length_map in Hmap.
    now symmetry.
  - intros lava Hin.
    assert (Hs : In (particleSystem lava)
                    (map Some (ParticleManager.particleSystems
                                 (particleManager (calls cs LavaManager.new))))).
    { rewrite <- Hmap. now apply in_map. }
    apply in_map_iff in Hs. destruct Hs as (s & Hs & Hact).
    exists s. split; [now symmetry | split; [exact Hact |]].
    intro Hpool.
    apply in_split in Hact. destruct Hact as (l1 & l2 & Hl).
    rewrite Hl, <- app_assoc in Hnd. cbn [app] in Hnd.
    apply NoDup_remove_2 in Hnd. apply Hnd.
    apply in_or_app. right. apply in_or_app. now right.
Qed.

(** *** Lanes, positions and visibility of the hazards *)

(** [update] is the spawning block followed by the movement loop. *)
Lemma update_unfold (r dt pz speed : Q) (lm : LavaManager) :
  let lm1 := spawn_step r dt pz lm in
  let res := move_step (speed * dt) pz (lavaHazards lm1)
                       (pool lm1, particleManager lm1) in
  update r dt pz speed lm
  = {| lavaHazards := fst res; pool := fst (snd res);
       spawnTimer := spawnTimer lm1; spawnInterval := spawnInterval lm1;
       nextSpawnZ := nextSpawnZ lm1; particleManager := snd (snd res) |}.
Proof.
  cbv zeta. unfold update. cbv zeta.
  change (spawn_step r dt pz
            {| lavaHazards := lavaHazards lm; pool := pool lm;
               spawnTimer := spawnTimer lm; spawnInterval := spawnInterval lm;
               nextSpawnZ := nextSpawnZ lm;
               particleManager :=
                 ParticleManager.update dt (particleManager lm) |})
    with (spawn_step r dt pz lm).
  destruct (move_step (speed * dt) pz (lavaHazards (spawn_step r dt pz lm))
              (pool (spawn_step r dt pz lm),
               particleManager (spawn_step r dt pz lm)))
    as [kept [pl pm]].
  reflexivity.
Qed.

(** The hazards after the spawning block: those before, and the new one at
    the end when the timer has reached the interval. *)
Lemma spawn_step_hazards (r dt pz : Q) (lm : LavaManager) :
  lavaHazards (spawn_step r dt pz lm) = lavaHazards lm \/
  exists sys : ParticleManager.System,
    lavaHazards (spawn_step r dt pz lm)
    = lavaHazards lm
        ++ [ {| lane := Qfloor (r * 3);
                lava_z := pz - GAME_AREA_LENGTH * 0.9;
                visible := true; particleSystem := Some sys |} ].
Proof.
  unfold spawn_step. cbv zeta.
  destruct (Qleb (spawnInterval lm) (spawnTimer lm + dt)); [| now left].
  right. unfold _spawnLava, _createLavaMesh.
  destruct (pop (pool lm)) as [[lava rest] |];
    destruct (ParticleManager.getSystem (particleManager lm)) as [sys pm];
    exists sys; reflexivity.
Qed.

(** The movement loop keeps a property of the hazards that moving a hazard
    keeps, and what it keeps is not past the despawn line. *)
Lemma move_step_kept (P : Lava -> Prop) (moveZ playerZ : Q)
    (hazards : list Lava) :
  (forall h, P h ->
             P {| lane := lane h; lava_z := lava_z h + moveZ;
                  visible := visible h;
                  particleSystem := particleSystem h |}) ->
  forall st,
    Forall P hazards ->
    Forall (fun h => P h /\ lava_z h <= playerZ + PLATFORM_DEPTH * 2)
           (fst (move_step moveZ playerZ hazards st)).
Proof.
  intros Hmove st. induction 1 as [| h r Hh _ IH]; cbn [move_step].
  - constructor.
  - destruct (move_step moveZ playerZ r st) as [kept st1].
    cbn [fst] in *. cbv zeta.
    destruct (Qltb (playerZ + PLATFORM_DEPTH * 2) (lava_z h + moveZ)) eqn:E;
      cbn [fst]; [exact IH |].
    apply Qltb_false in E. constructor; [| exact IH].
    split; [now apply Hmove | exact E].
Qed.

(** The movement loop pushes only hidden meshes to the pool. *)
Lemma move_step_pool (moveZ playerZ : Q) (hazards : list Lava) :
  forall pl pm,
    Forall (fun h => visible h = false) pl ->
    Forall (fun h => visible h = false)
           (fst (snd (move_step moveZ playerZ hazards (pl, pm)))).
Proof.
  induction hazards as [| h r IH]; intros pl pm Hpl; cbn [move_step].
  - exact Hpl.
  - specialize (IH pl pm Hpl).
    destruct (move_step moveZ playerZ r (pl, pm)) as [kept [pl1 pm1]].
    cbn [fst snd] in *. cbv zeta.
    destruct (Qltb (playerZ + PLATFORM_DEPTH * 2) (lava_z h + moveZ));
      cbn [fst snd]; [| exact IH].
    unfold push. apply Forall_app. split; [exact IH |].
    repeat constructor.
Qed.

Lemma Qfloor_lane (r : Q) :
  0 <= r -> r < 1 -> (0 <= Qfloor (r * 3) <= 2)%Z.
Proof.
  intros H0 H1. split.
  - change 0%Z with (Qfloor 0). apply Qfloor_resp_le. lra.
  - assert (H : (Qfloor (r * 3) < 3)%Z).
    { rewrite Zlt_Qlt. pose proof (Qfloor_le (r * 3)) as Hf.
      assert (Hthree : inject_Z 3 == 3) by reflexivity. lra. }
    lia.
Qed.

Lemma call_lanes (lm : LavaManager) (c : Call) :
  draw_ok c ->
  Forall (fun h => (0 <= lane h <= 2)%Z) (lavaHazards lm) ->
  Forall (fun h => (0 <= lane h <= 2)%Z) (lavaHazards (call lm c)).
Proof.
  intros Hd Hl. destruct c as [t |]; cbn [call]; [| constructor].
  unfold tick. rewrite update_unfold. cbv zeta. cbn [lavaHazards].
  eapply Forall_impl;
    [| apply (move_step_kept (fun h => (0 <= lane h <= 2)%Z))].
  - intros h (Hh & _). exact Hh.
  - intros h Hh. exact Hh.
  - destruct (spawn_step_hazards (random t) (deltaTime t) (playerZ t) lm)
      as [-> | (sys & ->)]; [exact Hl |].
    apply Forall_app. split; [exact Hl |].
    constructor; [| constructor]. cbn [lane].
    destruct Hd. now apply Qfloor_lane.
Qed.

Lemma calls_lanes (cs : list Call) :
  forall lm : LavaManager,
    Forall draw_ok cs ->
    Forall (fun h => (0 <= lane h <= 2)%Z) (lavaHazards lm) ->
    Forall (fun h => (0 <= lane h <= 2)%Z) (lavaHazards (calls cs lm)).
Proof.
  induction cs as [| c r IH]; intros lm Hd Hl; cbn; [exact Hl |].
  inversion Hd as [| ? ? Hc Hr]; subst.
  apply IH; [exact Hr | now apply call_lanes].
Qed.

(** X11: as long as the random draws are values of [Math.random()], that
    is in [0, 1), every active hazard is in lane 0, 1 or 2, so that its lane
    has an x in [LANES]. *)
Theorem hazard_lanes_valid (cs : list Call) :
  Forall draw_ok cs ->
  Forall (fun h => (0 <= lane h <= 2)%Z /\
                   exists laneX, LANES_at (lane h) = Some laneX)
         (lavaHazards (calls cs LavaManager.new)).
Proof.
  intro Hd.
  eapply Forall_impl; [| apply (calls_lanes cs LavaManager.new Hd)].
  - intros h Hh. split; [exact Hh | now apply LANES_at_defined].
  - constructor.
Qed.

(** A reset and a first update of one second with the draw 0.99: the hazard
    spawned is in lane 2. *)
Lemma hazard_lanes_valid_witness :
  Forall draw_ok
    [CallReset;
     CallUpdate {| random := 0.99; deltaTime := 1.0; playerZ := 2;
                   currentSpeed := 7.35 |}] /\
  Forall (fun h => (0 <= lane h <= 2)%Z /\
                   exists laneX, LANES_at (lane h) = Some laneX)
    (lavaHazards
       (calls [CallReset;
               CallUpdate {| random := 0.99; deltaTime := 1.0; playerZ := 2;
                             currentSpeed := 7.35 |}] LavaManager.new)) /\
  map lane
    (lavaHazards
       (calls [CallReset;
               CallUpdate {| random := 0.99; deltaTime := 1.0; playerZ := 2;
                             currentSpeed := 7.35 |}] LavaManager.new))
  = [2%Z].
Proof.
  assert (Hd : Forall draw_ok
                 [CallReset;
                  CallUpdate {| random := 0.99; deltaTime := 1.0;
                                playerZ := 2; currentSpeed := 7.35 |}]).
  { constructor; [exact I |]. constructor; [| constructor].
    split; by_evaluation. }
  split; [exact Hd | split; [exact (hazard_lanes_valid _ Hd) |]].
  by_evaluation.
Defined.

(** The pool after the spawning block: as before, or less its last mesh. *)
Lemma spawn_step_pool (r dt pz : Q) (lm : LavaManager) :
  pool (spawn_step r dt pz lm) = pool lm \/
  exists lava, pool lm = pool (spawn_step r dt pz lm) ++ [lava].
Proof.
  unfold spawn_step. cbv zeta.
  destruct (Qleb (spawnInterval lm) (spawnTimer lm + dt)); [| now left].
  unfold _spawnLava, _createLavaMesh.
  destruct (pop (pool lm)) as [[lava rest] |] eqn:E;
    destruct (ParticleManager.getSystem (particleManager lm)) as [sys pm];
    cbn [pool].
  - right. exists lava. now apply pop_some.
  - now left.
Qed.

Lemma call_shown_or_pooled (lm : LavaManager) (c : Call) :
  shown_or_pooled lm -> shown_or_pooled (call lm c).
Proof.
  unfold shown_or_pooled. intros (Hact & Hpool).
  destruct c as [t |]; cbn [call].
  - unfold tick. rewrite update_unfold. cbv zeta. cbn [lavaHazards pool].
    split.
    + eapply Forall_impl;
        [| apply (move_step_kept (fun h => visible h = true))].
      * intros h (Hh & _). exact Hh.
      * intros h Hh. exact Hh.
      * destruct (spawn_step_hazards (random t) (deltaTime t) (playerZ t) lm)
          as [-> | (sys & ->)]; [exact Hact |].
        apply Forall_app. split; [exact Hact | repeat constructor].
    + apply move_step_pool.
      destruct (spawn_step_pool (random t) (deltaTime t) (playerZ t) lm)
        as [-> | (lava & Hp)]; [exact Hpool |].
      rewrite Hp in Hpool. apply Forall_app in Hpool. tauto.
  - destruct (LavaSpec.lava_reset_spec lm) as (-> & _ & -> & _).
    split; [constructor |].
    apply Forall_app. split; [exact Hpool |].
    apply Forall_forall. intros h Hin. apply in_map_iff in Hin.
    destruct Hin as (h0 & <- & _). reflexivity.
Qed.

Lemma calls_shown_or_pooled (cs : list Call) :
  forall lm : LavaManager,
    shown_or_pooled lm -> shown_or_pooled (calls cs lm).
Proof.
  induction cs as [| c r IH]; intros lm Hlm; cbn; [exact Hlm |].
  apply IH. now apply call_shown_or_pooled.
Qed.

(** X12: a hazard is shown while it is active and hidden once pooled.  In
    every state a new lava manager reaches, the active hazards are visible
    and the pooled meshes are not; and after an [update] no active hazard is
    more than twice the platform depth behind the player. *)
Theorem hazards_shown_until_passed (cs : list Call) (t : Tick) :
  shown_or_pooled (calls cs LavaManager.new) /\
  Forall (fun h => lava_z h <= playerZ t + PLATFORM_DEPTH * 2)
         (lavaHazards (tick (calls cs LavaManager.new) t)).
Proof.
  split.
  - apply calls_shown_or_pooled. split; constructor.
  - unfold tick. rewrite update_unfold. cbv zeta. cbn [lavaHazards].
    eapply Forall_impl; [| apply (move_step_kept (fun _ => True))].
    + intros h (_ & Hz). exact Hz.
    + intros h _. exact I.
    + apply Forall_forall. intros h _. exact I.
Qed.

(** *** The spawn schedule *)

Lemma move_step_shorter (moveZ playerZ : Q) (hazards : list Lava) :
  forall st,
    (length (fst (move_step moveZ playerZ hazards st))
     <= length hazards)%nat.
Proof.
  intro st. induction hazards as [| h r IH]; cbn [move_step]; [cbn; lia |].
  destruct (move_step moveZ playerZ r st) as [kept st1].
  cbn [fst] in *. cbv zeta.
  destruct (Qltb (playerZ + PLATFORM_DEPTH * 2) (lava_z h + moveZ));
    cbn [fst length]; lia.
Qed.

Lemma tick_timer (lm : LavaManager) (t : Tick) :
  (spawnInterval lm <= spawnTimer lm + deltaTime t ->
   spawnTimer (tick lm t) = 0) /\
  (spawnTimer lm + deltaTime t < spawnInterval lm ->
   spawnTimer (tick lm t) = spawnTimer lm + deltaTime t).
Proof.
  unfold tick. rewrite update_unfold. cbv zeta. cbn [spawnTimer].
  unfold spawn_step. cbv zeta. split; intro H.
  - apply Qleb_true in H. rewrite H. reflexivity.
  - apply Qleb_false in H. rewrite H. reflexivity.
Qed.

(** The timer is below the interval, and the interval at least the floor. *)
Lemma call_schedule (lm : LavaManager) (c : Call) :
  spawnTimer lm < spawnInterval lm /\
  MIN_SPAWN_INTERVAL <= spawnInterval lm ->
  spawnTimer (call lm c) < spawnInterval (call lm c) /\
  MIN_SPAWN_INTERVAL <= spawnInterval (call lm c).
Proof.
  intros (Hlt & Hfloor). destruct c as [t |]; cbn [call].
  - destruct (LavaSpec.tick_interval lm t Hfloor) as (Hf & _ & _ & Hwait).
    destruct (tick_timer lm t) as (Tspawn & Twait).
    split; [| exact Hf].
    destruct (Qlt_le_dec (spawnTimer lm + deltaTime t) (spawnInterval lm))
      as [Hw | Hs].
    + rewrite (Twait Hw), (Hwait Hw). exact Hw.
    + rewrite (Tspawn Hs).
      assert (0 < MIN_SPAWN_INTERVAL) by by_evaluation. lra.
  - cbn. split; by_evaluation.
Qed.

Lemma calls_schedule (cs : list Call) :
  forall lm : LavaManager,
    spawnTimer lm < spawnInterval lm /\
    MIN_SPAWN_INTERVAL <= spawnInterval lm ->
    spawnTimer (calls cs lm) < spawnInterval (calls cs lm) /\
    MIN_SPAWN_INTERVAL <= spawnInterval (calls cs lm).
Proof.
  induction cs as [| c r IH]; intros lm Hlm; cbn; [exact Hlm |].
  apply IH. now apply call_schedule.
Qed.

(** X13: the spawn schedule.  In every state a new lava manager reaches
    the spawn timer is below the spawn interval; hence an [update] spawns
    only if its delta is positive, and an [update] adds at most one hazard. *)
Theorem spawn_schedule (cs : list Call) (t : Tick) :
  let lm := calls cs LavaManager.new in
  spawnTimer lm < spawnInterval lm /\
  (spawnInterval lm <= spawnTimer lm + deltaTime t -> 0 < deltaTime t) /\
  (length (lavaHazards (tick lm t)) <= S (length (lavaHazards lm)))%nat.
Proof.
  cbv zeta.
  destruct (calls_schedule cs LavaManager.new) as (Hlt & _).
  { cbn. split; by_evaluation. }
  split; [exact Hlt | split; [intro; lra |]].
  unfold tick. rewrite update_unfold. cbv zeta. cbn [lavaHazards].
  match goal with
  | |- context [move_step ?mz ?pz ?hs ?st] =>
      pose proof (move_step_shorter mz pz hs st) as Hshort
  end.
  assert (Hlen : (length (lavaHazards
                    (spawn_step (random t) (deltaTime t) (playerZ t)
                       (calls cs LavaManager.new)))
                  <= S (length (lavaHazards (calls cs LavaManager.new))))%nat).
  { destruct (spawn_step_hazards (random t) (deltaTime t) (playerZ t)
                (calls cs LavaManager.new)) as [E | (sys & E)];
      rewrite E; [lia |].
    rewrite length_app. cbn [length]. lia. }
  lia.
Qed.

(** After a reset the timer is at 3.0 of 4.0: a frame of one second
    spawns, and its delta is positive. *)
Lemma spawn_schedule_witness :
  spawnInterval (calls [CallReset] LavaManager.new)
    <= spawnTimer (calls [CallReset] LavaManager.new) + 1.0 /\
  0 < 1.0.
Proof.
  assert (Hs : spawnInterval (calls [CallReset] LavaManager.new)
               <= spawnTimer (calls [CallReset] LavaManager.new) + 1.0)
    by by_evaluation.
  split; [exact Hs |].
  destruct (spawn_schedule [CallReset]
              {| random := 0.5; deltaTime := 1.0; playerZ := 2;
                 currentSpeed := 7.35 |}) as (_ & Hpos & _).
  exact (Hpos Hs).
Defined.

End HazardPools.

(** ** The game loop: speed, flags, start and restart *)

Module GameLoop.

Import Game.

Section LoopFacts.

Variable Msin : Q -> Q.

Lemma _update_speed (dt r : Q) (g : Game) :
  isRunning g = true ->
  currentSpeed (_update Msin dt r g)
  = Qmin MAX_GAME_SPEED (currentSpeed g + GAME_SPEED_INCREASE_RATE * dt).
Proof.
  unfold isRunning, _update. intro H.
  destruct (running g) eqn:Er, (gameOver g) eqn:Eo; cbn in H;
    try discriminate.
  cbn [negb orb]. cbv zeta.
  match goal with
  | |- context [if ?c then _ else _] => destruct c
  end; reflexivity.
Qed.

Lemma start_speed (dt r : Q) (g : Game) :
  currentSpeed (start Msin dt r g)
  = Qmin MAX_GAME_SPEED (INITIAL_GAME_SPEED + GAME_SPEED_INCREASE_RATE * dt).
Proof.
  unfold start, start_frame. cbv zeta. rewrite _update_speed; reflexivity.
Qed.

Lemma ramp_below_cap (s dt : Q) :
  Qmin MAX_GAME_SPEED (s + GAME_SPEED_INCREASE_RATE * dt) <= MAX_GAME_SPEED.
Proof. apply Q.le_min_l. Qed.

Lemma ramp_above (s dt : Q) :
  s <= MAX_GAME_SPEED -> 0 <= dt ->
  s <= Qmin MAX_GAME_SPEED (s + GAME_SPEED_INCREASE_RATE * dt).
Proof.
  intros Hs Hdt. apply Q.min_glb; [exact Hs |].
  unfold GAME_SPEED_INCREASE_RATE. nra.
Qed.

Lemma handle_speed (g : Game) (e : Event) :
  0 <= delta_of e ->
  INITIAL_GAME_SPEED <= currentSpeed g /\ currentSpeed g <= MAX_GAME_SPEED ->
  INITIAL_GAME_SPEED <= currentSpeed (handle Msin g e) /\
  currentSpeed (handle Msin g e) <= MAX_GAME_SPEED.
Proof.
  intros Hdt (Hlo & Hhi). destruct e as [dt r | [dt r | | l |]];
    cbn [handle step delta_of] in *.
  - rewrite start_speed. split; [| apply ramp_below_cap].
    apply ramp_above; [by_evaluation | exact Hdt].
  - destruct (isRunning g) eqn:Er.
    + rewrite (_update_speed dt r g Er). split; [| apply ramp_below_cap].
      apply Qle_trans with (currentSpeed g); [exact Hlo |].
      now apply ramp_above.
    + rewrite (GameSpec._update_halted Msin dt r g Er). cbn. auto.
  - cbn. auto.
  - cbn. auto.
  - cbn. auto.
Qed.

Lemma life_speed (es : list Event) :
  forall g : Game,
    Forall (fun e => 0 <= delta_of e) es ->
    INITIAL_GAME_SPEED <= currentSpeed g /\ currentSpeed g <= MAX_GAME_SPEED ->
    INITIAL_GAME_SPEED <= currentSpeed (life Msin es g) /\
    currentSpeed (life Msin es g) <= MAX_GAME_SPEED.
Proof.
  induction es as [| e r IH]; intros g Hes Hg; cbn; [exact Hg |].
  inversion Hes as [| e' r' He Hr]; subst.
  apply IH; [exact Hr |]. now apply handle_speed.
Qed.

(** The loop flags after a frame, whatever the game was. *)
Lemma _update_flags (dt r : Q) (g : Game) :
  animationId (_update Msin dt r g) = running (_update Msin dt r g) /\
  (gameOver (_update Msin dt r g) = true ->
   running (_update Msin dt r g) = false).
Proof.
  unfold _update.
  destruct (running g) eqn:Er, (gameOver g) eqn:Eo; cbn [negb orb];
    try (cbn; auto; fail).
  cbv zeta.
  match goal with
  | |- context [if ?c then _ else _] => destruct c
  end; cbn [animationId running gameOver]; rewrite ?Er, ?Eo; auto.
Qed.

Lemma handle_flags (g : Game) (e : Event) :
  animationId g = running g /\ (gameOver g = true -> running g = false) ->
  animationId (handle Msin g e) = running (handle Msin g e) /\
  (gameOver (handle Msin g e) = true -> running (handle Msin g e) = false).
Proof.
  intros Hg. destruct e as [dt r | [dt r | | l |]]; cbn [handle step].
  - unfold start, start_frame. cbv zeta. apply _update_flags.
  - apply _update_flags.
  - cbn. auto.
  - exact Hg.
  - exact Hg.
Qed.

Lemma life_flags (es : list Event) :
  forall g : Game,
    animationId g = running g /\ (gameOver g = true -> running g = false) ->
    animationId (life Msin es g) = running (life Msin es g) /\
    (gameOver (life Msin es g) = true -> running (life Msin es g) = false).
Proof.
  induction es as [| e r IH]; intros g Hg; cbn; [exact Hg |].
  apply IH. now apply handle_flags.
Qed.

Lemma _stopGameLoop_stopped (g : Game) :
  running g = false -> animationId g = false -> _stopGameLoop g = g.
Proof.
  destruct g as [p lm run over sc sp anim]. cbn. intros -> ->. reflexivity.
Qed.

(** [start()] does not depend on the loop flags of the game it is given. *)
Lemma start_after_stop (dt r : Q) (g : Game) :
  start Msin dt r (stop g) = start Msin dt r g.
Proof. reflexivity. Qed.

(** The session [start()] begins when its first delta is below the second
    the reset leaves on the spawn timer. *)
Lemma start_fresh (dt r : Q) (g : Game) :
  dt < 1 ->
  let g' := start Msin dt r g in
  running g' = true /\ gameOver g' = false /\ animationId g' = true /\
  score g' == dt * SCORE_RATE /\
  LavaManager.lavaHazards (lavaManager g') = [] /\
  player g' = Player.update Msin dt (Player.reset (player g)).
Proof.
  intros Hdt. cbv zeta.
  assert (Hwait : forall pz speed,
             LavaManager.lavaHazards
               (LavaManager.update r dt pz speed
                  (LavaManager.reset (lavaManager g))) = []).
  { intros pz speed. apply GameSpec.update_no_hazard.
    - apply LavaSpec.lava_reset_spec.
    - cbn [LavaManager.reset LavaManager.spawnTimer
           LavaManager.spawnInterval].
      unfold LavaManager.INITIAL_SPAWN_INTERVAL. lra. }
  unfold start, start_frame, _update. cbv zeta.
  cbn [running gameOver negb orb _resetGameState _stopGameLoop
       lavaManager player currentSpeed score].
  unfold LavaManager.checkCollision. rewrite Hwait.
  cbn [LavaManager.check_loop running gameOver animationId score
       lavaManager player].
  rewrite Hwait.
  split; [reflexivity |]. split; [reflexivity |]. split; [reflexivity |].
  split; [ring |]. split; reflexivity.
Qed.

(** The player a reset followed by one [update] leaves. *)
Lemma update_after_reset (dt : Q) (p : Player.Player) :
  let q := Player.update Msin dt (Player.reset p) in
  Player.targetLane q = 1%Z /\ Player.currentLane q = 1%Z /\
  Player.x (Player.position q) = LANES_at 1 /\
  Player.z (Player.position q) = PLAYER_START_Z /\
  Player.isJumping q = false /\ Player.isOnCooldown q = false.
Proof.
  cbv zeta. unfold Player.update, Player.bounce_step, Player.cooldown_step,
    Player.jump_step, Player.lane_step, Player.reset.
  cbn. auto 10.
Qed.

End LoopFacts.

(** X14: the game speed.  Over the whole life of a game object whose
    clock deltas are not negative, the speed stays between the initial and
    the maximum speed; a frame of the running game raises it by the rate
    times the delta, capped at the maximum, and never lowers it; a frame of
    a game that is not running leaves it alone. *)
Theorem speed_ramp (Msin : Q -> Q) (es : list Event) (dt r : Q) :
  Forall (fun e => 0 <= delta_of e) es ->
  0 <= dt ->
  let g := life Msin es Game.new in
  INITIAL_GAME_SPEED <= currentSpeed g /\
  currentSpeed g <= MAX_GAME_SPEED /\
  (isRunning g = true ->
   currentSpeed g <= currentSpeed (_update Msin dt r g) /\
   currentSpeed (_update Msin dt r g)
   == Qmin MAX_GAME_SPEED (currentSpeed g + GAME_SPEED_INCREASE_RATE * dt)) /\
  (isRunning g = false ->
   currentSpeed (_update Msin dt r g) = currentSpeed g).
Proof.
  intros Hes Hdt. cbv zeta.
  destruct (life_speed Msin es Game.new Hes) as (Hlo & Hhi).
  { cbn. split; by_evaluation. }
  split; [exact Hlo | split; [exact Hhi | split]].
  - intro Er. rewrite (_update_speed Msin dt r _ Er).
    split; [now apply ramp_above | reflexivity].
  - intro Er. rewrite (GameSpec._update_halted Msin dt r _ Er). reflexivity.
Qed.

(** A started game after a frame of one second, and one more second. *)
Lemma speed_ramp_witness :
  Forall (fun e => 0 <= delta_of e) [Start 0 0.5; Do (Frame 1 0.5)] /\
  0 <= 1 /\
  isRunning (life flat_sine [Start 0 0.5; Do (Frame 1 0.5)] Game.new) = true /\
  currentSpeed
    (_update flat_sine 1 0.5
       (life flat_sine [Start 0 0.5; Do (Frame 1 0.5)] Game.new))
  == Qmin MAX_GAME_SPEED
          (currentSpeed (life flat_sine [Start 0 0.5; Do (Frame 1 0.5)] Game.new)
           + GAME_SPEED_INCREASE_RATE * 1).
Proof.
  assert (Hes : Forall (fun e => 0 <= delta_of e)
                       [Start 0 0.5; Do (Frame 1 0.5)]).
  { constructor; [by_evaluation |]. constructor; [by_evaluation |].
    constructor. }
  assert (Hdt : 0 <= 1) by by_evaluation.
  assert (Er : isRunning (life flat_sine [Start 0 0.5; Do (Frame 1 0.5)]
                               Game.new) = true) by by_evaluation.
  destruct (speed_ramp flat_sine [Start 0 0.5; Do (Frame 1 0.5)] 1 0.5 Hes Hdt)
    as (_ & _ & Hrun & _).
  split; [exact Hes | split; [exact Hdt | split; [exact Er |]]].
  exact (proj2 (Hrun Er)).
Defined.

(** X15: the loop flags.  Whatever happens to a game object (starts, each
    taken with the frame it schedules, frames, stops, player commands), a
    frame callback is pending exactly
    when [running] is set, a game that is over is not running, so
    [isRunning()] is the [running] flag, and a frame that still arrives at a
    game that is not running changes nothing. *)
Theorem loop_flags (Msin : Q -> Q) (es : list Event) :
  let g := life Msin es Game.new in
  animationId g = running g /\
  (gameOver g = true -> running g = false) /\
  isRunning g = running g /\
  (running g = false -> forall dt r : Q, _update Msin dt r g = g).
Proof.
  cbv zeta.
  destruct (life_flags Msin es Game.new) as (Hanim & Hover).
  { cbn. split; [reflexivity | discriminate]. }
  split; [exact Hanim | split; [exact Hover | split]].
  - unfold isRunning.
    destruct (running (life Msin es Game.new)) eqn:Er; [| reflexivity].
    destruct (gameOver (life Msin es Game.new)) eqn:Eo; [| reflexivity].
    now specialize (Hover eq_refl).
  - intros Er dt r. rewrite GameSpec._update_halted.
    + apply _stopGameLoop_stopped; [exact Er | now rewrite Hanim].
    + unfold isRunning. now rewrite Er.
Qed.

(** X16: what [start()] begins.  With a first delta below one second the
    game that [start()] and the frame it schedules leave is running, not
    over, with a frame pending;
    its score is the first delta times [SCORE_RATE] and its speed one step
    up the ramp from the initial speed; no hazard is active; the player is
    in the middle lane, on its x, at the start z, neither jumping nor on
    cooldown.  Nothing of the game before survives in these, and a [stop()]
    just before [start()] makes no difference. *)
Theorem start_gives_fresh_session (Msin : Q -> Q) (dt r : Q) (g : Game) :
  dt < 1 ->
  let g' := start Msin dt r g in
  running g' = true /\ gameOver g' = false /\ animationId g' = true /\
  score g' == dt * SCORE_RATE /\
  currentSpeed g'
  == Qmin MAX_GAME_SPEED (INITIAL_GAME_SPEED + GAME_SPEED_INCREASE_RATE * dt) /\
  LavaManager.lavaHazards (lavaManager g') = [] /\
  Player.targetLane (player g') = 1%Z /\
  Player.currentLane (player g') = 1%Z /\
  Player.x (Player.position (player g')) = LANES_at 1 /\
  Player.z (Player.position (player g')) = PLAYER_START_Z /\
  Player.isJumping (player g') = false /\
  Player.isOnCooldown (player g') = false /\
  start Msin dt r (stop g) = g'.
Proof.
  intros Hdt. cbv zeta.
  destruct (start_fresh Msin dt r g Hdt) as (Hr & Ho & Ha & Hs & Hh & Hp).
  destruct (update_after_reset Msin dt (player g))
    as (Pt & Pc & Px & Pz & Pj & Pd).
  rewrite Hp, start_speed.
  split; [exact Hr |]. split; [exact Ho |]. split; [exact Ha |].
  split; [exact Hs |]. split; [reflexivity |]. split; [exact Hh |].
  split; [exact Pt |]. split; [exact Pc |]. split; [exact Px |].
  split; [exact Pz |]. split; [exact Pj |]. split; [exact Pd |].
  apply start_after_stop.
Qed.

(** Starting again from the session that was stopped with a hazard active. *)
Lemma start_gives_fresh_session_witness :
  0.016 < 1 /\
  running (start flat_sine 0.016 0.5 (stop session_with_hazard)) = true /\
  LavaManager.lavaHazards
    (lavaManager (start flat_sine 0.016 0.5 (stop session_with_hazard))) = [] /\
  score (start flat_sine 0.016 0.5 (stop session_with_hazard))
  == 0.016 * SCORE_RATE.
Proof.
  assert (Hdt : 0.016 < 1) by by_evaluation.
  destruct (start_gives_fresh_session flat_sine 0.016 0.5
              (stop session_with_hazard) Hdt)
    as (Hr & _ & _ & Hs & _ & Hh & _).
  split; [exact Hdt | split; [exact Hr | split; [exact Hh | exact Hs]]].
Defined.

End GameLoop.

(** ** Keyboard, pose input and the restart button *)

Module Input.

Import Main.

Lemma setTargetLane_neighbour (d : Z) (p : Player.Player) :
  (d = -1 \/ d = 1)%Z ->
  (0 <= Player.targetLane p <= 2)%Z ->
  let q := Player.setTargetLane (Player.targetLane p + d) p in
  (0 <= Player.targetLane q <= 2)%Z /\
  (Z.abs (Player.targetLane q - Player.targetLane p) <= 1)%Z /\
  (Player.isOnCooldown p = false ->
   Player.targetLane q = Z.max 0 (Z.min 2 (Player.targetLane p + d))) /\
  (Player.isOnCooldown p = true -> q = p) /\
  (Z.max 0 (Z.min 2 (Player.targetLane p + d)) = Player.targetLane p
   -> q = p) /\
  (Player.targetLane q <> Player.targetLane p ->
   Player.isOnCooldown q = true /\
   Player.cooldownTimer q = PLAYER_LANE_CHANGE_COOLDOWN).
Proof.
  intros Hd Ht. cbv zeta. unfold Player.setTargetLane. cbv zeta.
  destruct (Player.isOnCooldown p) eqn:Ec; cbn [negb andb].
  - rewrite Ec. repeat split; try lia; try congruence.
  - destruct (Z.eqb_spec (Z.max 0 (Z.min 2 (Player.targetLane p + d)))
                         (Player.targetLane p)) as [E | E]; cbn [negb].
    + rewrite Ec. repeat split; try lia; try congruence.
    + cbn. repeat split; try lia; try congruence.
Qed.


Lemma setTargetLane_jump_state (l : Z) (p : Player.Player) :
  Player.isJumping (Player.setTargetLane l p) = Player.isJumping p /\
  Player.jumpTimer (Player.setTargetLane l p) = Player.jumpTimer p.
Proof. unfold Player.setTargetLane. cbv zeta. split_ifs; cbn; auto. Qed.



(** A sample handled while the timer is above 1/60: no jump is started, the
    baseline, once set, stays, and the timer goes down by 1/60. *)
Lemma handlePoseUpdate_cooling (normX normShoulderY : Q) (m : Main)
    (g : Game.Game) :
  game m = Some g -> Game.isRunning g = true ->
  1 / 60 < poseJumpCooldownTimer m ->
  let m' := handlePoseUpdate normX normShoulderY m in
  poseJumpCooldownTimer m' = poseJumpCooldownTimer m - 1 / 60 /\
  (forall r, restingShoulderY m = Some r -> restingShoulderY m' = Some r) /\
  exists g' : Game.Game,
    game m' = Some g' /\ Game.isRunning g' = true /\
    Player.isJumping (Game.player g') = Player.isJumping (Game.player g) /\
    Player.jumpTimer (Game.player g') = Player.jumpTimer (Game.player g).
Proof.
  intros Hg Hrun Hpos. cbv zeta. unfold handlePoseUpdate.
  rewrite Hg, Hrun. cbv zeta.
  assert (H0 : Qltb 0 (poseJumpCooldownTimer m) = true).
  { apply Qltb_true. assert (0 < 1 / 60) by by_evaluation. lra. }
  assert (H1 : Qleb (poseJumpCooldownTimer m - 1 / 60) 0 = false).
  { apply Qleb_false. lra. }
  rewrite H0, H1.
  assert (Hsteer :
            forall q,
              q = (if Qltb (1.0 - normX) 0.35
                   then Player.setTargetLane 0 (Game.player g)
                   else if Qltb 0.65 (1.0 - normX)
                        then Player.setTargetLane 2 (Game.player g)
                        else Player.setTargetLane 1 (Game.player g)) ->
              Player.isJumping q = Player.isJumping (Game.player g) /\
              Player.jumpTimer q = Player.jumpTimer (Game.player g)).
  { intros q ->. split_ifs; apply setTargetLane_jump_state. }
  destruct (restingShoulderY m) as [r0 |];
    [| destruct (Qltb 0 normShoulderY && Qltb normShoulderY 1)];
    cbn [game poseJumpCooldownTimer restingShoulderY];
    (split; [reflexivity |]); (split; [intros r Hr; congruence |]);
    eexists; (split; [reflexivity |]);
    (split; [exact Hrun |]); cbn [Game.player Game.with_player];
    now apply Hsteer.
Qed.

Lemma inject_S (k : nat) :
  inject_Z (Z.of_nat (S k)) == inject_Z (Z.of_nat k) + 1.
Proof.
  rewrite Nat2Z.inj_succ. unfold Z.succ. rewrite inject_Z_plus. reflexivity.
Qed.

Lemma inject_nat_nonneg (k : nat) : 0 <= inject_Z (Z.of_nat k).
Proof. change 0 with (inject_Z 0). rewrite <- Zle_Qle. lia. Qed.

Lemma handlePoseUpdates_cooling (samples : list (Q * Q)) :
  forall (m : Main) (g : Game.Game),
    game m = Some g -> Game.isRunning g = true ->
    inject_Z (Z.of_nat (length samples)) * (1 / 60)
      < poseJumpCooldownTimer m ->
    let m' := handlePoseUpdates samples m in
    poseJumpCooldownTimer m'
    == poseJumpCooldownTimer m
       - inject_Z (Z.of_nat (length samples)) * (1 / 60) /\
    (forall r, restingShoulderY m = Some r -> restingShoulderY m' = Some r) /\
    exists g' : Game.Game,
      game m' = Some g' /\ Game.isRunning g' = true /\
      Player.isJumping (Game.player g') = Player.isJumping (Game.player g) /\
      Player.jumpTimer (Game.player g') = Player.jumpTimer (Game.player g).
Proof.
  induction samples as [| xy rest IH]; intros m g Hg Hrun Hpos; cbv zeta.
  - cbn [handlePoseUpdates fold_left length].
    split; [| split; [auto | exists g; auto]].
    change (Z.of_nat 0) with 0%Z. change (inject_Z 0) with 0. ring.
  - cbn [length] in *. rewrite inject_S in Hpos.
    pose proof (inject_nat_nonneg (length rest)) as Hn.
    set (n := inject_Z (Z.of_nat (length rest))) in *.
    assert (Hc : 0 < 1 / 60) by reflexivity.
    assert (H60 : 1 / 60 < poseJumpCooldownTimer m).
    { set (c := 1 / 60) in *. clearbody c. nra. }
    destruct (handlePoseUpdate_cooling (fst xy) (snd xy) m g Hg Hrun H60)
      as (Ht & Hrest & g1 & Hg1 & Hrun1 & Hj1 & Hjt1).
    assert (Hpos1 : inject_Z (Z.of_nat (length rest)) * (1 / 60)
                    < poseJumpCooldownTimer
                        (handlePoseUpdate (fst xy) (snd xy) m)).
    { rewrite Ht. fold n. set (c := 1 / 60) in *. clearbody c. nra. }
    destruct (IH _ g1 Hg1 Hrun1 Hpos1) as (Ht' & Hrest' & g' & Hg' & Hrun' & Hj' & Hjt').
    change (handlePoseUpdates (xy :: rest) m)
      with (handlePoseUpdates rest (handlePoseUpdate (fst xy) (snd xy) m)).
    split; [| split].
    + rewrite Ht', Ht, inject_S. fold n. ring.
    + intros r Hr. apply Hrest'. now apply Hrest.
    + exists g'. split; [exact Hg' |]. split; [exact Hrun' |].
      split; congruence.
Qed.

Lemma stopped_ignores_input (m : Main) (g : Game.Game) :
  game m = Some g -> Game.running g = false ->
  (forall key, handleKeyDown key m = m) /\
  (forall normX normShoulderY, handlePoseUpdate normX normShoulderY m = m).
Proof.
  intros Hg Hr. unfold handleKeyDown, handlePoseUpdate, Game.isRunning.
  rewrite Hg, Hr. cbn. auto.
Qed.

(** X17: the arrow keys.  On a running game whose player aims at a lane
    in 0..2, a key press leaves the aim in 0..2 and moves it by at most one
    lane: with no cooldown on, left goes to the lane below but not under 0,
    right to the lane above but not over 2; a press that does not move the
    aim (on cooldown, or outwards from an edge lane, or another key) leaves
    the player as it is, and one that moves it starts the cooldown.  With no
    game, or a game that is not running, a key press changes nothing. *)
Theorem keyboard_moves_one_lane (key : Key) (m : Main) :
  (forall g : Game.Game,
      game m = Some g -> Game.isRunning g = true ->
      (0 <= Player.targetLane (Game.player g) <= 2)%Z ->
      exists g' : Game.Game,
        game (handleKeyDown key m) = Some g' /\
        Game.isRunning g' = true /\
        let t := Player.targetLane (Game.player g) in
        let t' := Player.targetLane (Game.player g') in
        (0 <= t' <= 2)%Z /\ (Z.abs (t' - t) <= 1)%Z /\
        (Player.isOnCooldown (Game.player g) = false ->
         t' = match key with
              | ArrowLeft => Z.max 0 (t - 1)
              | ArrowRight => Z.min 2 (t + 1)
              | OtherKey => t
              end) /\
        (t' = t -> Game.player g' = Game.player g) /\
        (t' <> t ->
         Player.isOnCooldown (Game.player g') = true /\
         Player.cooldownTimer (Game.player g')
         = PLAYER_LANE_CHANGE_COOLDOWN)) /\
  (option_map Game.isRunning (game m) <> Some true ->
   handleKeyDown key m = m).
Proof.
  split.
  - intros g Hg Hrun Ht. unfold handleKeyDown. rewrite Hg, Hrun.
    destruct key; cbv zeta.
    + change (Player.targetLane (Game.player g) - 1)%Z
        with (Player.targetLane (Game.player g) + -1)%Z.
      destruct (setTargetLane_neighbour (-1) (Game.player g)
                  (or_introl eq_refl) Ht)
        as (Hrange & Habs & Hfree & Hcool & Hsame & Hmoved).
      eexists. split; [reflexivity |]. split; [exact Hrun |].
      cbn [Game.player Game.with_player].
      split; [exact Hrange |]. split; [exact Habs |].
      split; [intro Ec; rewrite (Hfree Ec); lia |].
      split; [| exact Hmoved].
      intro Heq. destruct (Player.isOnCooldown (Game.player g)) eqn:Ec;
        [now apply Hcool | apply Hsame; rewrite <- (Hfree eq_refl); exact Heq].
    + destruct (setTargetLane_neighbour 1 (Game.player g)
                  (or_intror eq_refl) Ht)
        as (Hrange & Habs & Hfree & Hcool & Hsame & Hmoved).
      eexists. split; [reflexivity |]. split; [exact Hrun |].
      cbn [Game.player Game.with_player].
      split; [exact Hrange |]. split; [exact Habs |].
      split; [intro Ec; rewrite (Hfree Ec); lia |].
      split; [| exact Hmoved].
      intro Heq. destruct (Player.isOnCooldown (Game.player g)) eqn:Ec;
        [now apply Hcool | apply Hsame; rewrite <- (Hfree eq_refl); exact Heq].
    + exists g. split; [exact Hg |]. split; [exact Hrun |].
      split; [exact Ht |]. split; [lia |]. split; [reflexivity |].
      split; [reflexivity | congruence].
  - intro Hidle. unfold handleKeyDown.
    destruct (game m) as [g |]; [| reflexivity].
    cbn in Hidle. destruct (Game.isRunning g); [congruence | reflexivity].
Qed.

(** On the page just started the player aims at the middle lane: the
    left arrow moves the aim to lane 0. *)
Lemma keyboard_moves_one_lane_witness :
  exists g g' : Game.Game,
    game (startButton flat_sine 0 0.5 init) = Some g /\
    Game.isRunning g = true /\
    (0 <= Player.targetLane (Game.player g) <= 2)%Z /\
    game (handleKeyDown ArrowLeft (startButton flat_sine 0 0.5 init))
    = Some g' /\
    Player.targetLane (Game.player g')
    = Z.max 0 (Player.targetLane (Game.player g) - 1).
Proof.
  exists (Game.start flat_sine 0 0.5 Game.new).
  assert (Hg : game (startButton flat_sine 0 0.5 init)
               = Some (Game.start flat_sine 0 0.5 Game.new)) by reflexivity.
  assert (Hrun : Game.isRunning (Game.start flat_sine 0 0.5 Game.new) = true)
    by by_evaluation.
  assert (Ht : (0 <= Player.targetLane
                       (Game.player (Game.start flat_sine 0 0.5 Game.new))
                <= 2)%Z) by (vm_compute; split; discriminate).
  assert (Ec : Player.isOnCooldown
                 (Game.player (Game.start flat_sine 0 0.5 Game.new)) = false)
    by by_evaluation.
  destruct (keyboard_moves_one_lane ArrowLeft
              (startButton flat_sine 0 0.5 init)) as (Hkey & _).
  destruct (Hkey _ Hg Hrun Ht) as (g' & Hg' & _ & _ & _ & Hfree & _).
  exists g'. split; [exact Hg |]. split; [exact Hrun |].
  split; [exact Ht |]. split; [exact Hg' |]. exact (Hfree Ec).
Defined.



(** X19: pose jumps are debounced by samples.  While the game runs, [n]
    samples handled with n/60 below the pose-jump timer start no jump and
    do not restart the jump timer, whatever the shoulder heights they
    carry; they leave a resting height that is set as it is and bring the
    timer down by n/60. *)
Theorem pose_jump_debounce (samples : list (Q * Q)) (m : Main)
    (g : Game.Game) :
  game m = Some g -> Game.isRunning g = true ->
  inject_Z (Z.of_nat (length samples)) * (1 / 60) < poseJumpCooldownTimer m ->
  let m' := handlePoseUpdates samples m in
  poseJumpCooldownTimer m'
  == poseJumpCooldownTimer m
     - inject_Z (Z.of_nat (length samples)) * (1 / 60) /\
  (forall r, restingShoulderY m = Some r -> restingShoulderY m' = Some r) /\
  exists g' : Game.Game,
    game m' = Some g' /\ Game.isRunning g' = true /\
    Player.isJumping (Game.player g') = Player.isJumping (Game.player g) /\
    Player.jumpTimer (Game.player g') = Player.jumpTimer (Game.player g).
Proof. apply handlePoseUpdates_cooling. Qed.

(** After the pose jump the timer is 0.7: three samples that each lift the
    shoulders far above the resting height start no further jump. *)
Lemma pose_jump_debounce_witness :
  inject_Z (Z.of_nat (length [(0.5, 0.1); (0.5, 0.1); (0.5, 0.1)])) * (1 / 60)
    < poseJumpCooldownTimer page_after_pose_jump /\
  poseJumpCooldownTimer
    (handlePoseUpdates [(0.5, 0.1); (0.5, 0.1); (0.5, 0.1)]
       page_after_pose_jump)
  == poseJumpCooldownTimer page_after_pose_jump
     - inject_Z (Z.of_nat (length [(0.5, 0.1); (0.5, 0.1); (0.5, 0.1)]))
       * (1 / 60).
Proof.
  assert (Hpos : inject_Z (Z.of_nat (length [(0.5, 0.1); (0.5, 0.1);
                                             (0.5, 0.1)])) * (1 / 60)
                 < poseJumpCooldownTimer page_after_pose_jump)
    by by_evaluation.
  assert (Hg : exists g, game page_after_pose_jump = Some g /\
                         Game.isRunning g = true).
  { eexists. split; [reflexivity | by_evaluation]. }
  destruct Hg as (g & Hg & Hrun).
  split; [exact Hpos |].
  exact (proj1 (pose_jump_debounce _ _ g Hg Hrun Hpos)).
Defined.

(** X20: the restart button.  From the click to the timeout the game is
    stopped and key presses and pose samples change nothing; the timeout
    clears the resting shoulder height and the pose-jump timer and leaves
    the game that [start()] begins from the game as it was before the
    click, which, with a first delta below one second, is running. *)
Theorem restart_gives_fresh_session (Msin : Q -> Q) (dt r : Q) (m : Main)
    (g : Game.Game) :
  game m = Some g -> dt < 1 ->
  let stopped := restartClick m in
  let m' := restartTimeout Msin dt r stopped in
  (forall key, handleKeyDown key stopped = stopped) /\
  (forall normX normShoulderY,
      handlePoseUpdate normX normShoulderY stopped = stopped) /\
  restingShoulderY m' = None /\
  poseJumpCooldownTimer m' = 0 /\
  game m' = Some (Game.start Msin dt r g) /\
  option_map Game.isRunning (game m') = Some true.
Proof.
  intros Hg Hdt. cbv zeta.
  assert (Hstopped : game (restartClick m) = Some (Game.stop g)).
  { unfold restartClick. rewrite Hg. reflexivity. }
  destruct (stopped_ignores_input (restartClick m) (Game.stop g) Hstopped
              eq_refl) as (Hkey & Hpose).
  split; [exact Hkey | split; [exact Hpose |]].
  unfold restartTimeout. rewrite Hstopped.
  cbn [set_game resetGameSession restingShoulderY poseJumpCooldownTimer game].
  split; [reflexivity |]. split; [reflexivity |].
  rewrite GameLoop.start_after_stop. split; [reflexivity |].
  destruct (GameLoop.start_fresh Msin dt r g Hdt) as (Hr & Ho & _).
  cbn [option_map]. unfold Game.isRunning. now rewrite Hr, Ho.
Qed.

(** The page after a pose jump: restarting clears the pose variables. *)
Lemma restart_gives_fresh_session_witness :
  0.016 < 1 /\
  restingShoulderY
    (restartTimeout flat_sine 0.016 0.5 (restartClick page_after_pose_jump))
  = None /\
  option_map Game.isRunning
    (game (restartTimeout flat_sine 0.016 0.5
             (restartClick page_after_pose_jump))) = Some true.
Proof.
  assert (Hdt : 0.016 < 1) by by_evaluation.
  assert (Hg : exists g, game page_after_pose_jump = Some g).
  { eexists. reflexivity. }
  destruct Hg as (g & Hg).
  destruct (restart_gives_fresh_session flat_sine 0.016 0.5
              page_after_pose_jump g Hg Hdt)
    as (_ & _ & Hrest & _ & _ & Hrun).
  split; [exact Hdt | split; [exact Hrest | exact Hrun]].
Defined.

End Input.

(** ** The particles of a system *)

Module ParticleBounds.

Import Particles.

Lemma half_spread : PARTICLE_SPREAD / 2 == 3 # 4.
Proof. reflexivity. Qed.

Lemma base_height_double :
  0 <= PARTICLE_BASE_HEIGHT /\ fl64 PARTICLE_BASE_HEIGHT == PARTICLE_BASE_HEIGHT.
Proof. split; by_evaluation. Qed.

(** A draw, centred and spread, as stored. *)
Lemma centred_draw (r : Q) :
  0 <= r -> r < 1 ->
  Qabs (fl32 (fl64 (fl64 (r - 0.5) * PARTICLE_SPREAD))) <= PARTICLE_SPREAD / 2.
Proof.
  intros H0 H1. rewrite half_spread.
  destruct Rounding.doubles_kept as (_ & Dh & Dh' & Dq & Dq' & _).
  destruct Rounding.singles_kept as (_ & Sq & Sq' & _).
  pose proof (Rounding.fl64_mono (- (1 # 2)) (r - 0.5) ltac:(lra)) as A1.
  pose proof (Rounding.fl64_mono (r - 0.5) (1 # 2) ltac:(lra)) as A2.
  rewrite Dh' in A1. rewrite Dh in A2.
  set (c := fl64 (r - 0.5)) in *. unfold PARTICLE_SPREAD.
  pose proof (Rounding.fl64_mono (- (3 # 4)) (c * 1.5) ltac:(lra)) as B1.
  pose proof (Rounding.fl64_mono (c * 1.5) (3 # 4) ltac:(lra)) as B2.
  rewrite Dq' in B1. rewrite Dq in B2.
  set (d := fl64 (c * 1.5)) in *.
  pose proof (Rounding.fl32_mono (- (3 # 4)) d B1) as C1.
  pose proof (Rounding.fl32_mono d (3 # 4) B2) as C2.
  rewrite Sq' in C1. rewrite Sq in C2.
  apply Qabs_Qle_condition. split; assumption.
Qed.

(** A draw scaled to the lifetime, as stored. *)
Lemma age_draw (r : Q) :
  0 <= r -> r < 1 ->
  0 <= fl32 (fl64 (r * PARTICLE_LIFETIME)) /\
  fl32 (fl64 (r * PARTICLE_LIFETIME)) <= PARTICLE_LIFETIME.
Proof.
  intros H0 H1. unfold PARTICLE_LIFETIME.
  destruct Rounding.doubles_kept as (_ & _ & _ & _ & _ & D1).
  destruct Rounding.singles_kept as (_ & _ & _ & S1).
  split.
  - apply Rounding.fl32_nonneg, Rounding.fl64_nonneg. lra.
  - pose proof (Rounding.fl64_mono (r * 1.0) 1 ltac:(lra)) as A.
    rewrite D1 in A.
    pose proof (Rounding.fl32_mono _ _ A) as B. rewrite S1 in B. lra.
Qed.

(** A draw scaled to the base height, as stored. *)
Lemma height_draw (r : Q) :
  0 <= r -> r < 1 ->
  0 <= fl32 (fl64 (r * PARTICLE_BASE_HEIGHT)) /\
  fl32 (fl64 (r * PARTICLE_BASE_HEIGHT)) <= fl32 PARTICLE_BASE_HEIGHT.
Proof.
  intros H0 H1. destruct base_height_double as (Hb & Hd).
  set (h := PARTICLE_BASE_HEIGHT) in *. clearbody h.
  split.
  - apply Rounding.fl32_nonneg, Rounding.fl64_nonneg.
    now apply Qmult_le_0_compat.
  - apply Rounding.fl32_mono. rewrite <- Hd at 2.
    apply Rounding.fl64_mono. nra.
Qed.

Lemma spawn_ok (rnd : nat -> Q) (n : nat) :
  draws_in_range rnd -> particle_ok (spawn rnd n) /\ particle_low (spawn rnd n).
Proof.
  intro H. unfold particle_ok, particle_low, spawn. cbn [px py pz lifetime].
  destruct (H n) as (A0 & A1). destruct (H (n + 1)%nat) as (B0 & B1).
  destruct (H (n + 2)%nat) as (C0 & C1). destruct (H (n + 3)%nat) as (D0 & D1).
  destruct (age_draw _ D0 D1) as (L0 & L1).
  destruct (height_draw _ B0 B1) as (Y0 & Y1).
  split; [| exact Y1].
  split; [exact L0 |]. split; [exact L1 |].
  split; [now apply centred_draw |]. split; [now apply centred_draw |].
  exact Y0.
Qed.

Lemma spawn_loop_ok (rnd : nat -> Q) (count : nat) :
  draws_in_range rnd ->
  forall n : nat,
    Forall particle_ok (fst (spawn_loop rnd n count)) /\
    Forall particle_low (fst (spawn_loop rnd n count)) /\
    length (fst (spawn_loop rnd n count)) = count.
Proof.
  intro H. induction count as [| k IH]; intro n; cbn [spawn_loop].
  - split; [constructor | split; [constructor | reflexivity]].
  - destruct (IH (n + 4)%nat) as (Hok & Hlow & Hlen).
    destruct (spawn_loop rnd (n + 4) k) as [rest n']. cbn [fst length] in *.
    destruct (spawn_ok rnd n H) as (Sok & Slow).
    split; [constructor; assumption |].
    split; [constructor; assumption | now rewrite Hlen].
Qed.

(** One particle in [update]: it stays in the box, its stored age stays
    below the lifetime, and when the stored age reaches the lifetime it
    starts again at age 0, no higher than the base height. *)
Lemma update_one_ok (dt : Q) (rnd : nat -> Q) (n : nat) (p : Particle) :
  draws_in_range rnd -> 0 <= dt -> particle_ok p ->
  let p' := fst (update_one dt rnd n p) in
  particle_ok p' /\ lifetime p' < PARTICLE_LIFETIME /\
  (PARTICLE_LIFETIME <= fl32 (fl64 (lifetime p + dt)) ->
   lifetime p' = 0 /\ particle_low p').
Proof.
  intros H Hdt (L0 & L1 & Hx & Hz & Y0). cbv zeta.
  unfold update_one. cbv zeta.
  destruct (Qleb PARTICLE_LIFETIME (fl32 (fl64 (lifetime p + dt)))) eqn:E;
    unfold particle_ok, particle_low; cbn [fst px py pz lifetime].
  - destruct (H n) as (A0 & A1). destruct (H (n + 1)%nat) as (B0 & B1).
    destruct (H (n + 2)%nat) as (C0 & C1).
    destruct (height_draw _ B0 B1) as (Y0' & Y1').
    assert (Hlife : 0 < PARTICLE_LIFETIME) by reflexivity.
    split; [| split; [exact Hlife | intros _; split; [reflexivity | exact Y1']]].
    split; [apply Qle_refl |]. split; [now apply Qlt_le_weak |].
    split; [now apply centred_draw |]. split; [now apply centred_draw |].
    exact Y0'.
  - apply Qleb_false in E.
    assert (Hrise : 0 <= fl64 (PARTICLE_SPEED_Y * dt)).
    { apply Rounding.fl64_nonneg. unfold PARTICLE_SPEED_Y. lra. }
    split; [| split; [exact E | intro Hge; exfalso; lra]].
    split; [apply Rounding.fl32_nonneg, Rounding.fl64_nonneg; lra |].
    split; [now apply Qlt_le_weak |].
    split; [exact Hx |]. split; [exact Hz |].
    apply Rounding.fl32_nonneg, Rounding.fl64_nonneg. lra.
Qed.

Lemma update_loop_ok (dt : Q) (rnd : nat -> Q) (ps : list Particle) :
  draws_in_range rnd -> 0 <= dt -> Forall particle_ok ps ->
  forall n : nat,
    Forall particle_ok (fst (update_loop dt rnd n ps)) /\
    Forall (fun p => lifetime p < PARTICLE_LIFETIME)
           (fst (update_loop dt rnd n ps)) /\
    length (fst (update_loop dt rnd n ps)) = length ps.
Proof.
  intros H Hdt Hps. induction Hps as [| p rest Hp Hrest IH]; intro n;
    cbn [update_loop].
  - split; [constructor | split; [constructor | reflexivity]].
  - destruct (update_one_ok dt rnd n p H Hdt Hp) as (Hp' & Hl' & _).
    destruct (update_one dt rnd n p) as [p' n1]. cbn [fst] in Hp', Hl'.
    destruct (IH n1) as (Hok & Hlt & Hlen).
    destruct (update_loop dt rnd n1 rest) as [rest' n2]. cbn [fst length] in *.
    split; [constructor; assumption |].
    split; [constructor; assumption | now rewrite Hlen].
Qed.

(** X21: particles stay in their box.  With draws in [0, 1) and a delta
    that is not negative, the 25 particles of a system just created or just
    taken from the pool each have, as stored, an age from 0 to the lifetime,
    x and z within half the spread of the origin, and a height from 0 to the
    base height as a single; [update] keeps the number of particles, keeps
    each of them within the lifetime and the spread and not below the
    origin, and leaves every stored age below the lifetime; a particle whose
    stored age reaches the lifetime starts again at age 0, no higher than
    the base height. *)
Theorem particles_stay_in_box (rnd : nat -> Q) (dt : Q) (n n' : nat)
    (ps : list Particle) :
  draws_in_range rnd -> 0 <= dt ->
  (Forall particle_ok (fst (create rnd n)) /\
   Forall particle_low (fst (create rnd n)) /\
   length (fst (create rnd n)) = PARTICLE_COUNT) /\
  (Forall particle_ok ps ->
   Forall particle_ok (fst (update_loop dt rnd n' ps)) /\
   Forall (fun p => lifetime p < PARTICLE_LIFETIME)
          (fst (update_loop dt rnd n' ps)) /\
   length (fst (update_loop dt rnd n' ps)) = length ps) /\
  (forall p : Particle,
      particle_ok p ->
      PARTICLE_LIFETIME <= fl32 (fl64 (lifetime p + dt)) ->
      lifetime (fst (update_one dt rnd n' p)) = 0 /\
      particle_low (fst (update_one dt rnd n' p))).
Proof.
  intros H Hdt. split; [| split].
  - unfold create. now apply spawn_loop_ok.
  - intro Hps. now apply update_loop_ok.
  - intros p Hp. now apply update_one_ok.
Qed.

(** A system created from draws just below 1, which are stored as the
    lifetime itself, after one frame: all 25 particles have started again. *)
Lemma particles_stay_in_box_witness :
  draws_in_range (fun _ => 0.999999999) /\ 0 <= 0.016 /\
  length (fst (update_loop 0.016 (fun _ => 0.999999999) 100
                 (fst (create (fun _ => 0.999999999) 0)))) = PARTICLE_COUNT /\
  Forall (fun p => lifetime p < PARTICLE_LIFETIME)
         (fst (update_loop 0.016 (fun _ => 0.999999999) 100
                 (fst (create (fun _ => 0.999999999) 0)))).
Proof.
  assert (H : draws_in_range (fun _ => 0.999999999)).
  { intro k. split; by_evaluation. }
  assert (Hdt : 0 <= 0.016) by by_evaluation.
  destruct (particles_stay_in_box (fun _ => 0.999999999) 0.016 0 100
              (fst (create (fun _ => 0.999999999) 0)) H Hdt)
    as ((Hok & _ & Hlen) & Hupd & _).
  destruct (Hupd Hok) as (_ & Hlt & Hlen').
  split; [exact H | split; [exact Hdt | split; [| exact Hlt]]].
  rewrite Hlen'. exact Hlen.
Defined.

(** The draw 0.999999999 is stored as the lifetime 1.0 and, scaled to the
    base height, as the single next to 0.3, which is above 0.3. *)
Remark stored_draws :
  lifetime (spawn (fun _ => 0.999999999) 0) == PARTICLE_LIFETIME /\
  0.3 < py (spawn (fun _ => 0.999999999) 0) /\
  py (spawn (fun _ => 0.999999999) 0) == fl32 PARTICLE_BASE_HEIGHT.
Proof. split; [by_evaluation | split; by_evaluation]. Qed.

End ParticleBounds.

(** ** The pose tracker *)

Module PoseFrames.

Import PoseTracker.

Lemma mid_between (a b : Q) :
  Qmin a b <= (a + b) / 2 /\ (a + b) / 2 <= Qmax a b.
Proof.
  unfold Qdiv. change (/ 2) with (1 # 2).
  destruct (Q.min_spec a b) as [(Hlt & ->) | (Hle & ->)];
    destruct (Q.max_spec a b) as [(Hlt' & ->) | (Hle' & ->)];
    split; lra.
Qed.

Lemma _predictWebcam_stopped (currentTime : Q) (result : option Landmarks)
    (t : PoseTracker) :
  webcamRunning t = false -> _predictWebcam currentTime result t = (t, None).
Proof. intro H. unfold _predictWebcam. now rewrite H. Qed.

Lemma _predictWebcam_same_frame (currentTime : Q)
    (result result' : option Landmarks) (t : PoseTracker) :
  _predictWebcam currentTime result'
    (fst (_predictWebcam currentTime result t))
  = (fst (_predictWebcam currentTime result t), None).
Proof.
  destruct (webcamRunning t) eqn:Er.
  - destruct (Qeq_bool (lastVideoTime t) currentTime) eqn:Et.
    + assert (E : _predictWebcam currentTime result t = (t, None))
        by (unfold _predictWebcam; now rewrite Er, Et).
      rewrite E. cbn [fst]. unfold _predictWebcam. now rewrite Er, Et.
    + assert (E : _predictWebcam currentTime result t
                  = ({| lastVideoTime := currentTime;
                        webcamRunning := webcamRunning t |},
                     on_result result))
        by (unfold _predictWebcam; now rewrite Er, Et).
      rewrite E. cbn [fst]. unfold _predictWebcam.
      cbn [webcamRunning lastVideoTime]. rewrite Er. cbn [negb].
      now rewrite Qeq_bool_refl.
  - rewrite (_predictWebcam_stopped currentTime result t Er). cbn [fst].
    now apply _predictWebcam_stopped.
Qed.

(** X22: the prediction loop.  A tracker that is not running, as after
    [stop()], delivers nothing and does not change; a video frame is handed
    to the landmarker once: a second call at the same video time delivers
    nothing; a running tracker at a new video time delivers what the
    landmarker's first pose gives: the hip centre lies between the two hips
    and the shoulder centre between the two shoulders, and a pose that lacks
    a hip has its centre at 0.5. *)
Theorem pose_frame_handled_once (currentTime : Q)
    (result : option Landmarks) (t : PoseTracker) :
  _predictWebcam currentTime result (stop t) = (stop t, None) /\
  (forall result' : option Landmarks,
      _predictWebcam currentTime result'
        (fst (_predictWebcam currentTime result t))
      = (fst (_predictWebcam currentTime result t), None)) /\
  (webcamRunning t = true -> ~ lastVideoTime t == currentTime ->
   snd (_predictWebcam currentTime result t) = on_result result /\
   lastVideoTime (fst (_predictWebcam currentTime result t)) = currentTime) /\
  (forall l : Landmarks,
      result = Some l ->
      exists normX normShoulderY : Q,
        on_result result = Some (normX, normShoulderY) /\
        (forall lh rh, leftHip l = Some lh -> rightHip l = Some rh ->
                       Qmin (fst lh) (fst rh) <= normX /\
                       normX <= Qmax (fst lh) (fst rh)) /\
        (forall ls rs, leftShoulder l = Some ls -> rightShoulder l = Some rs ->
                       Qmin (snd ls) (snd rs) <= normShoulderY /\
                       normShoulderY <= Qmax (snd ls) (snd rs)) /\
        (leftHip l = None \/ rightHip l = None -> normX = 0.5) /\
        (leftShoulder l = None \/ rightShoulder l = None ->
         normShoulderY = 0.5)).
Proof.
  split; [now apply _predictWebcam_stopped |].
  split; [intro result'; apply _predictWebcam_same_frame |].
  split.
  - intros Hr Hnew. unfold _predictWebcam. rewrite Hr. cbn [negb].
    destruct (Qeq_bool (lastVideoTime t) currentTime) eqn:Et.
    + apply Qeq_bool_iff in Et. contradiction.
    + cbn. auto.
  - intros l ->. unfold on_result. cbv zeta.
    eexists. eexists. split; [reflexivity |].
    split; [| split; [| split]].
    + intros lh rh -> ->. apply mid_between.
    + intros ls rs -> ->. apply mid_between.
    + intros [-> | ->]; [reflexivity |].
      now destruct (leftHip l).
    + intros [-> | ->]; [reflexivity |].
      now destruct (leftShoulder l).
Qed.

(** A running tracker at a new video time, with hips at 0.4 and 0.6. *)
Lemma pose_frame_handled_once_witness :
  webcamRunning (enableCam PoseTracker.new) = true /\
  ~ lastVideoTime (enableCam PoseTracker.new) == 0 /\
  snd (_predictWebcam 0
         (Some {| leftShoulder := Some (0.6, 0.5);
                  rightShoulder := Some (0.4, 0.5);
                  leftHip := Some (0.6, 0.8);
                  rightHip := Some (0.4, 0.8) |})
         (enableCam PoseTracker.new))
  = on_result
      (Some {| leftShoulder := Some (0.6, 0.5);
               rightShoulder := Some (0.4, 0.5);
               leftHip := Some (0.6, 0.8);
               rightHip := Some (0.4, 0.8) |}).
Proof.
  assert (Hr : webcamRunning (enableCam PoseTracker.new) = true)
    by reflexivity.
  assert (Hnew : ~ lastVideoTime (enableCam PoseTracker.new) == 0)
    by (intro H; vm_compute in H; discriminate).
  destruct (pose_frame_handled_once 0
              (Some {| leftShoulder := Some (0.6, 0.5);
                       rightShoulder := Some (0.4, 0.5);
                       leftHip := Some (0.6, 0.8);
                       rightHip := Some (0.4, 0.8) |})
              (enableCam PoseTracker.new)) as (_ & _ & Hfresh & _).
  split; [exact Hr | split; [exact Hnew |]].
  exact (proj1 (Hfresh Hr Hnew)).
Defined.

End PoseFrames.

(** ** The two player classes *)

Module PlayerClasses.

Import Player.






Section ClassFacts.

Variable Msin : Q -> Q.






End ClassFacts.





End PlayerClasses.
